(** * Ara [matmul_fp] kernel: a shallow embedding of
      [apps/matmul_fp/kernel/matmul.c] and its properties.

    The kernel is C with RISC-V "V" inline assembly.  It is embedded as a
    program of a small state-and-fault monad over a machine that has
    - a vector length register [vl], set by [vsetvli];
    - the six vector register groups the kernel names
      ([v0], [v4], [v8], [v12], [v16], [v20], each an LMUL=4 group);
    - three memory objects, the buffers behind the pointers [a], [b], [c];
    - a log of the memory accesses issued so far (instrumentation only).

    Pointers are a memory object and a byte offset, as the assembly adds the
    byte strides [N << 3] and [P << 3] to them.  An access outside its object
    is a [Fault] (undefined behaviour in C).  The three loops take fuel;
    running out of it is the separate outcome [OutOfFuel].

    [int64_t] values are modelled by [Z]: signed overflow is undefined in C,
    and the dimensions of buffers that exist in memory stay far below 2^63. *)

From Stdlib Require Import ZArith Lia Bool List.
From stdpp Require Import list.

Local Open Scope Z_scope.

(** ** The vector unit

    What the kernel takes from the hardware: the type of double-precision
    values, the fused multiply-add [fmadd a b c] (a*b + c, rounded once),
    a zero, and the vector length [grant avl] that [vsetvli _, avl, e64, m4]
    grants for a requested element count [avl]. *)

Class VectorUnit : Type := {
  f64 : Type;
  fzero : f64;
  fmadd : f64 -> f64 -> f64 -> f64;
  grant : Z -> Z
}.

(** The vector-length rules of the RISC-V "V" extension that the kernel
    relies on, for a unit whose longest e64/m4 vector has [VLMAX] elements. *)
Record rvv_grant `{VectorUnit} (VLMAX : Z) : Prop := {
  vlmax_pos : 1 <= VLMAX;
  grant_small : forall avl, 0 <= avl <= VLMAX -> grant avl = avl;
  grant_large : forall avl, VLMAX < avl -> 1 <= grant avl <= VLMAX
}.

(** Exact integer arithmetic with a unit of at most [VLMAX] lanes.  On
    integer-valued doubles of small magnitude a binary64 fused multiply-add
    is exact, so this instance computes what the hardware computes there. *)
Definition exact_unit (VLMAX : Z) : VectorUnit :=
  {| f64 := Z;
     fzero := 0;
     fmadd := fun a b c => a * b + c;
     grant := fun avl => Z.min avl VLMAX |}.

(** Doubles that are integers of small magnitude, infinities or NaN.  On
    these the fused multiply-add of IEEE 754 is exact on the finite values
    and fixed on the others: zero times infinity is NaN, NaN propagates, and
    the sum of opposite infinities is NaN.  The sign of a zero is left out. *)
Inductive xdouble : Type :=
| XFin (z : Z)
| XInf (negative : bool)
| XNaN.

Definition xmul (a b : xdouble) : xdouble :=
  match a, b with
  | XNaN, _ | _, XNaN => XNaN
  | XInf s, XInf t => XInf (xorb s t)
  | XInf s, XFin z | XFin z, XInf s =>
      if z =? 0 then XNaN else XInf (xorb s (z <? 0))
  | XFin x, XFin y => XFin (x * y)
  end.

Definition xadd (a b : xdouble) : xdouble :=
  match a, b with
  | XNaN, _ | _, XNaN => XNaN
  | XInf s, XInf t => if Bool.eqb s t then XInf s else XNaN
  | XInf s, XFin _ | XFin _, XInf s => XInf s
  | XFin x, XFin y => XFin (x + y)
  end.

Definition special_unit (VLMAX : Z) : VectorUnit :=
  {| f64 := xdouble;
     fzero := XFin 0;
     fmadd := fun a b c => xadd (xmul a b) c;
     grant := fun avl => Z.min avl VLMAX |}.

(** ** Machine state *)

Inductive region : Type := RA | RB | RC.

Inductive vreg : Type := V0 | V4 | V8 | V12 | V16 | V20.

Definition region_eqb (r1 r2 : region) : bool :=
  match r1, r2 with
  | RA, RA | RB, RB | RC, RC => true
  | _, _ => false
  end.

Definition vreg_eqb (r1 r2 : vreg) : bool :=
  match r1, r2 with
  | V0, V0 | V4, V4 | V8, V8 | V12, V12 | V16, V16 | V20, V20 => true
  | _, _ => false
  end.

(** A pointer to double: the object it points into and a byte offset. *)
Record ptr : Type := mkPtr { base : region; offset : Z }.

(** [add %0, %0, %1] on a pointer register: byte arithmetic. *)
Definition padd (p : ptr) (bytes : Z) : ptr :=
  mkPtr (base p) (offset p + bytes).

(** C pointer arithmetic on [double *]: [p + k] moves by [8 * k] bytes. *)
Definition pidx (p : ptr) (k : Z) : ptr :=
  mkPtr (base p) (offset p + 8 * k).

Inductive event : Type :=
| EvLoad (p : ptr) (len : Z)
| EvStore (p : ptr) (len : Z).

Section Machine.
Context {VU : VectorUnit}.

Record state : Type := mkState {
  vl : Z;
  vrf : vreg -> list f64;
  mem : region -> list f64;
  trace : list event
}.

Inductive outcome (A : Type) : Type :=
| Done (a : A) (s : state)
| Fault
| OutOfFuel.
Arguments Done {A} a s.
Arguments Fault {A}.
Arguments OutOfFuel {A}.

Definition prog (A : Type) : Type := state -> outcome A.

Definition ret {A} (a : A) : prog A := fun s => Done a s.

Definition bind {A B} (c : prog A) (k : A -> prog B) : prog B :=
  fun s => match c s with
           | Done a s' => k a s'
           | Fault => Fault
           | OutOfFuel => OutOfFuel
           end.

Definition out_of_fuel {A} : prog A := fun _ => OutOfFuel.

End Machine.

Arguments Done {VU A} a s.
Arguments Fault {VU A}.
Arguments OutOfFuel {VU A}.

Notation "x <- c ;; k" := (bind c (fun x => k))
  (at level 100, c at next level, k at level 200, right associativity).
Notation "c ;; k" := (bind c (fun _ => k))
  (at level 100, k at level 200, right associativity).

Section Kernel.
Context {VU : VectorUnit}.

(** *** Memory objects *)

(** Element index of a byte offset: offsets are 8-byte aligned and not
    negative, anything else is outside the object. *)
Definition elem_index (off : Z) : option nat :=
  if (0 <=? off) && (off mod 8 =? 0) then Some (Z.to_nat (off / 8)) else None.

(** [len] consecutive doubles from element [k]; nothing when the range
    leaves the object. *)
Definition read_range (buf : list f64) (k len : nat) : option (list f64) :=
  if (k + len <=? length buf)%nat then Some (take len (drop k buf)) else None.

(** Overwrite the elements from [k] with [vs]; nothing when the range leaves
    the object (a store never grows it). *)
Definition write_range (buf : list f64) (k : nat) (vs : list f64)
  : option (list f64) :=
  if (k + length vs <=? length buf)%nat
  then Some (take k buf ++ vs ++ drop (k + length vs) buf)
  else None.

Definition set_vreg (rf : vreg -> list f64) (vd : vreg) (v : list f64)
  : vreg -> list f64 :=
  fun r => if vreg_eqb r vd then v else rf r.

Definition set_region (m : region -> list f64) (rg : region) (buf : list f64)
  : region -> list f64 :=
  fun r => if region_eqb r rg then buf else m r.

(** *** Instructions *)

(** [vsetvli rd, avl, e64, m4]: the unit grants a length, [vl] holds it, and
    [rd] receives it. *)
Definition vsetvli (avl : Z) : prog Z :=
  fun s =>
    let g := grant avl in
    Done g (mkState g (vrf s) (mem s) (trace s)).

(** [vle64.v vd, (p)]: the first [vl] elements of [vd] are loaded from [p];
    the tail of [vd] is undisturbed.  With [vl = 0] no element is accessed:
    the instruction cannot fault, whatever the address is, and the log
    receives an access of no element. *)
Definition vle64 (vd : vreg) (p : ptr) : prog unit :=
  fun s =>
    match (if vl s <=? 0 then Some []
           else match elem_index (offset p) with
                | Some k => read_range (mem s (base p)) k (Z.to_nat (vl s))
                | None => None
                end) with
    | Some v =>
        Done tt (mkState (vl s)
                         (set_vreg (vrf s) vd
                                   (v ++ drop (Z.to_nat (vl s)) (vrf s vd)))
                         (mem s)
                         (EvLoad p (vl s) :: trace s))
    | None => Fault
    end.

(** [vse64.v vs, (p)]: the first [vl] elements of [vs] are stored at [p].
    With [vl = 0] no element is accessed, as for [vle64.v]. *)
Definition vse64 (vs : vreg) (p : ptr) : prog unit :=
  fun s =>
    match (if vl s <=? 0 then Some (mem s (base p))
           else match elem_index (offset p) with
                | Some k =>
                    write_range (mem s (base p)) k
                                (take (Z.to_nat (vl s)) (vrf s vs))
                | None => None
                end) with
    | Some buf =>
        Done tt (mkState (vl s) (vrf s) (set_region (mem s) (base p) buf)
                         (EvStore p (vl s) :: trace s))
    | None => Fault
    end.

(** [fld ft, (p)]: one double is loaded from [p]. *)
Definition fld (p : ptr) : prog f64 :=
  fun s =>
    match elem_index (offset p) with
    | Some k =>
        match mem s (base p) !! k with
        | Some x =>
            Done x (mkState (vl s) (vrf s) (mem s) (EvLoad p 1 :: trace s))
        | None => Fault
        end
    | None => Fault
    end.

(** Element-wise [vd[i] := f * vs2[i] + vd[i]]; elements of [vd] past the
    end of [vs2] are left as they are. *)
Fixpoint fmacc (vd : list f64) (f : f64) (vs2 : list f64) : list f64 :=
  match vd, vs2 with
  | acc :: vd', x :: vs2' => fmadd f x acc :: fmacc vd' f vs2'
  | _, _ => vd
  end.

(** [vfmacc.vf vd, f, vs2]: the first [vl] elements of [vd] accumulate
    [f * vs2[i]]; the tail of [vd] is undisturbed. *)
Definition vfmacc_vf (vd : vreg) (f : f64) (vs2 : vreg) : prog unit :=
  fun s =>
    let n := Z.to_nat (vl s) in
    let v := fmacc (vrf s vd) f (take n (vrf s vs2)) in
    Done tt (mkState (vl s) (set_vreg (vrf s) vd v) (mem s) (trace s)).

(** ** The kernel, [matmul.c] *)

Definition MIN (a b : Z) : Z := if a <? b then a else b.

(** [matmul_vec_4x4_slice_init]: the four rows of the C block go to the
    accumulators [v0], [v4], [v8], [v12]. *)
Definition matmul_vec_4x4_slice_init (c : ptr) (P : Z) : prog unit :=
  let ldc := Z.shiftl P 3 in
  vle64 V0 c ;; let c := padd c ldc in
  vle64 V4 c ;; let c := padd c ldc in
  vle64 V8 c ;; let c := padd c ldc in
  vle64 V12 c.

(** The [while (n < N)] loop of [matmul_vec_4x4].  Its live variables are
    the pointer [b], the counter [n] and the scalars [t0 .. t3]; [a] is
    recomputed from [a_] in each half.  The scalars are what the code after
    the loop still reads. *)
Fixpoint reduction_loop (fuel : nat) (N lda ldb : Z) (a_ b : ptr) (n : Z)
    (t0 t1 t2 t3 : f64) : prog (f64 * f64 * f64 * f64) :=
  match fuel with
  | O => out_of_fuel
  | S fuel' =>
      if n <? N then
        vle64 V20 b ;; let b := padd b ldb in let n := n + 1 in
        let a := pidx a_ n in
        vfmacc_vf V0 t0 V16 ;;
        t0 <- fld a ;; let a := padd a lda in
        vfmacc_vf V4 t1 V16 ;;
        t1 <- fld a ;; let a := padd a lda in
        vfmacc_vf V8 t2 V16 ;;
        t2 <- fld a ;; let a := padd a lda in
        vfmacc_vf V12 t3 V16 ;;
        t3 <- fld a ;;
        if n =? N - 1 then ret (t0, t1, t2, t3)
        else
          vle64 V16 b ;; let b := padd b ldb in let n := n + 1 in
          let a := pidx a_ n in
          vfmacc_vf V0 t0 V20 ;;
          t0 <- fld a ;; let a := padd a lda in
          vfmacc_vf V4 t1 V20 ;;
          t1 <- fld a ;; let a := padd a lda in
          vfmacc_vf V8 t2 V20 ;;
          t2 <- fld a ;; let a := padd a lda in
          vfmacc_vf V12 t3 V20 ;;
          t3 <- fld a ;;
          reduction_loop fuel' N lda ldb a_ b n t0 t1 t2 t3
      else ret (t0, t1, t2, t3)
  end.

Definition matmul_vec_4x4 (fuel : nat) (c a b : ptr) (N P : Z) : prog unit :=
  let lda := Z.shiftl N 3 in
  let ldb := Z.shiftl P 3 in
  let ldc := Z.shiftl P 3 in
  let a_ := a in
  vle64 V16 b ;; let b := padd b ldb in
  t0 <- fld a ;; let a := padd a lda in
  t1 <- fld a ;; let a := padd a lda in
  t2 <- fld a ;; let a := padd a lda in
  t3 <- fld a ;;
  ts <- reduction_loop fuel N lda ldb a_ b 0 t0 t1 t2 t3 ;;
  let '(t0, t1, t2, t3) := ts in
  vfmacc_vf V0 t0 V20 ;;
  vse64 V0 c ;; let c := padd c ldc in
  vfmacc_vf V4 t1 V20 ;;
  vse64 V4 c ;; let c := padd c ldc in
  vfmacc_vf V8 t2 V20 ;;
  vse64 V8 c ;; let c := padd c ldc in
  vfmacc_vf V12 t3 V20 ;;
  vse64 V12 c.

(** The row loop of [matmul]: [for (m = 0; m < M; m += block_size)]. *)
Fixpoint row_loop (fuel kfuel : nat) (c_ a b_ : ptr) (M N P block_size m : Z)
  : prog unit :=
  match fuel with
  | O => out_of_fuel
  | S fuel' =>
      if m <? M then
        let a_ := pidx a (m * N) in
        let c__ := pidx c_ (m * P) in
        matmul_vec_4x4_slice_init c__ P ;;
        matmul_vec_4x4 kfuel c__ a_ b_ N P ;;
        row_loop fuel' kfuel c_ a b_ M N P block_size (m + block_size)
      else ret tt
  end.

(** The column loop of [matmul]: [for (p = 0; p < P; p += block_size_p)]. *)
Fixpoint col_loop (fuel kfuel : nat) (c a b : ptr)
    (M N P block_size block_size_p p : Z) : prog unit :=
  match fuel with
  | O => out_of_fuel
  | S fuel' =>
      if p <? P then
        let p_ := MIN (P - p) block_size_p in
        vsetvli p_ ;;
        let b_ := pidx b p in
        let c_ := pidx c p in
        row_loop kfuel kfuel c_ a b_ M N P block_size 0 ;;
        col_loop fuel' kfuel c a b M N P block_size block_size_p
                 (p + block_size_p)
      else ret tt
  end.

Definition matmul (fuel : nat) (c a b : ptr) (M N P : Z) : prog unit :=
  let block_size := 4 in
  block_size_p <- vsetvli P ;;
  col_loop fuel fuel c a b M N P block_size block_size_p 0.


(** ** Specification vocabulary *)

(** Element [x] of a buffer ([fzero] outside it). *)
Definition elt (buf : list f64) (x : Z) : f64 :=
  default fzero (buf !! Z.to_nat x).

(** The [v] elements of a buffer from element [e]. *)
Definition row (buf : list f64) (e v : Z) : list f64 :=
  take (Z.to_nat v) (drop (Z.to_nat e) buf).

(** A buffer with the elements from [e] overwritten by [vs]. *)
Definition store_row (buf : list f64) (e : Z) (vs : list f64) : list f64 :=
  take (Z.to_nat e) buf ++ vs ++ drop (Z.to_nat e + length vs) buf.

(** The body of a vector register: its first [vl] elements. *)
Definition body (s : state) (r : vreg) : list f64 :=
  take (Z.to_nat (vl s)) (vrf s r).

(** The naive reduction, in the words of the specification:
    [acc := fma(a k, b k, acc)] for [k = 0, 1, ..., n-1], in this order. *)
Definition fma_chain (a b : nat -> f64) (n : nat) (acc : f64) : f64 :=
  fold_left (fun acc k => fmadd (a k) (b k) acc) (seq 0 n) acc.

(** The same reduction on whole vectors: a scalar against a row. *)
Definition vchain (a : nat -> f64) (brow : nat -> list f64) (n : nat)
    (acc : list f64) : list f64 :=
  fold_left (fun acc k => fmacc acc (a k) (brow k)) (seq 0 n) acc.

(** [c] runs from [s] without fault, within its fuel, and ends in [Q]. *)
Definition wp {A} (c : prog A) (s : state) (Q : A -> state -> Prop) : Prop :=
  match c s with
  | Done a s' => Q a s'
  | _ => False
  end.

(** *** The reduction of one row group against one column chunk

    [s0] is the state in which [matmul_vec_4x4] starts; [a] points to element
    [ea] of object [ra], [b] to element [eb] of object [rb]. *)

(** [A[i][k]] of the row group. *)
Definition Aelt (s0 : state) (ra : region) (ea N i : Z) (k : nat) : f64 :=
  elt (mem s0 ra) (ea + i * N + Z.of_nat k).

(** Row [k] of the column chunk of [B]. *)
Definition Brow (s0 : state) (rb : region) (eb P : Z) (k : nat) : list f64 :=
  row (mem s0 rb) (eb + Z.of_nat k * P) (vl s0).

(** Accumulator [vd] of row [i] after the reduction steps [0 .. n-1]. *)
Definition acc_after (s0 : state) (ra : region) (ea : Z) (rb : region)
    (eb N P : Z) (vd : vreg) (i : Z) (n : nat) : list f64 :=
  vchain (Aelt s0 ra ea N i) (Brow s0 rb eb P) n (body s0 vd).

(** A load of the reduction: [A[i][k]] or row [k] of the chunk of [B], with
    the reduction index [k] below [N]. *)
Definition kernel_load (ra : region) (ea : Z) (rb : region) (eb N P v : Z)
    (ev : event) : Prop :=
  match ev with
  | EvLoad p len =>
      (base p = ra /\ len = 1 /\
       exists i k, 0 <= i < 4 /\ 0 <= k < N /\
                   offset p = 8 * (ea + i * N + k)) \/
      (base p = rb /\ len = v /\
       exists k, 0 <= k < N /\ offset p = 8 * (eb + k * P))
  | EvStore _ _ => False
  end.

(** A store of the write-back: row [i] of the C block at element [ec] of
    object [rc]. *)
Definition kernel_store (rc : region) (ec P v : Z) (ev : event) : Prop :=
  match ev with
  | EvStore p len =>
      base p = rc /\ len = v /\
      exists i, 0 <= i < 4 /\ offset p = 8 * (ec + i * P)
  | EvLoad _ _ => False
  end.

(** The access lies inside its memory object. *)
Definition in_bounds (m : region -> list f64) (ev : event) : Prop :=
  match ev with
  | EvLoad p len | EvStore p len =>
      0 <= offset p /\ 0 <= len /\
      offset p + 8 * len <= 8 * Z.of_nat (length (m (base p)))
  end.

(** The pipeline invariant: register [vb] holds row [n] of B, the scalars
    hold column [n] of the row group of A, and the accumulators hold the
    reduction of the steps before [n]. *)
Record kinv (s0 : state) (ra : region) (ea : Z) (rb : region) (eb N P : Z)
    (vb : vreg) (n : nat) (s : state) (t0 t1 t2 t3 : f64) : Prop := {
  kinv_vl : vl s = vl s0;
  kinv_mem : mem s = mem s0;
  kinv_vb : body s vb = Brow s0 rb eb P n;
  kinv_v0 : body s V0 = acc_after s0 ra ea rb eb N P V0 0 n;
  kinv_v4 : body s V4 = acc_after s0 ra ea rb eb N P V4 1 n;
  kinv_v8 : body s V8 = acc_after s0 ra ea rb eb N P V8 2 n;
  kinv_v12 : body s V12 = acc_after s0 ra ea rb eb N P V12 3 n;
  kinv_t0 : t0 = Aelt s0 ra ea N 0 n;
  kinv_t1 : t1 = Aelt s0 ra ea N 1 n;
  kinv_t2 : t2 = Aelt s0 ra ea N 2 n;
  kinv_t3 : t3 = Aelt s0 ra ea N 3 n;
  kinv_trace : exists tr, trace s = tr ++ trace s0 /\
                          Forall (kernel_load ra ea rb eb N P (vl s0)) tr
}.

(** The accumulator of row [i] of a row group. *)
Definition accreg (i : Z) : vreg :=
  if i =? 0 then V0 else if i =? 1 then V4 else if i =? 2 then V8 else V12.

(** What [matmul_vec_4x4] leaves behind when started in [s0] on the C block
    at element [ec] of object [rc]: row [i] of the block holds accumulator
    [i] after all [N] steps, the rest of memory is as before, and the
    accesses issued are the loads of the reduction and the four stores. *)
Record kpost (s0 : state) (ra : region) (ea : Z) (rb : region) (eb : Z)
    (rc : region) (ec N P : Z) (s : state) : Prop := {
  kpost_vl : vl s = vl s0;
  kpost_frame : forall r, r <> rc -> mem s r = mem s0 r;
  kpost_length : length (mem s rc) = length (mem s0 rc);
  kpost_block : forall i j, 0 <= i < 4 -> 0 <= j < vl s0 ->
      mem s rc !! Z.to_nat (ec + i * P + j)
      = acc_after s0 ra ea rb eb N P (accreg i) i (Z.to_nat N) !! Z.to_nat j;
  kpost_rest : forall x, 0 <= x ->
      (forall i, 0 <= i < 4 -> ~ (ec + i * P <= x < ec + i * P + vl s0)) ->
      mem s rc !! Z.to_nat x = mem s0 rc !! Z.to_nat x;
  kpost_trace : exists tr, trace s = tr ++ trace s0 /\
      Forall (fun ev => kernel_load ra ea rb eb N P (vl s0) ev \/
                        kernel_store rc ec P (vl s0) ev) tr
}.

(** What [matmul_vec_4x4_slice_init] leaves behind when started in [s0] on
    the C block at element [ec] of object [rc]: accumulator [i] holds row
    [i] of the block, and memory is as before. *)
Record ipost (s0 : state) (c : ptr) (ec P : Z) (s : state) : Prop := {
  ipost_vl : vl s = vl s0;
  ipost_mem : mem s = mem s0;
  ipost_acc : forall i, 0 <= i < 4 ->
      body s (accreg i) = row (mem s0 (base c)) (ec + i * P) (vl s0);
  ipost_trace :
    trace s = EvLoad (padd (padd (padd c (8 * P)) (8 * P)) (8 * P)) (vl s0)
              :: EvLoad (padd (padd c (8 * P)) (8 * P)) (vl s0)
              :: EvLoad (padd c (8 * P)) (vl s0)
              :: EvLoad c (vl s0) :: trace s0
}.

(** [C[i][j] + sum over k < N of A[i][k] * B[k][j]], accumulated by fused
    multiply-adds in ascending [k], starting from [c]. *)
Definition dot (A B : list f64) (N P i j : Z) (c : f64) : f64 :=
  fma_chain (fun k => elt A (i * N + Z.of_nat k))
            (fun k => elt B (Z.of_nat k * P + j)) (Z.to_nat N) c.

(** An access of [matmul] while it works on the column chunk that starts at
    column [p] and has [v] columns: an element of [A], a row of the chunk of
    [B], or a row of the chunk of [C]. *)
Definition chunk_access (ra rb rc : region) (M N P p v : Z) (ev : event)
  : Prop :=
  match ev with
  | EvLoad q len =>
      (base q = ra /\ len = 1 /\
       exists i k, 0 <= i < M /\ 0 <= k < N /\ offset q = 8 * (i * N + k)) \/
      (base q = rb /\ len = v /\
       exists k, 0 <= k < N /\ offset q = 8 * (k * P + p)) \/
      (base q = rc /\ len = v /\
       exists i, 0 <= i < M /\ offset q = 8 * (i * P + p))
  | EvStore q len =>
      base q = rc /\ len = v /\
      exists i, 0 <= i < M /\ offset q = 8 * (i * P + p)
  end.

(** An access of [matmul]: an access of one of its column chunks.  The
    chunks start at the multiples of [VL0] below [P], and a chunk has
    [MIN (P - p) VL0] columns. *)
Definition access_ok (ra rb rc : region) (M N P VL0 : Z) (ev : event) : Prop :=
  exists t, 0 <= t /\ t * VL0 < P /\
    chunk_access ra rb rc M N P (t * VL0) (MIN (P - t * VL0) VL0) ev.

(** The elements of the rows [m0 .. m1 - 1] and columns [p0 .. p1 - 1]. *)
Definition rect (m0 m1 p0 p1 : Z) (i j : Z) : Prop :=
  m0 <= i < m1 /\ p0 <= j < p1.

(** What [matmul] has done between the states [s0] and [s] when it has
    finished the elements [blk] of C: these hold the reduction, started from
    their value in [s0]; the other elements of C and the other objects are
    as in [s0]; and the accesses issued in between all satisfy [ok]. *)
Record bpost (s0 : state) (ra rb rc : region) (N P : Z)
    (blk : Z -> Z -> Prop) (ok : event -> Prop) (s : state) : Prop := {
  bpost_frame : forall r, r <> rc -> mem s r = mem s0 r;
  bpost_length : length (mem s rc) = length (mem s0 rc);
  bpost_block : forall i j, 0 <= i -> 0 <= j < P -> blk i j ->
      elt (mem s rc) (i * P + j)
      = dot (mem s0 ra) (mem s0 rb) N P i j (elt (mem s0 rc) (i * P + j));
  bpost_rest : forall i j, 0 <= i -> 0 <= j < P -> ~ blk i j ->
      elt (mem s rc) (i * P + j) = elt (mem s0 rc) (i * P + j);
  bpost_trace : exists tr, trace s = tr ++ trace s0 /\ Forall ok tr
}.

(** Between [s] and [s'] only object [rc] may have changed, and no object
    has changed its size. *)
Definition same_but (rc : region) (s s' : state) : Prop :=
  (forall r, r <> rc -> mem s' r = mem s r) /\
  (forall r, length (mem s' r) = length (mem s r)).

(** Whenever [c] returns, it has at most stored into object [rc]. *)
Definition frames {A} (rc : region) (c : prog A) : Prop :=
  forall s a s', c s = Done a s' -> same_but rc s s'.

(** The result the specification asks of [matmul], as a row-major buffer:
    element [i * P + j] is [C[i][j]] plus the product row [i] of A times
    column [j] of B. *)
Definition reference (A B C : list f64) (M N P : Z) : list f64 :=
  map (fun x : nat =>
         dot A B N P (Z.of_nat x / P) (Z.of_nat x mod P) (elt C (Z.of_nat x)))
      (seq 0 (Z.to_nat (M * P))).

(** *** Vocabulary for runs outside the contract *)

Definition is_load (ev : event) : Prop :=
  match ev with
  | EvLoad _ _ => True
  | EvStore _ _ => False
  end.

(** Whenever [c] returns, the states before and after it are related by
    [R]. *)
Definition preserves {A} (R : state -> state -> Prop) (c : prog A) : Prop :=
  forall s a s', c s = Done a s' -> R s s'.

(** The vector length is what it was. *)
Definition same_vl (s s' : state) : Prop := vl s' = vl s.

(** Memory and vector length are what they were, and only loads have been
    issued. *)
Definition loads_only (s s' : state) : Prop :=
  mem s' = mem s /\ vl s' = vl s /\
  exists tr, trace s' = tr ++ trace s /\ Forall is_load tr.

(** Pointer [q] points into column [p] of a matrix of [P] columns held
    from the start of its object. *)
Definition on_column (P p : Z) (q : ptr) : Prop :=
  exists r, offset q = 8 * (r * P + p).

(** An access made while the column chunk from column [p] is worked on with
    vector length [v]: a load through [a], or [v] elements from column [p]
    of some row. *)
Definition chunk_event (ra : region) (P p v : Z) (ev : event) : Prop :=
  match ev with
  | EvLoad q len | EvStore q len =>
      base q = ra \/ (len = v /\ on_column P p q)
  end.

(** Between [s] and [s'] the vector length has been kept and the accesses
    issued are those of the chunk from column [p]. *)
Definition chunk_run (ra : region) (P p : Z) (s s' : state) : Prop :=
  vl s' = vl s /\
  exists tr, trace s' = tr ++ trace s /\
             Forall (chunk_event ra P p (vl s)) tr.

(** An access of some column chunk: a load through [a], or the
    [MIN (P - p) VL0] elements from column [p] of some row, for a multiple
    [p] of [VL0] below [P]; the elements lie in the columns below [P]. *)
Definition column_access (ra : region) (P VL0 : Z) (ev : event) : Prop :=
  match ev with
  | EvLoad q len | EvStore q len =>
      base q = ra \/
      exists t r, 0 <= t /\ t * VL0 < P /\
                  len = MIN (P - t * VL0) VL0 /\
                  offset q = 8 * (r * P + t * VL0) /\
                  t * VL0 + len <= P
  end.

(** Between [s] and [s'] every access issued is one of a column chunk. *)
Definition columns_run (ra : region) (P VL0 : Z) (s s' : state) : Prop :=
  exists tr, trace s' = tr ++ trace s /\ Forall (column_access ra P VL0) tr.

(** The pipeline between two halves of the loop body, whatever [N] is:
    register [vb] holds row [n] of B and register [vo] the row before it,
    the scalars hold column [n] of the row group of A, and the accumulators
    hold the reduction of the steps before [n]. *)
Record pinv (s0 : state) (ra : region) (ea : Z) (rb : region) (eb N P : Z)
    (vb vo : vreg) (n : nat) (s : state) (t0 t1 t2 t3 : f64) : Prop := {
  pinv_vl : vl s = vl s0;
  pinv_mem : mem s = mem s0;
  pinv_vb : body s vb = Brow s0 rb eb P n;
  pinv_vo : (0 < n)%nat -> body s vo = Brow s0 rb eb P (n - 1);
  pinv_v0 : body s V0 = acc_after s0 ra ea rb eb N P V0 0 n;
  pinv_v4 : body s V4 = acc_after s0 ra ea rb eb N P V4 1 n;
  pinv_v8 : body s V8 = acc_after s0 ra ea rb eb N P V8 2 n;
  pinv_v12 : body s V12 = acc_after s0 ra ea rb eb N P V12 3 n;
  pinv_t0 : t0 = Aelt s0 ra ea N 0 n;
  pinv_t1 : t1 = Aelt s0 ra ea N 1 n;
  pinv_t2 : t2 = Aelt s0 ra ea N 2 n;
  pinv_t3 : t3 = Aelt s0 ra ea N 3 n
}.

(** What [matmul_vec_4x4] stores for row [i] when [N] is odd and nothing
    faults: the loop has then made the [N + 1] steps [0 .. N], and the
    write-back adds column [N + 1] of A against row [N] of B. *)
Definition acc_overrun (s0 : state) (ra : region) (ea : Z) (rb : region)
    (eb N P : Z) (vd : vreg) (i : Z) : list f64 :=
  fmacc (acc_after s0 ra ea rb eb N P vd i (Z.to_nat (N + 1)))
        (Aelt s0 ra ea N i (Z.to_nat (N + 1)))
        (Brow s0 rb eb P (Z.to_nat N)).

(** [c] never runs out of fuel. *)
Definition fueled {A} (c : prog A) : Prop := forall s, c s <> OutOfFuel.

End Kernel.

(** ** Concrete runs *)

(** The unit of the examples: exact arithmetic, two lanes per e64/m4
    vector. *)
Definition hw2 : VectorUnit := exact_unit 2.

(** The pointers a caller passes: the start of three distinct buffers. *)
Definition pa : ptr := mkPtr RA 0.
Definition pb : ptr := mkPtr RB 0.
Definition pc : ptr := mkPtr RC 0.

(** A machine with the buffers [A], [B], [C] behind [pa], [pb], [pc], vector
    length [v], and empty vector registers. *)
Definition start {VU : VectorUnit} (v : Z) (A B C : list f64) : state :=
  mkState v (fun _ => [])
          (fun r => match r with RA => A | RB => B | RC => C end) [].

(** The same machine with [acc] in every vector register. *)
Definition primed {VU : VectorUnit} (v : Z) (acc A B C : list f64) : state :=
  mkState v (fun _ => acc)
          (fun r => match r with RA => A | RB => B | RC => C end) [].

(** Sample matrices: A is 4 x 2, B is 2 x 3, C is 4 x 3; and the rows of
    zeros that replace A or B. *)
Definition exA : list Z := [1; 2; 3; 4; 5; 6; 7; 8].
Definition exB : list Z := [1; 10; 100; 1000; 10000; 100000].
Definition exC : list Z := [1; 2; 3; 4; 5; 6; 7; 8; 9; 10; 11; 12].
Definition exA0 : list Z := [0; 0; 0; 0; 0; 0; 0; 0].

(** The sample machine before [matmul] ... *)
Definition ex_start : @state hw2 := @start hw2 0 exA exB exC.

(** ... with A replaced by zeros ... *)
Definition ex_start0 : @state hw2 := @start hw2 0 exA0 exB exC.

(** ... and before the inner kernel works on the first row group and the
    first column chunk, of two columns. *)
Definition ex_primed : @state hw2 := @primed hw2 2 [0; 0] exA exB exC.

(** Machines outside the contract: three rows of C; no B at all; a 4 x 3
    matrix A against a 3 x 3 matrix B; C with two further doubles behind the
    matrix ... *)
Definition ex_ragged : @state hw2 :=
  @start hw2 0 exA exB [1; 2; 3; 4; 5; 6; 7; 8; 9].
Definition ex_empty : @state hw2 := @start hw2 0 [] [] exC.
Definition ex_odd : @state hw2 :=
  @start hw2 0 [1; 2; 3; 4; 5; 6; 7; 8; 9; 10; 11; 12]
         [1; 10; 100; 2; 20; 200; 3; 30; 300] exC.
Definition ex_padded : @state hw2 := @start hw2 0 exA exB (exC ++ [77; 88]).

(** ... a 4 x 1 matrix A and a 1 x 1 matrix B with further doubles behind
    them, before the inner kernel; the sample machine with [10; 20] in every
    vector register; and the sample machine on a unit that grants no
    element. *)
Definition exA1 : list Z := [1; 2; 3; 4; 7; 7].
Definition exB1 : list Z := [5; 1; 1].
Definition ex_primed1 : @state hw2 := @primed hw2 1 [0] exA1 exB1 [0; 0; 0; 0].
Definition ex_stale : @state hw2 := @primed hw2 2 [10; 20] exA exB exC.
Definition ex_stuck : @state (exact_unit 0) :=
  @start (exact_unit 0) 0 exA exB exC.

(** A unit of four lanes per e64/m4 vector, the shortest the vector
    extension has, and matrices of five columns for it: B is 2 x 5 and C is
    4 x 5, so that [matmul] works on a chunk of four columns and on a partial
    chunk of one. *)
Definition hw4 : VectorUnit := exact_unit 4.
Definition exB5 : list Z := [1; 10; 100; 1000; 10000; 2; 20; 200; 2000; 20000].
Definition exC5 : list Z :=
  [0; 0; 0; 0; 0; 0; 0; 0; 0; 0; 0; 0; 0; 0; 0; 0; 0; 0; 0; 0].
Definition ex_start5 : @state hw4 := @start hw4 0 exA exB5 exC5.

(** The same for [N = 1]: A is 4 x 1 and B is 1 x 5, in buffers of exactly
    these sizes, and in buffers with further doubles behind the matrices. *)
Definition ex_exact5 : @state hw4 :=
  @start hw4 0 [1; 2; 3; 4] [1; 10; 100; 1000; 10000] exC5.
Definition exA1_pad : list Z := [1; 2; 3; 4; 7; 7].
Definition exB1_pad : list Z :=
  [1; 10; 100; 1000; 10000; 0; 0; 0; 0; 1; 0; 0; 0; 0; 0].
Definition ex_padded5 : @state hw4 := @start hw4 0 exA1_pad exB1_pad exC5.

(** The buffer C after a run, when the run returns. *)
Definition final_C {VU : VectorUnit} {X} (o : outcome X) : option (list f64) :=
  match o with
  | Done _ s => Some (mem s RC)
  | Fault | OutOfFuel => None
  end.

(** The accesses a run has issued, oldest first, when the run returns. *)
Definition accesses {VU : VectorUnit} {X} (o : outcome X)
  : option (list event) :=
  match o with
  | Done _ s => Some (rev (trace s))
  | Fault | OutOfFuel => None
  end.

(** * Properties *)

(** ** Running programs *)

Section Rules.
Context {VU : VectorUnit}.

Lemma wp_ret {A} (a : A) s (Q : A -> state -> Prop) :
  Q a s -> wp (ret a) s Q.
Proof. intros HQ. exact HQ. Qed.

Lemma wp_bind {A B} (c : prog A) (k : A -> prog B) s (Q : B -> state -> Prop) :
  wp c s (fun a s' => wp (k a) s' Q) -> wp (bind c k) s Q.
Proof.
  unfold wp, bind. destruct (c s) as [a s'| |]; intros Hc; exact Hc.
Qed.

Lemma wp_mono {A} (c : prog A) s (Q Q' : A -> state -> Prop) :
  wp c s Q -> (forall a s', Q a s' -> Q' a s') -> wp c s Q'.
Proof.
  unfold wp. destruct (c s) as [a s'| |]; intros Hc HQ; auto.
Qed.

Lemma wp_done {A} (c : prog A) s (Q : A -> state -> Prop) :
  wp c s Q -> exists a s', c s = Done a s' /\ Q a s'.
Proof.
  unfold wp. destruct (c s) as [a s'| |]; intros Hc; try contradiction.
  exists a, s'. split; [reflexivity | exact Hc].
Qed.

(** *** Buffers *)

Lemma shiftl_3 (x : Z) : Z.shiftl x 3 = 8 * x.
Proof. rewrite Z.shiftl_mul_pow2 by lia. change (2 ^ 3) with 8. lia. Qed.

Lemma elem_index_8 (off e : Z) :
  off = 8 * e -> 0 <= e -> elem_index off = Some (Z.to_nat e).
Proof.
  intros -> He. unfold elem_index.
  replace (8 * e) with (e * 8) by lia.
  rewrite Z_mod_mult, Z.div_mul by lia.
  destruct (Z.leb_spec 0 (e * 8)); [reflexivity | lia].
Qed.

Lemma read_range_row (buf : list f64) (e v : Z) :
  0 <= e -> 0 <= v -> e + v <= Z.of_nat (length buf) ->
  read_range buf (Z.to_nat e) (Z.to_nat v) = Some (row buf e v).
Proof.
  intros He Hv Hlen. unfold read_range, row.
  destruct (Nat.leb_spec (Z.to_nat e + Z.to_nat v) (length buf));
    [reflexivity | lia].
Qed.

Lemma length_row (buf : list f64) (e v : Z) :
  0 <= e -> 0 <= v -> e + v <= Z.of_nat (length buf) ->
  length (row buf e v) = Z.to_nat v.
Proof.
  intros He Hv Hlen. unfold row. rewrite length_take, length_drop. lia.
Qed.

Lemma lookup_row (buf : list f64) (e v j : Z) :
  0 <= e -> 0 <= j < v ->
  row buf e v !! Z.to_nat j = buf !! Z.to_nat (e + j).
Proof.
  intros He Hj. unfold row.
  rewrite lookup_take_lt by lia. rewrite lookup_drop.
  f_equal. lia.
Qed.

Lemma lookup_elt (buf : list f64) (x : Z) :
  0 <= x < Z.of_nat (length buf) -> buf !! Z.to_nat x = Some (elt buf x).
Proof.
  intros Hx. unfold elt.
  destruct (buf !! Z.to_nat x) as [y|] eqn:E; [reflexivity |].
  apply lookup_ge_None in E. lia.
Qed.

Lemma length_write_range (buf buf' vs : list f64) (k : nat) :
  write_range buf k vs = Some buf' -> length buf' = length buf.
Proof.
  unfold write_range.
  destruct (Nat.leb_spec (k + length vs) (length buf)); [| discriminate].
  intros [= <-]. rewrite !length_app, length_take, length_drop. lia.
Qed.

Lemma write_range_ok (buf vs : list f64) (k : nat) :
  (k + length vs <= length buf)%nat ->
  write_range buf k vs = Some (take k buf ++ vs ++ drop (k + length vs) buf).
Proof.
  intros H. unfold write_range.
  destruct (Nat.leb_spec (k + length vs) (length buf)); [reflexivity | lia].
Qed.

Lemma lookup_write_in (buf vs : list f64) (k x : nat) :
  (k + length vs <= length buf)%nat -> (k <= x < k + length vs)%nat ->
  (take k buf ++ vs ++ drop (k + length vs) buf) !! x = vs !! (x - k)%nat.
Proof.
  intros Hlen Hx.
  rewrite lookup_app_r by (rewrite length_take; lia).
  rewrite length_take, Nat.min_l by lia.
  rewrite lookup_app_l by lia. reflexivity.
Qed.

Lemma lookup_write_out (buf vs : list f64) (k x : nat) :
  (k + length vs <= length buf)%nat -> (x < k \/ k + length vs <= x)%nat ->
  (take k buf ++ vs ++ drop (k + length vs) buf) !! x = buf !! x.
Proof.
  intros Hlen [Hx | Hx].
  - rewrite lookup_app_l by (rewrite length_take; lia).
    apply lookup_take_lt. exact Hx.
  - rewrite lookup_app_r by (rewrite length_take; lia).
    rewrite length_take, Nat.min_l by lia.
    rewrite lookup_app_r by lia.
    rewrite lookup_drop. f_equal. lia.
Qed.

(** *** Vector accumulation *)

Lemma length_fmacc (vd : list f64) f (vs2 : list f64) :
  length (fmacc vd f vs2) = length vd.
Proof.
  revert vs2. induction vd as [|x vd IH]; intros [|y vs2]; simpl; auto.
Qed.

Lemma take_fmacc (n : nat) (vd : list f64) f (vs2 : list f64) :
  take n (fmacc vd f vs2) = fmacc (take n vd) f (take n vs2).
Proof.
  revert vd vs2. induction n as [|n IH]; intros vd vs2.
  - destruct vd; reflexivity.
  - destruct vd as [|x vd]; [reflexivity |].
    destruct vs2 as [|y vs2]; [reflexivity |].
    simpl. f_equal. apply IH.
Qed.

Lemma lookup_fmacc (vd : list f64) f (vs2 : list f64) (j : nat) x y :
  vd !! j = Some x -> vs2 !! j = Some y ->
  fmacc vd f vs2 !! j = Some (fmadd f y x).
Proof.
  revert vd vs2. induction j as [|j IH]; intros [|x' vd] [|y' vs2];
    simpl; try discriminate.
  - intros [= ->] [= ->]. reflexivity.
  - apply IH.
Qed.

Lemma fma_chain_S (a b : nat -> f64) (n : nat) (acc : f64) :
  fma_chain a b (S n) acc = fmadd (a n) (b n) (fma_chain a b n acc).
Proof.
  unfold fma_chain. rewrite seq_S, fold_left_app. reflexivity.
Qed.

Lemma vchain_S (a : nat -> f64) (brow : nat -> list f64) (n : nat) acc :
  vchain a brow (S n) acc = fmacc (vchain a brow n acc) (a n) (brow n).
Proof.
  unfold vchain. rewrite seq_S, fold_left_app. reflexivity.
Qed.

Lemma length_vchain (a : nat -> f64) (brow : nat -> list f64) (n : nat) acc :
  length (vchain a brow n acc) = length acc.
Proof.
  induction n as [|n IH]; [reflexivity |].
  rewrite vchain_S, length_fmacc. exact IH.
Qed.

(** Lane [j] of the vector reduction is the scalar reduction of lane [j]. *)
Lemma lookup_vchain (a : nat -> f64) (brow : nat -> list f64) (b : nat -> f64)
    (n : nat) (acc : list f64) (j : nat) (x : f64) :
  acc !! j = Some x ->
  (forall k, (k < n)%nat -> brow k !! j = Some (b k)) ->
  vchain a brow n acc !! j = Some (fma_chain a b n x).
Proof.
  intros Hacc. induction n as [|n IH]; intros Hb.
  - exact Hacc.
  - rewrite vchain_S, fma_chain_S.
    apply lookup_fmacc; [apply IH; intros k Hk; apply Hb; lia |].
    apply Hb. lia.
Qed.

Lemma fma_chain_ext (a a' b b' : nat -> f64) (n : nat) (acc : f64) :
  (forall k, (k < n)%nat -> a k = a' k) ->
  (forall k, (k < n)%nat -> b k = b' k) ->
  fma_chain a b n acc = fma_chain a' b' n acc.
Proof.
  induction n as [|n IH]; intros Ha Hb; [reflexivity |].
  rewrite !fma_chain_S, IH, Ha, Hb by (intros; auto with lia). reflexivity.
Qed.

(** *** Instructions *)

Lemma wp_vsetvli avl s (Q : Z -> state -> Prop) :
  Q (grant avl) (mkState (grant avl) (vrf s) (mem s) (trace s)) ->
  wp (vsetvli avl) s Q.
Proof. intros HQ. exact HQ. Qed.

Lemma wp_vle64 vd p s (Q : unit -> state -> Prop) e :
  offset p = 8 * e -> 0 <= e -> 0 <= vl s ->
  e + vl s <= Z.of_nat (length (mem s (base p))) ->
  Q tt (mkState (vl s)
          (set_vreg (vrf s) vd
             (row (mem s (base p)) e (vl s)
                  ++ drop (Z.to_nat (vl s)) (vrf s vd)))
          (mem s) (EvLoad p (vl s) :: trace s)) ->
  wp (vle64 vd p) s Q.
Proof.
  intros Hoff He Hv Hlen HQ. unfold wp, vle64.
  destruct (Z.leb_spec (vl s) 0) as [Hz | Hz].
  - replace (row (mem s (base p)) e (vl s)) with (@nil f64) in HQ
      by (unfold row; replace (Z.to_nat (vl s)) with 0%nat by lia;
          reflexivity).
    exact HQ.
  - rewrite (elem_index_8 _ e Hoff He), read_range_row by assumption.
    exact HQ.
Qed.

Lemma wp_fld p s (Q : f64 -> state -> Prop) e :
  offset p = 8 * e -> 0 <= e < Z.of_nat (length (mem s (base p))) ->
  Q (elt (mem s (base p)) e)
    (mkState (vl s) (vrf s) (mem s) (EvLoad p 1 :: trace s)) ->
  wp (fld p) s Q.
Proof.
  intros Hoff He HQ. unfold wp, fld.
  rewrite (elem_index_8 _ e Hoff) by lia.
  rewrite lookup_elt by assumption. exact HQ.
Qed.

Lemma wp_vfmacc_vf vd f vs2 s (Q : unit -> state -> Prop) :
  Q tt (mkState (vl s)
          (set_vreg (vrf s) vd
             (fmacc (vrf s vd) f (take (Z.to_nat (vl s)) (vrf s vs2))))
          (mem s) (trace s)) ->
  wp (vfmacc_vf vd f vs2) s Q.
Proof. intros HQ. exact HQ. Qed.

Lemma wp_vse64 vs p s (Q : unit -> state -> Prop) e :
  offset p = 8 * e -> 0 <= e -> 0 <= vl s ->
  length (body s vs) = Z.to_nat (vl s) ->
  e + vl s <= Z.of_nat (length (mem s (base p))) ->
  Q tt (mkState (vl s) (vrf s)
          (set_region (mem s) (base p) (store_row (mem s (base p)) e (body s vs)))
          (EvStore p (vl s) :: trace s)) ->
  wp (vse64 vs p) s Q.
Proof.
  intros Hoff He Hv Hbody Hlen HQ. unfold wp, vse64.
  destruct (Z.leb_spec (vl s) 0) as [Hz | Hz].
  - replace (store_row (mem s (base p)) e (body s vs))
      with (mem s (base p)) in HQ; [exact HQ |].
    destruct (body s vs) as [|x vs']; [| cbn in Hbody; lia].
    unfold store_row. cbn [length app]. rewrite Nat.add_0_r.
    symmetry. apply take_drop.
  - rewrite (elem_index_8 _ e Hoff He).
    fold (body s vs). rewrite write_range_ok by lia.
    exact HQ.
Qed.

Lemma length_store_row (buf : list f64) (e : Z) (vs : list f64) :
  0 <= e -> e + Z.of_nat (length vs) <= Z.of_nat (length buf) ->
  length (store_row buf e vs) = length buf.
Proof.
  intros He Hlen. unfold store_row.
  rewrite !length_app, length_take, length_drop. lia.
Qed.

Lemma lookup_store_row_in (buf : list f64) (e : Z) (vs : list f64) (j : Z) :
  0 <= e -> e + Z.of_nat (length vs) <= Z.of_nat (length buf) ->
  0 <= j < Z.of_nat (length vs) ->
  store_row buf e vs !! Z.to_nat (e + j) = vs !! Z.to_nat j.
Proof.
  intros He Hlen Hj. unfold store_row.
  rewrite lookup_write_in by lia. f_equal. lia.
Qed.

Lemma lookup_store_row_out (buf : list f64) (e : Z) (vs : list f64) (x : Z) :
  0 <= e -> e + Z.of_nat (length vs) <= Z.of_nat (length buf) ->
  0 <= x -> x < e \/ e + Z.of_nat (length vs) <= x ->
  store_row buf e vs !! Z.to_nat x = buf !! Z.to_nat x.
Proof.
  intros He Hlen Hx Hout. unfold store_row.
  apply lookup_write_out; lia.
Qed.

(** The write-back of a row group: four rows of [v] elements, [P] apart. *)
Lemma four_rows (buf F0 F1 F2 F3 : list f64) (ec P v : Z) :
  0 <= ec -> 0 <= v <= P ->
  length F0 = Z.to_nat v -> length F1 = Z.to_nat v ->
  length F2 = Z.to_nat v -> length F3 = Z.to_nat v ->
  ec + 3 * P + v <= Z.of_nat (length buf) ->
  let B4 := store_row (store_row (store_row (store_row buf (ec + 0 * P) F0)
                                            (ec + 1 * P) F1)
                                 (ec + 2 * P) F2) (ec + 3 * P) F3 in
  length B4 = length buf /\
  (forall j, 0 <= j < v ->
     B4 !! Z.to_nat (ec + 0 * P + j) = F0 !! Z.to_nat j /\
     B4 !! Z.to_nat (ec + 1 * P + j) = F1 !! Z.to_nat j /\
     B4 !! Z.to_nat (ec + 2 * P + j) = F2 !! Z.to_nat j /\
     B4 !! Z.to_nat (ec + 3 * P + j) = F3 !! Z.to_nat j) /\
  (forall x, 0 <= x ->
     (forall i, 0 <= i < 4 -> ~ (ec + i * P <= x < ec + i * P + v)) ->
     B4 !! Z.to_nat x = buf !! Z.to_nat x).
Proof.
  intros Hec Hv L0 L1 L2 L3 Hlen.
  set (B1 := store_row buf (ec + 0 * P) F0).
  set (B2 := store_row B1 (ec + 1 * P) F1).
  set (B3 := store_row B2 (ec + 2 * P) F2).
  assert (LB1 : length B1 = length buf) by (apply length_store_row; lia).
  assert (LB2 : length B2 = length buf)
    by (unfold B2; rewrite length_store_row; lia).
  assert (LB3 : length B3 = length buf)
    by (unfold B3; rewrite length_store_row; lia).
  cbv zeta. split; [rewrite length_store_row; lia |]. split.
  - intros j Hj. repeat split.
    + rewrite lookup_store_row_out by lia. fold B3. unfold B3.
      rewrite lookup_store_row_out by lia. fold B2. unfold B2.
      rewrite lookup_store_row_out by lia. fold B1. unfold B1.
      apply lookup_store_row_in; lia.
    + rewrite lookup_store_row_out by lia. fold B3. unfold B3.
      rewrite lookup_store_row_out by lia. fold B2. unfold B2.
      apply lookup_store_row_in; lia.
    + rewrite lookup_store_row_out by lia. fold B3. unfold B3.
      apply lookup_store_row_in; lia.
    + apply lookup_store_row_in; lia.
  - intros x Hx Hout.
    pose proof (Hout 0 ltac:(lia)). pose proof (Hout 1 ltac:(lia)).
    pose proof (Hout 2 ltac:(lia)). pose proof (Hout 3 ltac:(lia)).
    rewrite lookup_store_row_out by lia. fold B3. unfold B3.
    rewrite lookup_store_row_out by lia. fold B2. unfold B2.
    rewrite lookup_store_row_out by lia. fold B1. unfold B1.
    apply lookup_store_row_out; lia.
Qed.

Lemma region_eqb_eq (r1 r2 : region) : region_eqb r1 r2 = true <-> r1 = r2.
Proof. destruct r1, r2; simpl; split; congruence. Qed.

Lemma set_region_same (m : region -> list f64) (r : region) buf :
  set_region m r buf r = buf.
Proof.
  unfold set_region.
  destruct (region_eqb r r) eqn:E; [reflexivity |].
  assert (region_eqb r r = true) by (apply region_eqb_eq; reflexivity).
  congruence.
Qed.

Lemma set_region_other (m : region -> list f64) (r r' : region) buf :
  r' <> r -> set_region m r buf r' = m r'.
Proof.
  intros Hne. unfold set_region.
  destruct (region_eqb r' r) eqn:E; [| reflexivity].
  apply region_eqb_eq in E. contradiction.
Qed.

Lemma length_set_region (m : region -> list f64) (r r' : region) buf :
  length buf = length (m r) ->
  length (set_region m r buf r') = length (m r').
Proof.
  intros Hlen. unfold set_region.
  destruct (region_eqb r' r) eqn:E; [| reflexivity].
  apply region_eqb_eq in E. subst r'. exact Hlen.
Qed.

Lemma accreg_cases (i : Z) :
  0 <= i < 4 -> i = 0 \/ i = 1 \/ i = 2 \/ i = 3.
Proof. lia. Qed.

Lemma body_load (v : Z) (new old : list f64) :
  length new = Z.to_nat v ->
  take (Z.to_nat v) (new ++ drop (Z.to_nat v) old) = new.
Proof. intros H. rewrite take_app_length' by lia. reflexivity. Qed.

Lemma body_fmacc (v : nat) (vd : list f64) f (vs2 : list f64) :
  take v (fmacc vd f (take v vs2)) = fmacc (take v vd) f (take v vs2).
Proof. rewrite take_fmacc, take_take, Nat.min_id. reflexivity. Qed.

End Rules.

(** Projections of an explicit state are reduced after every instruction,
    so that the states stay small. *)
Ltac simpl_state :=
  try unfold body;
  cbn [vl vrf mem trace base offset pidx padd set_vreg vreg_eqb].

(** ** The reduction loop, for even [N] *)

Section Reduction.
Context {VU : VectorUnit}.
Variables (s0 : state) (a_ : ptr) (ea : Z) (rb : region) (eb N P : Z).
Hypothesis Ha : offset a_ = 8 * ea.
Hypothesis Hea : 0 <= ea.
Hypothesis Heb : 0 <= eb.
Hypothesis HN : 1 <= N.
Hypothesis HP : 0 <= P.
Hypothesis Hvl : 0 <= vl s0.
Hypothesis HlenA : ea + 4 * N <= Z.of_nat (length (mem s0 (base a_))).
Hypothesis HlenB :
  eb + (N - 1) * P + vl s0 <= Z.of_nat (length (mem s0 rb)).

Local Notation "'inv'" := (kinv s0 (base a_) ea rb eb N P).
Local Notation "'lda'" := (Z.shiftl N 3).
Local Notation "'ldb'" := (Z.shiftl P 3).

Lemma kernel_load_A (p : ptr) (i k : Z) :
  base p = base a_ -> offset p = 8 * (ea + i * N + k) ->
  0 <= i < 4 -> 0 <= k < N ->
  kernel_load (base a_) ea rb eb N P (vl s0) (EvLoad p 1).
Proof.
  intros Hb Ho Hi Hk. left. repeat split; auto. exists i, k. auto.
Qed.

Lemma kernel_load_B (p : ptr) (k : Z) :
  base p = rb -> offset p = 8 * (eb + k * P) -> 0 <= k < N ->
  kernel_load (base a_) ea rb eb N P (vl s0) (EvLoad p (vl s0)).
Proof.
  intros Hb Ho Hk. right. repeat split; auto. exists k. auto.
Qed.

Lemma Brow_bound (k : Z) :
  0 <= k < N -> eb + k * P + vl s0 <= Z.of_nat (length (mem s0 rb)).
Proof. intros Hk. nia. Qed.

(** One half of the loop body: the other prefetch register [vn] is loaded
    with the next row of B, the four accumulators take the step held in
    [vb] and the scalars, and the scalars are reloaded with the next column
    of A. *)
Lemma wp_half (vb vn : vreg) (n : nat) (s : state) (t0 t1 t2 t3 : f64)
    (b : ptr) {X} (K : f64 -> f64 -> f64 -> f64 -> prog X)
    (Q : X -> state -> Prop) :
  (vb = V16 /\ vn = V20) \/ (vb = V20 /\ vn = V16) ->
  inv vb n s t0 t1 t2 t3 ->
  Z.of_nat n + 1 < N ->
  base b = rb -> offset b = 8 * (eb + (Z.of_nat n + 1) * P) ->
  (forall s' t0' t1' t2' t3',
      inv vn (S n) s' t0' t1' t2' t3' -> wp (K t0' t1' t2' t3') s' Q) ->
  wp (vle64 vn b ;;
      let a := pidx a_ (Z.of_nat n + 1) in
      vfmacc_vf V0 t0 vb ;;
      t0 <- fld a ;; let a := padd a lda in
      vfmacc_vf V4 t1 vb ;;
      t1 <- fld a ;; let a := padd a lda in
      vfmacc_vf V8 t2 vb ;;
      t2 <- fld a ;; let a := padd a lda in
      vfmacc_vf V12 t3 vb ;;
      t3 <- fld a ;;
      K t0 t1 t2 t3) s Q.
Proof.
  intros Hreg [Hv Hm Hb H0 H4 H8 H12 -> -> -> -> [tr [Htr Hok]]] Hn Hbb Hbo HK.
  pose proof (Brow_bound (Z.of_nat n + 1) ltac:(lia)) as HB.
  assert (Hrow : length (row (mem s0 rb) (eb + (Z.of_nat n + 1) * P) (vl s0))
                 = Z.to_nat (vl s0))
    by (apply length_row; [nia | lia | exact HB]).
  unfold body in Hb, H0, H4, H8, H12.
  rewrite Hv in Hb, H0, H4, H8, H12.
  cbv zeta.
  destruct Hreg as [[-> ->] | [-> ->]].
  all: apply wp_bind;
    apply wp_vle64 with (e := eb + (Z.of_nat n + 1) * P);
    [assumption | nia | lia | rewrite Hv, Hm, Hbb; exact HB | simpl_state].
  all: apply wp_bind, wp_vfmacc_vf; simpl_state.
  all: apply wp_bind; apply wp_fld with (e := ea + 0 * N + (Z.of_nat n + 1));
    [simpl_state; rewrite ?shiftl_3; lia | simpl_state; rewrite Hm; lia
    | simpl_state].
  all: apply wp_bind, wp_vfmacc_vf; simpl_state.
  all: apply wp_bind; apply wp_fld with (e := ea + 1 * N + (Z.of_nat n + 1));
    [simpl_state; rewrite ?shiftl_3; lia | simpl_state; rewrite Hm; lia
    | simpl_state].
  all: apply wp_bind, wp_vfmacc_vf; simpl_state.
  all: apply wp_bind; apply wp_fld with (e := ea + 2 * N + (Z.of_nat n + 1));
    [simpl_state; rewrite ?shiftl_3; lia | simpl_state; rewrite Hm; lia
    | simpl_state].
  all: apply wp_bind, wp_vfmacc_vf; simpl_state.
  all: apply wp_bind; apply wp_fld with (e := ea + 3 * N + (Z.of_nat n + 1));
    [simpl_state; rewrite ?shiftl_3; lia | simpl_state; rewrite Hm; lia
    | simpl_state].
  all: apply HK.
  all: split; simpl_state; rewrite ?Hm, ?Hbb, ?Hv.
  all: try reflexivity.
  all: try (rewrite body_load by exact Hrow; unfold Brow; do 2 f_equal; lia).
  all: try (unfold acc_after; rewrite vchain_S, body_fmacc, Hb;
            first [rewrite H0 | rewrite H4 | rewrite H8 | rewrite H12];
            reflexivity).
  all: try (unfold Aelt; f_equal; lia).
  all: exists (EvLoad (padd (padd (padd (pidx a_ (Z.of_nat n + 1)) lda) lda) lda) 1
            :: EvLoad (padd (padd (pidx a_ (Z.of_nat n + 1)) lda) lda) 1
            :: EvLoad (padd (pidx a_ (Z.of_nat n + 1)) lda) 1
            :: EvLoad (pidx a_ (Z.of_nat n + 1)) 1
            :: EvLoad b (vl s0) :: tr);
    (split; [rewrite Htr; reflexivity |]);
    repeat (apply Forall_cons; split); try exact Hok.
  all: try (apply kernel_load_B with (k := Z.of_nat n + 1); [assumption.. | lia]).
  all: first
    [ apply kernel_load_A with (i := 3) (k := Z.of_nat n + 1);
      [reflexivity | cbn [offset pidx padd]; rewrite ?shiftl_3; lia | lia..]
    | apply kernel_load_A with (i := 2) (k := Z.of_nat n + 1);
      [reflexivity | cbn [offset pidx padd]; rewrite ?shiftl_3; lia | lia..]
    | apply kernel_load_A with (i := 1) (k := Z.of_nat n + 1);
      [reflexivity | cbn [offset pidx padd]; rewrite ?shiftl_3; lia | lia..]
    | apply kernel_load_A with (i := 0) (k := Z.of_nat n + 1);
      [reflexivity | cbn [offset pidx padd]; rewrite ?shiftl_3; lia | lia..] ].
Qed.

Lemma reduction_loop_even (fuel : nat) :
  forall (n : nat) (s : state) (t0 t1 t2 t3 : f64) (b : ptr),
    Z.Even N -> Z.Even (Z.of_nat n) -> Z.of_nat n + 2 <= N ->
    inv V16 n s t0 t1 t2 t3 ->
    base b = rb -> offset b = 8 * (eb + (Z.of_nat n + 1) * P) ->
    (Z.to_nat (N - Z.of_nat n) <= fuel)%nat ->
    wp (reduction_loop fuel N lda ldb a_ b (Z.of_nat n) t0 t1 t2 t3) s
       (fun ts s' =>
          let '(t0', t1', t2', t3') := ts in
          inv V20 (Z.to_nat (N - 1)) s' t0' t1' t2' t3').
Proof.
  induction fuel as [|fuel IH]; intros n s t0 t1 t2 t3 b HNe Hne Hn Hinv Hbb Hbo Hf.
  - lia.
  - cbn [reduction_loop].
    destruct (Z.ltb_spec (Z.of_nat n) N) as [_|]; [| lia].
    cbv zeta.
    apply (wp_half V16 V20 n s t0 t1 t2 t3 b
             (fun t0 t1 t2 t3 =>
                if Z.of_nat n + 1 =? N - 1 then ret (t0, t1, t2, t3)
                else _)); [auto | assumption | lia | assumption.. |].
    intros s1 u0 u1 u2 u3 Hinv1.
    destruct (Z.eqb_spec (Z.of_nat n + 1) (N - 1)) as [Hlast | Hmore].
    + apply wp_ret. replace (Z.to_nat (N - 1)) with (S n) by lia. exact Hinv1.
    + assert (Hn4 : Z.of_nat n + 4 <= N)
        by (destruct HNe as [h ->], Hne as [h' Hh']; lia).
      change (Z.of_nat n + 1) with (Z.succ (Z.of_nat n)).
      rewrite <- Nat2Z.inj_succ.
      apply (wp_half V20 V16 (S n) s1 u0 u1 u2 u3 (padd b ldb)
               (fun t0 t1 t2 t3 =>
                  reduction_loop fuel N lda ldb a_ (padd (padd b ldb) ldb)
                                 (Z.of_nat (S n) + 1) t0 t1 t2 t3));
        [auto | assumption | lia | exact Hbb
        | cbn [offset padd]; rewrite shiftl_3; lia |].
      intros s2 w0 w1 w2 w3 Hinv2.
      change (Z.of_nat (S n) + 1) with (Z.succ (Z.of_nat (S n))).
      rewrite <- Nat2Z.inj_succ.
      apply IH; [assumption | | lia | assumption | exact Hbb | | lia].
      * destruct Hne as [h' Hh']. exists (h' + 1). lia.
      * cbn [offset padd]. rewrite shiftl_3. lia.
Qed.

End Reduction.

(** ** The inner kernel, for even [N] *)

Section InnerKernel.
Context {VU : VectorUnit}.

Lemma matmul_vec_4x4_even (fuel : nat) (c a b : ptr) (ec ea eb N P : Z)
    (s0 : state) :
  offset a = 8 * ea -> offset b = 8 * eb -> offset c = 8 * ec ->
  0 <= ea -> 0 <= eb -> 0 <= ec ->
  Z.Even N -> 2 <= N -> 0 <= vl s0 <= P ->
  ea + 4 * N <= Z.of_nat (length (mem s0 (base a))) ->
  eb + (N - 1) * P + vl s0 <= Z.of_nat (length (mem s0 (base b))) ->
  ec + 3 * P + vl s0 <= Z.of_nat (length (mem s0 (base c))) ->
  (forall i, 0 <= i < 4 -> length (body s0 (accreg i)) = Z.to_nat (vl s0)) ->
  (Z.to_nat N <= fuel)%nat ->
  wp (matmul_vec_4x4 fuel c a b N P) s0
     (fun _ s' => kpost s0 (base a) ea (base b) eb (base c) ec N P s').
Proof.
  intros Ha Hb Hc Hea Heb Hec HNe HN Hv HlenA HlenB HlenC Hacc Hfuel.
  unfold matmul_vec_4x4. cbv zeta.
  assert (HB0 : eb + vl s0 <= Z.of_nat (length (mem s0 (base b)))) by nia.
  assert (Hrow0 : length (row (mem s0 (base b)) eb (vl s0)) = Z.to_nat (vl s0))
    by (apply length_row; lia).
  apply wp_bind.
  apply wp_vle64 with (e := eb); [assumption | lia | lia | exact HB0 |].
  simpl_state.
  apply wp_bind.
  apply wp_fld with (e := ea + 0 * N + 0);
    [simpl_state; rewrite ?shiftl_3; lia | simpl_state; lia | simpl_state].
  apply wp_bind.
  apply wp_fld with (e := ea + 1 * N + 0);
    [simpl_state; rewrite ?shiftl_3; lia | simpl_state; lia | simpl_state].
  apply wp_bind.
  apply wp_fld with (e := ea + 2 * N + 0);
    [simpl_state; rewrite ?shiftl_3; lia | simpl_state; lia | simpl_state].
  apply wp_bind.
  apply wp_fld with (e := ea + 3 * N + 0);
    [simpl_state; rewrite ?shiftl_3; lia | simpl_state; lia | simpl_state].
  apply wp_bind.
  eapply wp_mono.
  { apply (reduction_loop_even s0 a ea (base b) eb N P) with (n := 0%nat);
      try assumption; try lia.
    - exists 0. reflexivity.
    - split; simpl_state; try reflexivity.
      + rewrite body_load by exact Hrow0. unfold Brow. do 2 f_equal. lia.
      + exists [EvLoad (padd (padd (padd a (Z.shiftl N 3)) (Z.shiftl N 3))
                             (Z.shiftl N 3)) 1;
                EvLoad (padd (padd a (Z.shiftl N 3)) (Z.shiftl N 3)) 1;
                EvLoad (padd a (Z.shiftl N 3)) 1;
                EvLoad a 1; EvLoad b (vl s0)].
        split; [reflexivity |].
        repeat (apply Forall_cons; split); try solve [constructor].
        * apply kernel_load_A with (i := 3) (k := 0);
            [reflexivity | simpl_state; rewrite ?shiftl_3; lia | lia..].
        * apply kernel_load_A with (i := 2) (k := 0);
            [reflexivity | simpl_state; rewrite ?shiftl_3; lia | lia..].
        * apply kernel_load_A with (i := 1) (k := 0);
            [reflexivity | simpl_state; rewrite ?shiftl_3; lia | lia..].
        * apply kernel_load_A with (i := 0) (k := 0);
            [reflexivity | simpl_state; rewrite ?shiftl_3; lia | lia..].
        * apply kernel_load_B with (k := 0); [reflexivity | lia | lia].
    - reflexivity.
    - simpl_state. rewrite shiftl_3. lia. }
  intros [[[t0 t1] t2] t3] s1 [Hv1 Hm1 Hb1 H0 H4 H8 H12 -> -> -> -> [tr [Htr Hok]]].
  assert (HSN : Z.to_nat N = S (Z.to_nat (N - 1))) by lia.
  assert (E : forall vd i,
             body s1 vd
             = acc_after s0 (base a) ea (base b) eb N P vd i (Z.to_nat (N - 1)) ->
             take (Z.to_nat (vl s0))
                  (fmacc (vrf s1 vd)
                         (Aelt s0 (base a) ea N i (Z.to_nat (N - 1)))
                         (take (Z.to_nat (vl s0)) (vrf s1 V20)))
             = acc_after s0 (base a) ea (base b) eb N P vd i (Z.to_nat N)).
  { intros vd i H. rewrite body_fmacc. unfold body in H, Hb1.
    rewrite Hv1 in H, Hb1. rewrite H, Hb1. unfold acc_after.
    rewrite HSN, vchain_S. reflexivity. }
  assert (LF : forall i, 0 <= i < 4 ->
             length (acc_after s0 (base a) ea (base b) eb N P (accreg i) i
                               (Z.to_nat N)) = Z.to_nat (vl s0)).
  { intros i Hi. unfold acc_after. rewrite length_vchain. apply Hacc, Hi. }
  pose proof (LF 0 ltac:(lia)) as L0. pose proof (LF 1 ltac:(lia)) as L1.
  pose proof (LF 2 ltac:(lia)) as L2. pose proof (LF 3 ltac:(lia)) as L3.
  change (accreg 0) with V0 in L0. change (accreg 1) with V4 in L1.
  change (accreg 2) with V8 in L2. change (accreg 3) with V12 in L3.
  destruct (four_rows (mem s0 (base c)) _ _ _ _ ec P (vl s0)
              Hec Hv L0 L1 L2 L3 HlenC) as [HL [HB HR]].
  cbv zeta in HL, HB, HR.
  assert (LB1 : length (store_row (mem s0 (base c)) (ec + 0 * P)
                          (acc_after s0 (base a) ea (base b) eb N P V0 0
                                     (Z.to_nat N)))
                = length (mem s0 (base c)))
    by (apply length_store_row; rewrite ?L0; lia).
  assert (LB2 : length (store_row
                          (store_row (mem s0 (base c)) (ec + 0 * P)
                             (acc_after s0 (base a) ea (base b) eb N P V0 0
                                        (Z.to_nat N)))
                          (ec + 1 * P)
                          (acc_after s0 (base a) ea (base b) eb N P V4 1
                                     (Z.to_nat N)))
                = length (mem s0 (base c)))
    by (rewrite length_store_row; rewrite ?LB1, ?L1; lia).
  assert (LB3 : length (store_row
                          (store_row
                             (store_row (mem s0 (base c)) (ec + 0 * P)
                                (acc_after s0 (base a) ea (base b) eb N P V0 0
                                           (Z.to_nat N)))
                             (ec + 1 * P)
                             (acc_after s0 (base a) ea (base b) eb N P V4 1
                                        (Z.to_nat N)))
                          (ec + 2 * P)
                          (acc_after s0 (base a) ea (base b) eb N P V8 2
                                     (Z.to_nat N)))
                = length (mem s0 (base c)))
    by (rewrite length_store_row; rewrite ?LB2, ?L2; lia).
  apply wp_bind, wp_vfmacc_vf; simpl_state; rewrite ?Hv1, ?Hm1.
  apply wp_bind. apply wp_vse64 with (e := ec + 0 * P);
    simpl_state; rewrite ?Hv1, ?Hm1, ?(E V0 0 H0); [lia | lia | lia | exact L0 | lia |].
  apply wp_bind, wp_vfmacc_vf; simpl_state.
  apply wp_bind. apply wp_vse64 with (e := ec + 1 * P);
    simpl_state; rewrite ?set_region_same, ?(E V4 1 H4), ?shiftl_3;
    [lia | lia | lia | exact L1 | rewrite ?LB3, ?LB2, ?LB1; lia |].
  apply wp_bind, wp_vfmacc_vf; simpl_state.
  apply wp_bind. apply wp_vse64 with (e := ec + 2 * P);
    simpl_state; rewrite ?set_region_same, ?(E V8 2 H8), ?shiftl_3;
    [lia | lia | lia | exact L2 | rewrite ?LB3, ?LB2, ?LB1; lia |].
  apply wp_bind, wp_vfmacc_vf; simpl_state.
  apply wp_vse64 with (e := ec + 3 * P);
    simpl_state; rewrite ?set_region_same, ?(E V12 3 H12), ?shiftl_3;
    [lia | lia | lia | exact L3 | rewrite ?LB3, ?LB2, ?LB1; lia |].
  split; simpl_state; rewrite ?set_region_same.
  - reflexivity.
  - intros r Hr. rewrite !set_region_other by exact Hr. reflexivity.
  - exact HL.
  - intros i j Hi Hj. destruct (HB j Hj) as (B0 & B1 & B2 & B3).
    destruct (accreg_cases i Hi) as [-> | [-> | [-> | ->]]]; assumption.
  - exact HR.
  - exists (EvStore (padd (padd (padd c (8 * P)) (8 * P)) (8 * P)) (vl s0)
            :: EvStore (padd (padd c (8 * P)) (8 * P)) (vl s0)
            :: EvStore (padd c (8 * P)) (vl s0)
            :: EvStore c (vl s0) :: tr).
    split; [rewrite Htr; reflexivity |].
    repeat (apply Forall_cons; split).
    + right. repeat split. exists 3. simpl_state. lia.
    + right. repeat split. exists 2. simpl_state. lia.
    + right. repeat split. exists 1. simpl_state. lia.
    + right. repeat split. exists 0. lia.
    + eapply Forall_impl; [exact Hok |]. intros ev Hev. left. exact Hev.
Qed.

End InnerKernel.

(** ** The accumulator initialiser *)

Section Initialiser.
Context {VU : VectorUnit}.

Lemma slice_init_spec (c : ptr) (ec P : Z) (s0 : state) :
  offset c = 8 * ec -> 0 <= ec -> 0 <= P -> 0 <= vl s0 ->
  ec + 3 * P + vl s0 <= Z.of_nat (length (mem s0 (base c))) ->
  wp (matmul_vec_4x4_slice_init c P) s0 (fun _ s' => ipost s0 c ec P s').
Proof.
  intros Hc Hec HP Hv Hlen.
  unfold matmul_vec_4x4_slice_init. cbv zeta. rewrite shiftl_3.
  assert (L : forall i, 0 <= i < 4 ->
            length (row (mem s0 (base c)) (ec + i * P) (vl s0))
            = Z.to_nat (vl s0))
    by (intros i Hi; apply length_row; nia).
  apply wp_bind. apply wp_vle64 with (e := ec + 0 * P);
    simpl_state; [lia | lia | lia | lia |].
  apply wp_bind. apply wp_vle64 with (e := ec + 1 * P);
    simpl_state; [lia | lia | lia | lia |].
  apply wp_bind. apply wp_vle64 with (e := ec + 2 * P);
    simpl_state; [lia | lia | lia | lia |].
  apply wp_vle64 with (e := ec + 3 * P);
    simpl_state; [lia | lia | lia | lia |].
  split; simpl_state; try reflexivity.
  intros i Hi.
  destruct (accreg_cases i Hi) as [-> | [-> | [-> | ->]]];
    cbn [accreg Z.eqb Pos.eqb vreg_eqb]; apply body_load, L; lia.
Qed.

End Initialiser.

(** ** One row group of one column chunk, for even [N] *)

Section RowGroup.
Context {VU : VectorUnit}.

Lemma elt_lookup (buf : list f64) (x : Z) (y : f64) :
  buf !! Z.to_nat x = Some y -> elt buf x = y.
Proof. intros H. unfold elt. rewrite H. reflexivity. Qed.

Lemma elt_eq_lookup (buf buf' : list f64) (x x' : Z) :
  buf !! Z.to_nat x = buf' !! Z.to_nat x' -> elt buf x = elt buf' x'.
Proof. intros H. unfold elt. rewrite H. reflexivity. Qed.

Lemma row_group_even (fuel : nat) (c a b : ptr) (M N P m p : Z) (s0 : state) :
  offset a = 0 -> offset b = 0 -> offset c = 0 ->
  Z.Even N -> 2 <= N -> 0 <= m -> m + 4 <= M ->
  0 <= p -> 0 <= vl s0 -> p + vl s0 <= P ->
  M * N <= Z.of_nat (length (mem s0 (base a))) ->
  N * P <= Z.of_nat (length (mem s0 (base b))) ->
  M * P <= Z.of_nat (length (mem s0 (base c))) ->
  (Z.to_nat N <= fuel)%nat ->
  wp (matmul_vec_4x4_slice_init (pidx (pidx c p) (m * P)) P ;;
      matmul_vec_4x4 fuel (pidx (pidx c p) (m * P)) (pidx a (m * N))
                     (pidx b p) N P) s0
     (fun _ s' =>
        vl s' = vl s0 /\
        bpost s0 (base a) (base b) (base c) N P
              (rect m (m + 4) p (p + vl s0))
              (chunk_access (base a) (base b) (base c) M N P p (vl s0)) s').
Proof.
  intros Ha Hb Hc HNe HN Hm HmM Hp Hv HpP HlenA HlenB HlenC Hfuel.
  assert (HA' : m * N + 4 * N <= Z.of_nat (length (mem s0 (base a)))) by nia.
  assert (HB' : p + (N - 1) * P + vl s0
                <= Z.of_nat (length (mem s0 (base b)))) by nia.
  assert (HC' : m * P + p + 3 * P + vl s0
                <= Z.of_nat (length (mem s0 (base c)))) by nia.
  apply wp_bind.
  eapply wp_mono.
  { apply slice_init_spec with (ec := m * P + p);
      simpl_state; [lia | nia | lia | lia | exact HC']. }
  intros _ s1 [Hv1 Hm1 Hacc1 Htr1]. cbn [base offset pidx] in Hacc1.
  eapply wp_mono.
  { apply matmul_vec_4x4_even with (ea := m * N) (eb := p) (ec := m * P + p);
      cbn [base offset pidx]; rewrite ?Hv1, ?Hm1;
      try assumption; try lia; try nia.
    intros i Hi. rewrite Hacc1 by exact Hi. apply length_row; nia. }
  intros _ s2 [Hv2 Hfr2 Hlen2 Hblk2 Hrest2 [tr2 [Htr2 Hok2]]].
  cbn [base offset pidx] in *.
  rewrite Hv1 in *. rewrite Hm1 in *.
  split; [exact Hv2 |]. split.
  - exact Hfr2.
  - exact Hlen2.
  - intros i j Hi0 Hj0 [Hi Hj].
    replace (i * P + j) with (m * P + p + (i - m) * P + (j - p)) by lia.
    apply elt_lookup. rewrite Hblk2 by lia.
    unfold acc_after, dot.
    erewrite lookup_vchain with
      (b := fun k => elt (mem s0 (base b)) (Z.of_nat k * P + j)).
    + f_equal. apply fma_chain_ext; [| reflexivity].
      intros k Hk. unfold Aelt. rewrite Hm1. f_equal. lia.
    + rewrite Hacc1 by lia. rewrite lookup_row by nia.
      apply lookup_elt. nia.
    + intros k Hk. unfold Brow. rewrite Hv1, Hm1.
      rewrite lookup_row by nia.
      replace (p + Z.of_nat k * P + (j - p)) with (Z.of_nat k * P + j) by lia.
      apply lookup_elt. nia.
  - intros i j Hi Hj Hout.
    apply elt_eq_lookup. apply Hrest2; [nia |].
    intros i' Hi' Hin. apply Hout. unfold rect.
    assert (i = m + i') by nia. subst i. lia.
  - exists (tr2 ++ [EvLoad (padd (padd (padd (pidx (pidx c p) (m * P)) (8 * P))
                                       (8 * P)) (8 * P)) (vl s0);
                    EvLoad (padd (padd (pidx (pidx c p) (m * P)) (8 * P))
                                 (8 * P)) (vl s0);
                    EvLoad (padd (pidx (pidx c p) (m * P)) (8 * P)) (vl s0);
                    EvLoad (pidx (pidx c p) (m * P)) (vl s0)]).
    split; [rewrite Htr2, Htr1, <- app_assoc; reflexivity |].
    apply Forall_app. split.
    + eapply Forall_impl; [exact Hok2 |].
      intros [q len | q len] [Hev | Hev]; cbn in Hev |- *; try contradiction.
      * destruct Hev as [(Hq & Hl & i & k & Hi & Hk & Ho)
                        | (Hq & Hl & k & Hk & Ho)].
        -- left. repeat split; auto. exists (m + i), k.
           repeat split; try lia.
        -- right. left. repeat split; auto. exists k. split; [lia | lia].
      * destruct Hev as (Hq & Hl & i & Hi & Ho).
        repeat split; auto. exists (m + i). split; lia.
    + repeat (apply Forall_cons; split); try solve [constructor].
      * right. right. repeat split. exists (m + 3).
        simpl_state. split; lia.
      * right. right. repeat split. exists (m + 2).
        simpl_state. split; lia.
      * right. right. repeat split. exists (m + 1).
        simpl_state. split; lia.
      * right. right. repeat split. exists m.
        simpl_state. split; lia.
Qed.

(** *** Composing finished blocks *)

Lemma bpost_refl (s0 : state) (ra rb rc : region) (N P : Z)
    (ok : event -> Prop) :
  bpost s0 ra rb rc N P (fun _ _ => False) ok s0.
Proof.
  split.
  - reflexivity.
  - reflexivity.
  - intros i j _ _ [].
  - reflexivity.
  - exists []. split; [reflexivity | constructor].
Qed.

Lemma bpost_compose (s0 s1 s2 : state) (ra rb rc : region) (N P : Z)
    (blk1 blk2 : Z -> Z -> Prop) (ok : event -> Prop) :
  ra <> rc -> rb <> rc ->
  (forall i j, blk1 i j -> blk2 i j -> False) ->
  bpost s0 ra rb rc N P blk1 ok s1 ->
  bpost s1 ra rb rc N P blk2 ok s2 ->
  bpost s0 ra rb rc N P (fun i j => blk1 i j \/ blk2 i j) ok s2.
Proof.
  intros Hra Hrb Hdis [F1 L1 B1 R1 [tr1 [T1 O1]]] [F2 L2 B2 R2 [tr2 [T2 O2]]].
  split.
  - intros r Hr. rewrite F2, F1 by exact Hr. reflexivity.
  - rewrite L2, L1. reflexivity.
  - intros i j Hi Hj [Hb | Hb].
    + rewrite R2 by (try assumption; intros Hb2; exact (Hdis i j Hb Hb2)).
      apply B1; assumption.
    + rewrite B2 by assumption.
      rewrite (F1 ra Hra), (F1 rb Hrb).
      rewrite R1 by (try assumption; intros Hb1; exact (Hdis i j Hb1 Hb)).
      reflexivity.
  - intros i j Hi Hj Hout.
    rewrite R2 by (try assumption; intros Hb; apply Hout; right; exact Hb).
    apply R1; try assumption. intros Hb. apply Hout. left. exact Hb.
  - exists (tr2 ++ tr1). split; [rewrite T2, T1, app_assoc; reflexivity |].
    apply Forall_app. split; assumption.
Qed.

Lemma bpost_weaken (s0 s : state) (ra rb rc : region) (N P : Z)
    (blk blk' : Z -> Z -> Prop) (ok ok' : event -> Prop) :
  (forall i j, 0 <= i -> 0 <= j < P -> blk i j <-> blk' i j) ->
  (forall ev, ok ev -> ok' ev) ->
  bpost s0 ra rb rc N P blk ok s ->
  bpost s0 ra rb rc N P blk' ok' s.
Proof.
  intros Hblk Hok [F L B R [tr [T O]]]. split; auto.
  - intros i j Hi Hj Hb. apply B; auto. apply Hblk; auto.
  - intros i j Hi Hj Hb. apply R; auto. intros Hb'. apply Hb, Hblk; auto.
  - exists tr. split; [exact T |]. eapply Forall_impl; eauto.
Qed.

End RowGroup.

(** ** The row loop and the column loop, for even [N] *)

Section Loops.
Context {VU : VectorUnit}.
Variables (c a b : ptr) (M N P : Z).
Hypothesis Ha : offset a = 0.
Hypothesis Hb : offset b = 0.
Hypothesis Hc : offset c = 0.
Hypothesis Hac : base a <> base c.
Hypothesis Hbc : base b <> base c.
Hypothesis HNe : Z.Even N.
Hypothesis HN : 2 <= N.
Hypothesis HM : exists q, M = 4 * q.
Hypothesis HP : 1 <= P.

Lemma wp_seq {A B C} (c1 : prog A) (c2 : prog B) (k : B -> prog C) s
    (Q : C -> state -> Prop) :
  wp (c1 ;; c2) s (fun x s' => wp (k x) s' Q) ->
  wp (c1 ;; x <- c2 ;; k x) s Q.
Proof.
  unfold wp, bind. destruct (c1 s) as [x1 s1| |]; auto.
  destruct (c2 s1) as [x2 s2| |]; auto.
Qed.

Lemma row_loop_even (s0 : state) (p : Z) (kfuel : nat) :
  0 <= p -> 0 <= vl s0 -> p + vl s0 <= P ->
  M * N <= Z.of_nat (length (mem s0 (base a))) ->
  N * P <= Z.of_nat (length (mem s0 (base b))) ->
  M * P <= Z.of_nat (length (mem s0 (base c))) ->
  (Z.to_nat N <= kfuel)%nat ->
  forall (fuel : nat) (m : Z) (s : state),
    (exists t, m = 4 * t) -> 0 <= m <= M ->
    vl s = vl s0 ->
    bpost s0 (base a) (base b) (base c) N P (rect 0 m p (p + vl s0))
          (chunk_access (base a) (base b) (base c) M N P p (vl s0)) s ->
    (Z.to_nat (M - m) < fuel)%nat ->
    wp (row_loop fuel kfuel (pidx c p) a (pidx b p) M N P 4 m) s
       (fun _ s' =>
          vl s' = vl s0 /\
          bpost s0 (base a) (base b) (base c) N P (rect 0 M p (p + vl s0))
                (chunk_access (base a) (base b) (base c) M N P p (vl s0)) s').
Proof.
  intros Hp Hv HpP HlenA HlenB HlenC Hkf.
  induction fuel as [|fuel IH]; intros m s Hm4 Hm Hvl Hpost Hfuel; [lia |].
  cbn [row_loop].
  destruct (Z.ltb_spec m M) as [Hlt | Hge].
  - assert (HmM : m + 4 <= M)
      by (destruct HM as [q ->], Hm4 as [t ->]; lia).
    cbv zeta. apply wp_seq.
    pose proof Hpost as [F L B R T].
    eapply wp_mono.
    { apply row_group_even with (M := M); try assumption; try lia.
      - rewrite (F (base a) Hac). exact HlenA.
      - rewrite (F (base b) Hbc). exact HlenB. }
    intros _ s' [Hvl' Hpost']. cbv beta. rewrite Hvl in Hvl', Hpost'.
    apply IH.
    + destruct Hm4 as [t ->]. exists (t + 1). lia.
    + lia.
    + exact Hvl'.
    + eapply bpost_weaken;
        [| intros ev Hev; exact Hev
         | apply (bpost_compose s0 s s') with
             (blk1 := rect 0 m p (p + vl s0))
             (blk2 := rect m (m + 4) p (p + vl s0));
           [exact Hac | exact Hbc | | exact Hpost | exact Hpost']].
      * intros i j Hi Hj. unfold rect. cbv beta. lia.
      * unfold rect. intros i j. cbv beta. lia.
    + lia.
  - apply wp_ret. assert (m = M) by lia. subst m. split; assumption.
Qed.

Lemma MIN_min (x y : Z) : MIN x y = Z.min x y.
Proof. unfold MIN. destruct (Z.ltb_spec x y); lia. Qed.

Lemma bpost_same_start (s0 s0' s : state) (ra rb rc : region)
    (blk : Z -> Z -> Prop) (ok : event -> Prop) :
  mem s0' = mem s0 -> trace s0' = trace s0 ->
  bpost s0' ra rb rc N P blk ok s -> bpost s0 ra rb rc N P blk ok s.
Proof.
  intros Hm Ht [F L B R T]. rewrite Hm in *. rewrite Ht in T.
  split; assumption.
Qed.

Lemma grant_first (VLMAX : Z) :
  rvv_grant VLMAX -> 1 <= grant P <= P /\ grant P <= VLMAX.
Proof.
  intros [Hmax Hsmall Hlarge].
  destruct (Z.le_gt_cases P VLMAX) as [Hle | Hgt].
  - rewrite Hsmall by lia. lia.
  - specialize (Hlarge P ltac:(lia)). lia.
Qed.

Lemma col_loop_even (VLMAX : Z) (s0 : state) (kfuel : nat) :
  rvv_grant VLMAX ->
  0 <= M ->
  M * N <= Z.of_nat (length (mem s0 (base a))) ->
  N * P <= Z.of_nat (length (mem s0 (base b))) ->
  M * P <= Z.of_nat (length (mem s0 (base c))) ->
  (Z.to_nat N <= kfuel)%nat -> (Z.to_nat M < kfuel)%nat ->
  forall (fuel : nat) (p : Z) (s : state),
    (exists t, 0 <= t /\ p = t * grant P) ->
    bpost s0 (base a) (base b) (base c) N P (rect 0 M 0 p)
          (access_ok (base a) (base b) (base c) M N P (grant P)) s ->
    (Z.to_nat (P - p) < fuel)%nat ->
    wp (col_loop fuel kfuel c a b M N P 4 (grant P) p) s
       (fun _ s' =>
          bpost s0 (base a) (base b) (base c) N P (rect 0 M 0 P)
                (access_ok (base a) (base b) (base c) M N P (grant P)) s').
Proof.
  intros Hrvv HM0 HlenA HlenB HlenC HkN HkM.
  destruct (grant_first VLMAX Hrvv) as [HVL0 HVLmax].
  induction fuel as [|fuel IH]; intros p s Hpt Hpost Hfuel; [lia |].
  cbn [col_loop].
  destruct Hpt as [t [Ht Hpt]].
  destruct (Z.ltb_spec p P) as [Hlt | Hge].
  - cbv zeta. rewrite MIN_min.
    assert (Hp0 : 0 <= p) by nia.
    assert (Hgr : grant (Z.min (P - p) (grant P)) = Z.min (P - p) (grant P))
      by (apply (grant_small VLMAX Hrvv); lia).
    apply wp_bind, wp_vsetvli. rewrite Hgr.
    set (s1 := mkState (Z.min (P - p) (grant P)) (vrf s) (mem s) (trace s)).
    apply wp_bind.
    pose proof Hpost as [F L B R T].
    eapply wp_mono.
    { apply (row_loop_even s1 p kfuel) with (m := 0);
        cbn [vl mem s1]; try assumption; try lia.
      - rewrite (F (base a) Hac). exact HlenA.
      - rewrite (F (base b) Hbc). exact HlenB.
      - exists 0. reflexivity.
      - eapply bpost_weaken; [| | apply bpost_refl].
        + intros i j Hi Hj. unfold rect. cbv beta. lia.
        + intros ev Hev. exact Hev. }
    intros _ s2 [Hvl2 Hpost2]. cbv beta. cbn [vl s1] in Hpost2.
    apply IH.
    + exists (t + 1). split; lia.
    + eapply bpost_weaken;
        [| | apply (bpost_compose s0 s s2) with
               (blk1 := rect 0 M 0 p)
               (blk2 := rect 0 M p (p + Z.min (P - p) (grant P)))
               (ok := access_ok (base a) (base b) (base c) M N P (grant P));
             [exact Hac | exact Hbc | | exact Hpost |]].
      * intros i j Hi Hj. unfold rect. cbv beta. lia.
      * intros ev Hev. exact Hev.
      * unfold rect. intros i j. cbv beta. lia.
      * apply (bpost_same_start s s1); [reflexivity | reflexivity |].
        eapply bpost_weaken; [| | exact Hpost2].
        -- intros i j Hi Hj. reflexivity.
        -- intros ev Hev. exists t. split; [exact Ht |].
           rewrite <- Hpt, MIN_min. split; [lia | exact Hev].
    + lia.
  - apply wp_ret.
    eapply bpost_weaken; [| | exact Hpost].
    + intros i j Hi Hj. unfold rect. lia.
    + intros ev Hev. exact Hev.
Qed.

(** [matmul] on even [N]: every element of C holds the reduction, nothing
    else has changed, and every access is an access of a column chunk. *)
Lemma matmul_even (VLMAX : Z) (s0 : state) (fuel : nat) :
  rvv_grant VLMAX ->
  0 <= M ->
  M * N <= Z.of_nat (length (mem s0 (base a))) ->
  N * P <= Z.of_nat (length (mem s0 (base b))) ->
  M * P <= Z.of_nat (length (mem s0 (base c))) ->
  (Z.to_nat N <= fuel)%nat -> (Z.to_nat M < fuel)%nat ->
  (Z.to_nat P < fuel)%nat ->
  wp (matmul fuel c a b M N P) s0
     (fun _ s' =>
        bpost s0 (base a) (base b) (base c) N P (rect 0 M 0 P)
              (access_ok (base a) (base b) (base c) M N P (grant P)) s').
Proof.
  intros Hrvv HM0 HlenA HlenB HlenC HfN HfM HfP.
  unfold matmul. cbv zeta.
  apply wp_bind, wp_vsetvli.
  set (s1 := mkState (grant P) (vrf s0) (mem s0) (trace s0)).
  eapply wp_mono.
  { apply (col_loop_even VLMAX s1 fuel) with (p := 0);
      cbn [mem s1]; try assumption; try lia.
    - exists 0. split; lia.
    - eapply bpost_weaken; [| | apply bpost_refl].
      + intros i j Hi Hj. unfold rect. cbv beta. lia.
      + intros ev Hev. exact Hev. }
  intros u s2 Hpost. cbv beta.
  apply (bpost_same_start s0 s1); [reflexivity | reflexivity | exact Hpost].
Qed.

End Loops.

(** ** What a call can change, and that it terminates *)

Section Frame.
Context {VU : VectorUnit}.

Lemma same_but_refl (rc : region) (s : state) : same_but rc s s.
Proof. split; reflexivity. Qed.

Lemma same_but_trans (rc : region) (s1 s2 s3 : state) :
  same_but rc s1 s2 -> same_but rc s2 s3 -> same_but rc s1 s3.
Proof.
  intros [F1 L1] [F2 L2]. split.
  - intros r Hr. rewrite F2, F1 by exact Hr. reflexivity.
  - intros r. rewrite L2, L1. reflexivity.
Qed.

Lemma frames_ret {A} (rc : region) (a : A) : frames rc (ret a).
Proof. intros s a' s' [= _ <-]. apply same_but_refl. Qed.

Lemma frames_bind {A B} (rc : region) (c : prog A) (k : A -> prog B) :
  frames rc c -> (forall a, frames rc (k a)) -> frames rc (bind c k).
Proof.
  intros Hc Hk s b s'. unfold bind.
  destruct (c s) as [a s1| |] eqn:E; try discriminate.
  intros Hks. eapply same_but_trans; [eapply Hc, E | eapply Hk, Hks].
Qed.

Lemma frames_out_of_fuel {A} (rc : region) : frames rc (@out_of_fuel _ A).
Proof. intros s a s'. discriminate. Qed.

Lemma frames_vsetvli (rc : region) (avl : Z) : frames rc (vsetvli avl).
Proof. intros s a s' [= _ <-]. split; reflexivity. Qed.

Lemma frames_vle64 (rc : region) (vd : vreg) (p : ptr) :
  frames rc (vle64 vd p).
Proof.
  intros s a s'. unfold vle64.
  destruct (if vl s <=? 0 then _ else _); [| discriminate].
  intros [= _ <-]. split; reflexivity.
Qed.

Lemma frames_fld (rc : region) (p : ptr) : frames rc (fld p).
Proof.
  intros s a s'. unfold fld.
  destruct (elem_index (offset p)); [| discriminate].
  destruct (_ !! _); [| discriminate].
  intros [= _ <-]. split; reflexivity.
Qed.

Lemma frames_vfmacc_vf (rc : region) (vd : vreg) (f : f64) (vs2 : vreg) :
  frames rc (vfmacc_vf vd f vs2).
Proof. intros s a s' [= _ <-]. split; reflexivity. Qed.

Lemma frames_vse64 (vs : vreg) (p : ptr) : frames (base p) (vse64 vs p).
Proof.
  intros s a s'. unfold vse64.
  destruct (if vl s <=? 0 then _ else _) as [buf|] eqn:E; [| discriminate].
  intros [= _ <-]. split; cbn [mem].
  - intros r Hr. apply set_region_other. exact Hr.
  - intros r. apply length_set_region.
    destruct (vl s <=? 0); [injection E as <-; reflexivity |].
    destruct (elem_index (offset p)); [| discriminate].
    apply (length_write_range _ _ _ _ E).
Qed.

Ltac frames_step :=
  lazymatch goal with
  | |- frames _ (ret _) => apply frames_ret
  | |- frames _ out_of_fuel => apply frames_out_of_fuel
  | |- frames _ (vsetvli _) => apply frames_vsetvli
  | |- frames _ (vle64 _ _) => apply frames_vle64
  | |- frames _ (fld _) => apply frames_fld
  | |- frames _ (vfmacc_vf _ _ _) => apply frames_vfmacc_vf
  | |- frames _ (vse64 ?v ?p) => exact (frames_vse64 v p)
  | |- frames _ (bind _ _) => apply frames_bind; [| intros ?]
  end.

Lemma frames_slice_init (rc : region) (c : ptr) (P : Z) :
  frames rc (matmul_vec_4x4_slice_init c P).
Proof. unfold matmul_vec_4x4_slice_init. cbv zeta. repeat frames_step. Qed.

Lemma frames_reduction_loop (rc : region) (fuel : nat) :
  forall N lda ldb a_ b n t0 t1 t2 t3,
    frames rc (reduction_loop fuel N lda ldb a_ b n t0 t1 t2 t3).
Proof.
  induction fuel as [|fuel IH]; intros; cbn [reduction_loop].
  - frames_step.
  - destruct (n <? N); [| frames_step]. cbv zeta.
    repeat frames_step.
    destruct (n + 1 =? N - 1); [frames_step |].
    repeat frames_step. apply IH.
Qed.

Lemma frames_matmul_vec_4x4 (fuel : nat) (c a b : ptr) (N P : Z) :
  frames (base c) (matmul_vec_4x4 fuel c a b N P).
Proof.
  unfold matmul_vec_4x4. cbv zeta.
  repeat frames_step.
  - apply frames_reduction_loop.
  - match goal with
    | ts : (_ * _ * _ * _)%type |- _ => destruct ts as [[[t0 t1] t2] t3]
    end.
    repeat frames_step.
Qed.

Lemma frames_row_loop (fuel kfuel : nat) (c_ a b_ : ptr) (M N P bs : Z) :
  forall m, frames (base c_) (row_loop fuel kfuel c_ a b_ M N P bs m).
Proof.
  induction fuel as [|fuel IH]; intros m; cbn [row_loop].
  - frames_step.
  - destruct (m <? M); [| frames_step]. cbv zeta.
    apply frames_bind; [apply frames_slice_init | intros _].
    apply frames_bind; [| intros _; apply IH].
    exact (frames_matmul_vec_4x4 kfuel (pidx c_ (m * P)) _ _ N P).
Qed.

Lemma frames_col_loop (fuel kfuel : nat) (c a b : ptr) (M N P bs bsp : Z) :
  forall p, frames (base c) (col_loop fuel kfuel c a b M N P bs bsp p).
Proof.
  induction fuel as [|fuel IH]; intros p; cbn [col_loop].
  - frames_step.
  - destruct (p <? P); [| frames_step]. cbv zeta.
    frames_step; [frames_step |].
    apply frames_bind; [| intros _; apply IH].
    exact (frames_row_loop kfuel kfuel (pidx c p) _ _ M N P bs 0).
Qed.

Lemma frames_matmul (fuel : nat) (c a b : ptr) (M N P : Z) :
  frames (base c) (matmul fuel c a b M N P).
Proof.
  unfold matmul. cbv zeta.
  frames_step; [frames_step |]. apply frames_col_loop.
Qed.

(** *** Fuel *)

Lemma fueled_ret {A} (a : A) : fueled (ret a).
Proof. intros s. discriminate. Qed.

Lemma fueled_bind {A B} (c : prog A) (k : A -> prog B) :
  fueled c -> (forall a, fueled (k a)) -> fueled (bind c k).
Proof.
  intros Hc Hk s. unfold bind.
  destruct (c s) as [a s1| |] eqn:E.
  - apply Hk.
  - discriminate.
  - exfalso. exact (Hc s E).
Qed.

Lemma fueled_vsetvli (avl : Z) : fueled (vsetvli avl).
Proof. intros s. discriminate. Qed.

Lemma fueled_vle64 (vd : vreg) (p : ptr) : fueled (vle64 vd p).
Proof.
  intros s. unfold vle64.
  destruct (if vl s <=? 0 then _ else _); discriminate.
Qed.

Lemma fueled_fld (p : ptr) : fueled (fld p).
Proof.
  intros s. unfold fld.
  destruct (elem_index (offset p)); [| discriminate].
  destruct (_ !! _); discriminate.
Qed.

Lemma fueled_vfmacc_vf (vd : vreg) (f : f64) (vs2 : vreg) :
  fueled (vfmacc_vf vd f vs2).
Proof. intros s. discriminate. Qed.

Lemma fueled_vse64 (vs : vreg) (p : ptr) : fueled (vse64 vs p).
Proof.
  intros s. unfold vse64.
  destruct (if vl s <=? 0 then _ else _); discriminate.
Qed.

Ltac fueled_step :=
  lazymatch goal with
  | |- fueled (ret _) => apply fueled_ret
  | |- fueled (vsetvli _) => apply fueled_vsetvli
  | |- fueled (vle64 _ _) => apply fueled_vle64
  | |- fueled (fld _) => apply fueled_fld
  | |- fueled (vfmacc_vf _ _ _) => apply fueled_vfmacc_vf
  | |- fueled (vse64 _ _) => apply fueled_vse64
  | |- fueled (bind _ _) => apply fueled_bind; [| intros ?]
  end.

Lemma fueled_slice_init (c : ptr) (P : Z) :
  fueled (matmul_vec_4x4_slice_init c P).
Proof. unfold matmul_vec_4x4_slice_init. cbv zeta. repeat fueled_step. Qed.

(** Every pass of the reduction loop increases [n], by one when it leaves
    through the [break] and by two otherwise, so [N - n + 1] passes are
    enough. *)
Lemma fueled_reduction_loop (N lda ldb : Z) (a_ : ptr) (fuel : nat) :
  forall b n t0 t1 t2 t3,
    (Z.to_nat (N - n) < fuel)%nat ->
    fueled (reduction_loop fuel N lda ldb a_ b n t0 t1 t2 t3).
Proof.
  induction fuel as [|fuel IH]; intros b n t0 t1 t2 t3 Hf; [lia |].
  cbn [reduction_loop].
  destruct (Z.ltb_spec n N) as [Hlt | Hge]; [| fueled_step]. cbv zeta.
  repeat fueled_step.
  destruct (n + 1 =? N - 1); [fueled_step |].
  repeat fueled_step. apply IH. lia.
Qed.

Lemma fueled_matmul_vec_4x4 (fuel : nat) (c a b : ptr) (N P : Z) :
  (Z.to_nat N < fuel)%nat -> fueled (matmul_vec_4x4 fuel c a b N P).
Proof.
  intros Hf. unfold matmul_vec_4x4. cbv zeta.
  repeat fueled_step.
  - apply fueled_reduction_loop. lia.
  - match goal with
    | ts : (_ * _ * _ * _)%type |- _ => destruct ts as [[[t0 t1] t2] t3]
    end.
    repeat fueled_step.
Qed.

(** The row loop advances [m] by 4 on every pass. *)
Lemma fueled_row_loop (kfuel : nat) (c_ a b_ : ptr) (M N P : Z) (fuel : nat) :
  (Z.to_nat N < kfuel)%nat ->
  forall m, (Z.to_nat (M - m) < fuel)%nat ->
            fueled (row_loop fuel kfuel c_ a b_ M N P 4 m).
Proof.
  intros Hk. induction fuel as [|fuel IH]; intros m Hf; [lia |].
  cbn [row_loop].
  destruct (Z.ltb_spec m M) as [Hlt | Hge]; [| fueled_step]. cbv zeta.
  apply fueled_bind; [apply fueled_slice_init | intros _].
  apply fueled_bind; [apply fueled_matmul_vec_4x4, Hk | intros _].
  apply IH. lia.
Qed.

(** The column loop advances [p] by [block_size_p] on every pass. *)
Lemma fueled_col_loop (kfuel : nat) (c a b : ptr) (M N P bsp : Z)
    (fuel : nat) :
  1 <= bsp ->
  (Z.to_nat N < kfuel)%nat -> (Z.to_nat M < kfuel)%nat ->
  forall p, (Z.to_nat (P - p) < fuel)%nat ->
            fueled (col_loop fuel kfuel c a b M N P 4 bsp p).
Proof.
  intros Hbsp HkN HkM. induction fuel as [|fuel IH]; intros p Hf; [lia |].
  cbn [col_loop].
  destruct (Z.ltb_spec p P) as [Hlt | Hge]; [| fueled_step]. cbv zeta.
  fueled_step; [fueled_step |].
  apply fueled_bind; [apply fueled_row_loop; [exact HkN | lia] | intros _].
  apply IH. lia.
Qed.

End Frame.

(** ** The kernel's contract *)

Section Contract.
Context {VU : VectorUnit}.

Lemma access_in_bounds (ra rb rc : region) (M N P VL0 : Z)
    (m : region -> list f64) (ev : event) :
  1 <= VL0 -> 0 <= M -> 0 <= N -> 1 <= P ->
  M * N <= Z.of_nat (length (m ra)) ->
  N * P <= Z.of_nat (length (m rb)) ->
  M * P <= Z.of_nat (length (m rc)) ->
  access_ok ra rb rc M N P VL0 ev -> in_bounds m ev.
Proof.
  intros HVL HM HN HP HA HB HC [t [Ht [HtP Hev]]].
  assert (Hlen : 0 <= MIN (P - t * VL0) VL0 <= P - t * VL0)
    by (rewrite MIN_min; lia).
  assert (Hq : 0 <= t * VL0) by nia.
  destruct ev as [q len | q len]; cbn in Hev |- *.
  - destruct Hev as [(Hb & -> & i & k & Hi & Hk & Ho)
                    | [(Hb & -> & k & Hk & Ho) | (Hb & -> & i & Hi & Ho)]];
      rewrite Hb, Ho; repeat split; try lia; nia.
  - destruct Hev as (Hb & -> & i & Hi & Ho).
    rewrite Hb, Ho. repeat split; try lia; nia.
Qed.

Lemma dot_zero_left (A B : list f64) (N P i j : Z) (c : f64) :
  (forall k, 0 <= k < N -> elt A (i * N + k) = fzero) ->
  (forall k, 0 <= k < N -> fmadd fzero (elt B (k * P + j)) c = c) ->
  dot A B N P i j c = c.
Proof.
  intros HA Hlaw. unfold dot.
  assert (H : forall n, (n <= Z.to_nat N)%nat ->
              fma_chain (fun k => elt A (i * N + Z.of_nat k))
                        (fun k => elt B (Z.of_nat k * P + j)) n c = c).
  { induction n as [|n IH]; intros Hn; [reflexivity |].
    rewrite fma_chain_S, IH, HA by lia. apply Hlaw. lia. }
  apply H. lia.
Qed.

Lemma dot_zero_right (A B : list f64) (N P i j : Z) (c : f64) :
  (forall k, 0 <= k < N -> elt B (k * P + j) = fzero) ->
  (forall k, 0 <= k < N -> fmadd (elt A (i * N + k)) fzero c = c) ->
  dot A B N P i j c = c.
Proof.
  intros HB Hlaw. unfold dot.
  assert (H : forall n, (n <= Z.to_nat N)%nat ->
              fma_chain (fun k => elt A (i * N + Z.of_nat k))
                        (fun k => elt B (Z.of_nat k * P + j)) n c = c).
  { induction n as [|n IH]; intros Hn; [reflexivity |].
    rewrite fma_chain_S, IH, HB by lia. apply Hlaw. lia. }
  apply H. lia.
Qed.

(** In exact arithmetic the reduction adds the dot product to its start. *)
Lemma dot_exact (VLMAX : Z) (A B : list Z) (N P i j c : Z) :
  dot (VU := exact_unit VLMAX) A B N P i j c
  = c + dot (VU := exact_unit VLMAX) A B N P i j 0.
Proof.
  unfold dot. induction (Z.to_nat N) as [|n IH]; [cbn; lia |].
  rewrite !fma_chain_S, IH. cbn. lia.
Qed.

(** [matmul] on even [N], from the caller's side: the call returns, and the
    state it returns satisfies [bpost] for the whole of C. *)
Lemma matmul_even_done (VLMAX : Z) (fuel : nat) (c a b : ptr) (M N P : Z)
    (s0 : state) :
  rvv_grant VLMAX ->
  offset a = 0 -> offset b = 0 -> offset c = 0 ->
  base a <> base c -> base b <> base c ->
  (exists q, 1 <= q /\ M = 4 * q) -> Z.Even N -> 2 <= N -> 1 <= P ->
  M * N <= Z.of_nat (length (mem s0 (base a))) ->
  N * P <= Z.of_nat (length (mem s0 (base b))) ->
  M * P <= Z.of_nat (length (mem s0 (base c))) ->
  (Z.to_nat (Z.max M (Z.max N P)) < fuel)%nat ->
  exists s',
    matmul fuel c a b M N P s0 = Done tt s' /\
    bpost s0 (base a) (base b) (base c) N P (rect 0 M 0 P)
          (access_ok (base a) (base b) (base c) M N P (grant P)) s'.
Proof.
  intros Hrvv Ha Hb Hc Hac Hbc [q [Hq HM]] HNe HN HP HlenA HlenB HlenC Hfuel.
  assert (Hwp : wp (matmul fuel c a b M N P) s0
                   (fun _ s' =>
                      bpost s0 (base a) (base b) (base c) N P (rect 0 M 0 P)
                            (access_ok (base a) (base b) (base c) M N P
                                       (grant P)) s')).
  { apply (matmul_even c a b M N P Ha Hb Hc Hac Hbc HNe HN
             (ex_intro _ q HM) HP VLMAX); try assumption; lia. }
  apply wp_done in Hwp. destruct Hwp as ([] & s' & Hrun & Hpost).
  exists s'. split; assumption.
Qed.

Lemma bpost_lookup (s0 s' : state) (ra rb rc : region) (M N P : Z)
    (ok : event -> Prop) (i j : Z) :
  bpost s0 ra rb rc N P (rect 0 M 0 P) ok s' ->
  M * P <= Z.of_nat (length (mem s0 rc)) ->
  0 <= i < M -> 0 <= j < P ->
  mem s' rc !! Z.to_nat (i * P + j)
  = Some (dot (mem s0 ra) (mem s0 rb) N P i j (elt (mem s0 rc) (i * P + j))).
Proof.
  intros [F L B R T] Hlen Hi Hj.
  rewrite lookup_elt by (rewrite L; nia).
  f_equal. apply B; [lia | lia | unfold rect; lia].
Qed.

End Contract.

(** ** Runs that return, and runs that fault *)

Section Runs.
Context {VU : VectorUnit}.

Lemma bind_done {A B} (c : prog A) (k : A -> prog B) s a s' :
  c s = Done a s' -> bind c k s = k a s'.
Proof. unfold bind. intros ->. reflexivity. Qed.

Lemma bind_fault {A B} (c : prog A) (k : A -> prog B) s :
  c s = Fault -> bind c k s = Fault.
Proof. unfold bind. intros ->. reflexivity. Qed.

Lemma bind_inv {A B} (c : prog A) (k : A -> prog B) s b s' :
  bind c k s = Done b s' ->
  exists a s1, c s = Done a s1 /\ k a s1 = Done b s'.
Proof.
  unfold bind. destruct (c s) as [a s1| |]; try discriminate.
  intros H. exists a, s1. split; [reflexivity | exact H].
Qed.

Lemma not_done_fault {A} (o : outcome A) :
  (forall a s, o <> Done a s) -> o <> OutOfFuel -> o = Fault.
Proof.
  destruct o as [a s| |]; intros Hd Hf.
  - exfalso. exact (Hd a s eq_refl).
  - reflexivity.
  - exfalso. exact (Hf eq_refl).
Qed.

Lemma wp_of_done {A B} (c : prog A) (k : A -> prog B) s a s'
    (Q : B -> state -> Prop) :
  c s = Done a s' -> wp (k a) s' Q -> wp (bind c k) s Q.
Proof. intros Hc Hk. unfold wp. rewrite (bind_done _ _ _ _ _ Hc). exact Hk. Qed.

(** *** What an instruction does when it returns, and when it faults *)

Lemma vle64_run vd p s e :
  offset p = 8 * e -> 0 <= e -> 0 <= vl s ->
  e + vl s <= Z.of_nat (length (mem s (base p))) ->
  vle64 vd p s
  = Done tt (mkState (vl s)
               (set_vreg (vrf s) vd
                  (row (mem s (base p)) e (vl s)
                       ++ drop (Z.to_nat (vl s)) (vrf s vd)))
               (mem s) (EvLoad p (vl s) :: trace s)).
Proof.
  intros Hoff He Hv Hlen. unfold vle64.
  destruct (Z.leb_spec (vl s) 0) as [Hz | Hz].
  - unfold row. replace (Z.to_nat (vl s)) with 0%nat by lia. reflexivity.
  - rewrite (elem_index_8 _ e Hoff He), read_range_row by assumption.
    reflexivity.
Qed.

Lemma vle64_fault vd p s e :
  offset p = 8 * e -> 0 <= e -> 1 <= vl s ->
  Z.of_nat (length (mem s (base p))) < e + vl s ->
  vle64 vd p s = Fault.
Proof.
  intros Hoff He Hv Hlen. unfold vle64.
  destruct (Z.leb_spec (vl s) 0) as [Hz | _]; [lia |].
  rewrite (elem_index_8 _ e Hoff He). unfold read_range.
  destruct (Nat.leb_spec (Z.to_nat e + Z.to_nat (vl s))
                         (length (mem s (base p)))); [lia | reflexivity].
Qed.

Lemma vle64_inv vd p s u s' e :
  vle64 vd p s = Done u s' -> offset p = 8 * e -> 0 <= e -> 1 <= vl s ->
  e + vl s <= Z.of_nat (length (mem s (base p))) /\
  mem s' = mem s /\ vl s' = vl s.
Proof.
  intros Hrun Hoff He Hv.
  destruct (Z.le_gt_cases (e + vl s) (Z.of_nat (length (mem s (base p)))))
    as [Hle | Hgt].
  - rewrite (vle64_run vd p s e Hoff He ltac:(lia) Hle) in Hrun.
    injection Hrun as _ <-. cbn [mem vl]. auto.
  - rewrite (vle64_fault vd p s e Hoff He Hv) in Hrun by lia. discriminate.
Qed.

Lemma fld_run p s e :
  offset p = 8 * e -> 0 <= e < Z.of_nat (length (mem s (base p))) ->
  fld p s
  = Done (elt (mem s (base p)) e)
         (mkState (vl s) (vrf s) (mem s) (EvLoad p 1 :: trace s)).
Proof.
  intros Hoff He. unfold fld.
  rewrite (elem_index_8 _ e Hoff) by lia.
  rewrite lookup_elt by assumption. reflexivity.
Qed.

(** *** Relations every returning run keeps *)

Lemma preserves_ret {A} (R : state -> state -> Prop) (a : A) :
  (forall s, R s s) -> preserves R (ret a).
Proof. intros Hrefl s a' s' [= _ <-]. apply Hrefl. Qed.

Lemma preserves_bind {A B} (R : state -> state -> Prop) (c : prog A)
    (k : A -> prog B) :
  (forall s1 s2 s3, R s1 s2 -> R s2 s3 -> R s1 s3) ->
  preserves R c -> (forall a, preserves R (k a)) -> preserves R (bind c k).
Proof.
  intros Htrans Hc Hk s b s' Hrun.
  destruct (bind_inv _ _ _ _ _ Hrun) as (a & s1 & Hc1 & Hk1).
  eapply Htrans; [eapply Hc, Hc1 | eapply Hk, Hk1].
Qed.

Lemma preserves_out_of_fuel {A} (R : state -> state -> Prop) :
  preserves R (@out_of_fuel _ A).
Proof. intros s a s'. discriminate. Qed.

(** The reduction loop keeps every preorder that its three instructions
    keep. *)
Lemma preserves_reduction_loop (R : state -> state -> Prop) :
  (forall s, R s s) ->
  (forall s1 s2 s3, R s1 s2 -> R s2 s3 -> R s1 s3) ->
  (forall vd p, preserves R (vle64 vd p)) ->
  (forall p, preserves R (fld p)) ->
  (forall vd f vs2, preserves R (vfmacc_vf vd f vs2)) ->
  forall fuel N lda ldb a_ b n t0 t1 t2 t3,
    preserves R (reduction_loop fuel N lda ldb a_ b n t0 t1 t2 t3).
Proof.
  intros Hrefl Htrans Hvle Hfld Hfma.
  assert (Hbind : forall A B (c : prog A) (k : A -> prog B),
             preserves R c -> (forall a, preserves R (k a)) ->
             preserves R (bind c k))
    by (intros; apply preserves_bind; assumption).
  induction fuel as [|fuel IH]; intros; cbn [reduction_loop].
  - apply preserves_out_of_fuel.
  - destruct (n <? N); [| apply preserves_ret, Hrefl]. cbv zeta.
    repeat (apply Hbind; [first [apply Hvle | apply Hfld | apply Hfma] |];
            intros ?).
    destruct (n + 1 =? N - 1); [apply preserves_ret, Hrefl |].
    repeat (apply Hbind; [first [apply Hvle | apply Hfld | apply Hfma] |];
            intros ?).
    apply IH.
Qed.

Lemma same_vl_refl (s : state) : same_vl s s.
Proof. reflexivity. Qed.

Lemma same_vl_trans (s1 s2 s3 : state) :
  same_vl s1 s2 -> same_vl s2 s3 -> same_vl s1 s3.
Proof. unfold same_vl. intros H1 H2. rewrite H2. exact H1. Qed.

Lemma same_vl_vle64 vd p : preserves same_vl (vle64 vd p).
Proof.
  intros s a s'. unfold vle64.
  destruct (if vl s <=? 0 then _ else _); [| discriminate].
  intros [= _ <-]. reflexivity.
Qed.

Lemma same_vl_fld p : preserves same_vl (fld p).
Proof.
  intros s a s'. unfold fld.
  destruct (elem_index (offset p)); [| discriminate].
  destruct (_ !! _); [| discriminate].
  intros [= _ <-]. reflexivity.
Qed.

Lemma same_vl_vfmacc_vf vd f vs2 : preserves same_vl (vfmacc_vf vd f vs2).
Proof. intros s a s' [= _ <-]. reflexivity. Qed.

Lemma same_vl_vse64 vs p : preserves same_vl (vse64 vs p).
Proof.
  intros s a s'. unfold vse64.
  destruct (if vl s <=? 0 then _ else _); [| discriminate].
  intros [= _ <-]. reflexivity.
Qed.

Lemma same_vl_slice_init c P :
  preserves same_vl (matmul_vec_4x4_slice_init c P).
Proof.
  unfold matmul_vec_4x4_slice_init. cbv zeta.
  repeat (apply preserves_bind;
          [exact same_vl_trans | apply same_vl_vle64 | intros ?]).
  apply same_vl_vle64.
Qed.

Lemma same_vl_matmul_vec_4x4 fuel c a b N P :
  preserves same_vl (matmul_vec_4x4 fuel c a b N P).
Proof.
  unfold matmul_vec_4x4. cbv zeta.
  repeat (apply preserves_bind;
          [exact same_vl_trans
          | first [apply same_vl_vle64 | apply same_vl_fld] | intros ?]).
  apply preserves_bind; [exact same_vl_trans | |].
  - apply preserves_reduction_loop.
    + exact same_vl_refl.
    + exact same_vl_trans.
    + exact same_vl_vle64.
    + exact same_vl_fld.
    + exact same_vl_vfmacc_vf.
  - intros [[[t0 t1] t2] t3].
    repeat (apply preserves_bind;
            [exact same_vl_trans
            | first [apply same_vl_vfmacc_vf | apply same_vl_vse64]
            | intros ?]).
    apply same_vl_vse64.
Qed.

Lemma same_vl_row_loop fuel kfuel c_ a b_ M N P bs :
  forall m, preserves same_vl (row_loop fuel kfuel c_ a b_ M N P bs m).
Proof.
  induction fuel as [|fuel IH]; intros m; cbn [row_loop].
  - apply preserves_out_of_fuel.
  - destruct (m <? M); [| apply preserves_ret, same_vl_refl]. cbv zeta.
    apply preserves_bind;
      [exact same_vl_trans | apply same_vl_slice_init | intros _].
    apply preserves_bind;
      [exact same_vl_trans | apply same_vl_matmul_vec_4x4 | intros _].
    apply IH.
Qed.

Lemma loads_only_refl (s : state) : loads_only s s.
Proof.
  repeat split. exists []. split; [reflexivity | constructor].
Qed.

Lemma loads_only_trans (s1 s2 s3 : state) :
  loads_only s1 s2 -> loads_only s2 s3 -> loads_only s1 s3.
Proof.
  intros (M1 & V1 & tr1 & T1 & L1) (M2 & V2 & tr2 & T2 & L2).
  split; [rewrite M2; exact M1 |]. split; [rewrite V2; exact V1 |].
  exists (tr2 ++ tr1). split; [rewrite T2, T1, app_assoc; reflexivity |].
  apply Forall_app. split; assumption.
Qed.

Lemma loads_only_vle64 vd p : preserves loads_only (vle64 vd p).
Proof.
  intros s a s'. unfold vle64.
  destruct (if vl s <=? 0 then _ else _); [| discriminate].
  intros [= _ <-]. repeat split. exists [EvLoad p (vl s)].
  split; [reflexivity |]. repeat constructor.
Qed.

Lemma loads_only_fld p : preserves loads_only (fld p).
Proof.
  intros s a s'. unfold fld.
  destruct (elem_index (offset p)); [| discriminate].
  destruct (_ !! _); [| discriminate].
  intros [= _ <-]. repeat split. exists [EvLoad p 1].
  split; [reflexivity |]. repeat constructor.
Qed.

Lemma loads_only_vfmacc_vf vd f vs2 :
  preserves loads_only (vfmacc_vf vd f vs2).
Proof.
  intros s a s' [= _ <-]. repeat split. exists [].
  split; [reflexivity | constructor].
Qed.

Lemma loads_only_slice_init c P :
  preserves loads_only (matmul_vec_4x4_slice_init c P).
Proof.
  unfold matmul_vec_4x4_slice_init. cbv zeta.
  repeat (apply preserves_bind;
          [exact loads_only_trans | apply loads_only_vle64 | intros ?]).
  apply loads_only_vle64.
Qed.

Lemma vse64_inv vs p s u s' :
  vse64 vs p s = Done u s' ->
  trace s' = EvStore p (vl s) :: trace s /\ vl s' = vl s.
Proof.
  unfold vse64.
  destruct (if vl s <=? 0 then _ else _); [| discriminate].
  intros [= _ <-]. split; reflexivity.
Qed.

Lemma vle64_empty vd p s :
  length (mem s (base p)) = 0%nat -> 1 <= vl s -> vle64 vd p s = Fault.
Proof.
  intros Hlen Hv. unfold vle64.
  destruct (Z.leb_spec (vl s) 0) as [Hz | _]; [lia |].
  destruct (elem_index (offset p)) as [k|]; [| reflexivity].
  unfold read_range. rewrite Hlen.
  destruct (Nat.leb_spec (k + Z.to_nat (vl s)) 0); [lia | reflexivity].
Qed.

(** [matmul_vec_4x4_slice_init] faults when the last of the four rows does
    not lie inside the object. *)
Lemma slice_init_fault (c : ptr) (ec P : Z) (s : state) :
  offset c = 8 * ec -> 0 <= ec -> 0 <= P -> 1 <= vl s ->
  Z.of_nat (length (mem s (base c))) < ec + 3 * P + vl s ->
  matmul_vec_4x4_slice_init c P s = Fault.
Proof.
  intros Hc Hec HP Hv Hlen.
  unfold matmul_vec_4x4_slice_init. cbv zeta. rewrite shiftl_3.
  destruct (Z.le_gt_cases (ec + 0 * P + vl s)
                          (Z.of_nat (length (mem s (base c))))) as [H0 | H0];
    [| apply bind_fault, (vle64_fault _ _ _ (ec + 0 * P)); simpl_state; lia].
  rewrite (bind_done _ _ _ _ _ (vle64_run V0 c s (ec + 0 * P)
                                  ltac:(lia) ltac:(lia) ltac:(lia) H0)).
  destruct (Z.le_gt_cases (ec + 1 * P + vl s)
                          (Z.of_nat (length (mem s (base c))))) as [H1 | H1];
    [| apply bind_fault, (vle64_fault _ _ _ (ec + 1 * P)); simpl_state; lia].
  erewrite bind_done
    by (apply (vle64_run _ _ _ (ec + 1 * P)); simpl_state; lia).
  destruct (Z.le_gt_cases (ec + 2 * P + vl s)
                          (Z.of_nat (length (mem s (base c))))) as [H2 | H2];
    [| apply bind_fault, (vle64_fault _ _ _ (ec + 2 * P)); simpl_state; lia].
  erewrite bind_done
    by (apply (vle64_run _ _ _ (ec + 2 * P)); simpl_state; lia).
  apply (vle64_fault _ _ _ (ec + 3 * P)); simpl_state; lia.
Qed.

End Runs.

(** ** Column chunks, for any [N] *)

Section Chunking.
Context {VU : VectorUnit}.
Variables (ra : region) (P p : Z).

Lemma on_column_padd (q : ptr) :
  on_column P p q -> on_column P p (padd q (Z.shiftl P 3)).
Proof.
  intros [r Hr]. exists (r + 1). cbn [offset padd]. rewrite shiftl_3. lia.
Qed.

Lemma on_column_pidx (q : ptr) (m : Z) :
  on_column P p q -> on_column P p (pidx q (m * P)).
Proof. intros [r Hr]. exists (r + m). cbn [offset pidx]. lia. Qed.

Lemma chunk_run_refl (s : state) : chunk_run ra P p s s.
Proof. split; [reflexivity |]. exists []. split; [reflexivity | constructor]. Qed.

Lemma chunk_run_trans (s1 s2 s3 : state) :
  chunk_run ra P p s1 s2 -> chunk_run ra P p s2 s3 -> chunk_run ra P p s1 s3.
Proof.
  intros (V1 & tr1 & T1 & L1) (V2 & tr2 & T2 & L2).
  split; [rewrite V2; exact V1 |].
  exists (tr2 ++ tr1). split; [rewrite T2, T1, app_assoc; reflexivity |].
  apply Forall_app. split; [rewrite <- V1; exact L2 | exact L1].
Qed.

Lemma chunk_vle64 vd q :
  on_column P p q -> preserves (chunk_run ra P p) (vle64 vd q).
Proof.
  intros Hq s a s'. unfold vle64.
  destruct (if vl s <=? 0 then _ else _); [| discriminate].
  intros [= _ <-]. split; [reflexivity |]. exists [EvLoad q (vl s)].
  split; [reflexivity |]. constructor; [| constructor].
  right. split; [reflexivity | exact Hq].
Qed.

Lemma chunk_vse64 vs q :
  on_column P p q -> preserves (chunk_run ra P p) (vse64 vs q).
Proof.
  intros Hq s a s'. unfold vse64.
  destruct (if vl s <=? 0 then _ else _); [| discriminate].
  intros [= _ <-]. split; [reflexivity |]. exists [EvStore q (vl s)].
  split; [reflexivity |]. constructor; [| constructor].
  right. split; [reflexivity | exact Hq].
Qed.

Lemma chunk_fld q : base q = ra -> preserves (chunk_run ra P p) (fld q).
Proof.
  intros Hq s a s'. unfold fld.
  destruct (elem_index (offset q)); [| discriminate].
  destruct (_ !! _); [| discriminate].
  intros [= _ <-]. split; [reflexivity |]. exists [EvLoad q 1].
  split; [reflexivity |]. constructor; [| constructor]. left. exact Hq.
Qed.

Lemma chunk_vfmacc_vf vd f vs2 :
  preserves (chunk_run ra P p) (vfmacc_vf vd f vs2).
Proof.
  intros s a s' [= _ <-]. split; [reflexivity |].
  exists []. split; [reflexivity | constructor].
Qed.

Ltac chunk_step :=
  lazymatch goal with
  | |- preserves _ (bind _ _) =>
      apply preserves_bind; [exact chunk_run_trans | | intros ?]
  | |- preserves _ (vle64 _ _) =>
      apply chunk_vle64; repeat apply on_column_padd; assumption
  | |- preserves _ (vse64 _ _) =>
      apply chunk_vse64; repeat apply on_column_padd; assumption
  | |- preserves _ (fld _) => apply chunk_fld; assumption
  | |- preserves _ (vfmacc_vf _ _ _) => apply chunk_vfmacc_vf
  | |- preserves _ (ret _) => apply preserves_ret, chunk_run_refl
  | |- preserves _ out_of_fuel => apply preserves_out_of_fuel
  end.

Lemma chunk_slice_init (c : ptr) :
  on_column P p c ->
  preserves (chunk_run ra P p) (matmul_vec_4x4_slice_init c P).
Proof.
  intros Hc. unfold matmul_vec_4x4_slice_init. cbv zeta. repeat chunk_step.
Qed.

(** Whatever [N] is, the reduction loop loads scalars through [a_] and
    rows of [vl] elements through [b], which moves down its column by whole
    rows. *)
Lemma chunk_reduction_loop (N : Z) (a_ : ptr) (fuel : nat) :
  base a_ = ra ->
  forall b n t0 t1 t2 t3,
    on_column P p b ->
    preserves (chunk_run ra P p)
      (reduction_loop fuel N (Z.shiftl N 3) (Z.shiftl P 3) a_ b n
                      t0 t1 t2 t3).
Proof.
  intros Ha. induction fuel as [|fuel IH]; intros b n t0 t1 t2 t3 Hb;
    cbn [reduction_loop]; [chunk_step |].
  assert (Ha0 : forall k, base (pidx a_ k) = ra) by (intros k; exact Ha).
  assert (Ha1 : forall k, base (padd (pidx a_ k) (Z.shiftl N 3)) = ra)
    by (intros k; exact Ha).
  assert (Ha2 : forall k, base (padd (padd (pidx a_ k) (Z.shiftl N 3))
                                     (Z.shiftl N 3)) = ra)
    by (intros k; exact Ha).
  assert (Ha3 : forall k, base (padd (padd (padd (pidx a_ k) (Z.shiftl N 3))
                                           (Z.shiftl N 3)) (Z.shiftl N 3))
                          = ra)
    by (intros k; exact Ha).
  destruct (n <? N); [| chunk_step]. cbv zeta.
  repeat (apply preserves_bind;
          [ exact chunk_run_trans
          | solve [ apply chunk_vle64; assumption
                  | apply chunk_vfmacc_vf
                  | apply chunk_fld;
                    first [apply Ha0 | apply Ha1 | apply Ha2 | apply Ha3] ]
          | intros ? ]).
  destruct (n + 1 =? N - 1); [chunk_step |].
  repeat (apply preserves_bind;
          [ exact chunk_run_trans
          | solve [ apply chunk_vle64, on_column_padd; assumption
                  | apply chunk_vfmacc_vf
                  | apply chunk_fld;
                    first [apply Ha0 | apply Ha1 | apply Ha2 | apply Ha3] ]
          | intros ? ]).
  apply IH. apply on_column_padd, on_column_padd, Hb.
Qed.

Lemma chunk_matmul_vec_4x4 (fuel : nat) (c a b : ptr) (N : Z) :
  base a = ra -> on_column P p b -> on_column P p c ->
  preserves (chunk_run ra P p) (matmul_vec_4x4 fuel c a b N P).
Proof.
  intros Ha Hb Hc. unfold matmul_vec_4x4. cbv zeta.
  repeat (apply preserves_bind;
          [ exact chunk_run_trans
          | solve [ apply chunk_vle64; assumption
                  | apply chunk_fld; exact Ha ]
          | intros ? ]).
  apply preserves_bind; [exact chunk_run_trans | |].
  - apply chunk_reduction_loop; [exact Ha | apply on_column_padd, Hb].
  - intros [[[t0 t1] t2] t3]. repeat chunk_step.
Qed.

Lemma chunk_row_loop (fuel kfuel : nat) (c_ a b_ : ptr) (M N bs : Z) :
  base a = ra -> on_column P p b_ -> on_column P p c_ ->
  forall m,
    preserves (chunk_run ra P p) (row_loop fuel kfuel c_ a b_ M N P bs m).
Proof.
  intros Ha Hb Hc. induction fuel as [|fuel IH]; intros m; cbn [row_loop];
    [chunk_step |].
  destruct (m <? M); [| chunk_step]. cbv zeta.
  apply preserves_bind; [exact chunk_run_trans | | intros _].
  - apply chunk_slice_init, on_column_pidx, Hc.
  - apply preserves_bind; [exact chunk_run_trans | | intros _; apply IH].
    apply chunk_matmul_vec_4x4; [exact Ha | exact Hb |].
    apply on_column_pidx, Hc.
Qed.

End Chunking.

Section Columns.
Context {VU : VectorUnit}.

(** Whatever [M] and [N] are, every chunk of the column loop is worked on
    with vector length [MIN (P - p) block_size_p], from column [p]. *)
Lemma columns_col_loop (VLMAX : Z) (kfuel : nat) (c a b : ptr)
    (M N P bs bsp : Z) (fuel : nat) :
  rvv_grant VLMAX -> 1 <= bsp <= VLMAX ->
  offset b = 0 -> offset c = 0 ->
  forall t, 0 <= t ->
    preserves (columns_run (base a) P bsp)
      (col_loop fuel kfuel c a b M N P bs bsp (t * bsp)).
Proof.
  intros Hrvv Hbsp Hb Hc.
  induction fuel as [|fuel IH]; intros t Ht; cbn [col_loop];
    [apply preserves_out_of_fuel |].
  destruct (Z.ltb_spec (t * bsp) P) as [Hlt | Hge].
  - cbv zeta. intros s u s' Hrun.
    apply bind_inv in Hrun as (v & s1 & H1 & Hrun). injection H1 as _ <-.
    apply bind_inv in Hrun as ([] & s2 & H2 & Hrun).
    apply (chunk_row_loop (base a) P (t * bsp)) in H2;
      [| reflexivity
       | exists 0; cbn [offset pidx]; lia
       | exists 0; cbn [offset pidx]; lia].
    replace (t * bsp + bsp) with ((t + 1) * bsp) in Hrun by lia.
    apply IH in Hrun; [| lia].
    destruct H2 as (_ & tr2 & T2 & L2). cbn [vl trace] in T2, L2.
    destruct Hrun as (tr3 & T3 & L3).
    exists (tr3 ++ tr2). split; [rewrite T3, T2, app_assoc; reflexivity |].
    apply Forall_app. split; [exact L3 |].
    assert (Hmin : 1 <= MIN (P - t * bsp) bsp <= P - t * bsp /\
                   MIN (P - t * bsp) bsp <= bsp)
      by (rewrite MIN_min; lia).
    rewrite (grant_small VLMAX Hrvv) in L2 by lia.
    eapply Forall_impl; [exact L2 |].
    intros [q len | q len] [Hq | [Hl [r Hr]]]; cbn;
      first [left; exact Hq | right; exists t, r; repeat split; lia].
  - intros s u s' [= _ <-]. exists []. split; [reflexivity | constructor].
Qed.

Lemma columns_matmul (VLMAX : Z) (fuel : nat) (c a b : ptr) (M N P : Z) :
  rvv_grant VLMAX -> 1 <= P -> offset b = 0 -> offset c = 0 ->
  preserves (columns_run (base a) P (grant P)) (matmul fuel c a b M N P).
Proof.
  intros Hrvv HP Hb Hc s u s' Hrun.
  unfold matmul in Hrun. cbv zeta in Hrun.
  apply bind_inv in Hrun as (v & s1 & H1 & Hrun). injection H1 as <- <-.
  pose proof (grant_first P HP VLMAX Hrvv) as Hg.
  change 0 with (0 * grant P) in Hrun at 1.
  apply (columns_col_loop VLMAX) in Hrun; try assumption; lia.
Qed.

End Columns.

(** ** The properties of the specification *)

Section Claims.
Context {VU : VectorUnit}.

(** C1, for even [N]: when [M] is a positive multiple of 4, [N] is even,
    [P >= 1] and the buffers hold at least [M*N], [N*P] and [M*P] doubles,
    [matmul] returns and has replaced every [C[i][j]] by its prior value
    accumulated with [A[i][k] * B[k][j]] for [k = 0 .. N-1] by fused
    multiply-adds. *)
Theorem matmul_accumulates_product (VLMAX : Z) (fuel : nat) (c a b : ptr)
    (M N P : Z) (s0 : state) :
  rvv_grant VLMAX ->
  offset a = 0 -> offset b = 0 -> offset c = 0 ->
  base a <> base c -> base b <> base c ->
  (exists q, 1 <= q /\ M = 4 * q) -> Z.Even N -> 2 <= N -> 1 <= P ->
  M * N <= Z.of_nat (length (mem s0 (base a))) ->
  N * P <= Z.of_nat (length (mem s0 (base b))) ->
  M * P <= Z.of_nat (length (mem s0 (base c))) ->
  (Z.to_nat (Z.max M (Z.max N P)) < fuel)%nat ->
  exists s',
    matmul fuel c a b M N P s0 = Done tt s' /\
    forall i j, 0 <= i < M -> 0 <= j < P ->
      mem s' (base c) !! Z.to_nat (i * P + j)
      = Some (dot (mem s0 (base a)) (mem s0 (base b)) N P i j
                  (elt (mem s0 (base c)) (i * P + j))).
Proof.
  intros Hrvv Ha Hb Hc Hac Hbc HM HNe HN HP HlenA HlenB HlenC Hfuel.
  destruct (matmul_even_done VLMAX fuel c a b M N P s0) as (s' & Hrun & Hpost);
    try assumption.
  exists s'. split; [exact Hrun |].
  intros i j Hi Hj. eapply bpost_lookup; eassumption.
Qed.

(** C2, for even [N]: [matmul_vec_4x4] returns, and every load it has
    issued is a load of [A[i][k]] or of row [k] of the chunk of B with
    [k < N]: nothing is loaded beyond the reduction range. *)
Theorem kernel_loads_below_N (fuel : nat) (c a b : ptr) (ec ea eb N P : Z)
    (s0 : state) :
  offset a = 8 * ea -> offset b = 8 * eb -> offset c = 8 * ec ->
  0 <= ea -> 0 <= eb -> 0 <= ec ->
  Z.Even N -> 2 <= N -> 0 <= vl s0 <= P ->
  ea + 4 * N <= Z.of_nat (length (mem s0 (base a))) ->
  eb + (N - 1) * P + vl s0 <= Z.of_nat (length (mem s0 (base b))) ->
  ec + 3 * P + vl s0 <= Z.of_nat (length (mem s0 (base c))) ->
  (forall i, 0 <= i < 4 -> length (body s0 (accreg i)) = Z.to_nat (vl s0)) ->
  (Z.to_nat N <= fuel)%nat ->
  exists s' tr,
    matmul_vec_4x4 fuel c a b N P s0 = Done tt s' /\
    trace s' = tr ++ trace s0 /\
    forall q len, In (EvLoad q len) tr ->
      (base q = base a /\ len = 1 /\
       exists i k, 0 <= i < 4 /\ 0 <= k < N /\
                   offset q = 8 * (ea + i * N + k)) \/
      (base q = base b /\ len = vl s0 /\
       exists k, 0 <= k < N /\ offset q = 8 * (eb + k * P)).
Proof.
  intros Ha Hb Hc Hea Heb Hec HNe HN Hv HlenA HlenB HlenC Hacc Hfuel.
  pose proof (matmul_vec_4x4_even fuel c a b ec ea eb N P s0
                Ha Hb Hc Hea Heb Hec HNe HN Hv HlenA HlenB HlenC Hacc Hfuel)
    as Hwp.
  apply wp_done in Hwp. destruct Hwp as ([] & s' & Hrun & Hpost).
  destruct Hpost as [_ _ _ _ _ [tr [Htr Hok]]].
  exists s', tr. repeat split; try assumption.
  intros q len Hin.
  rewrite Forall_forall in Hok.
  destruct (Hok (EvLoad q len)) as [Hload | Hstore].
  - apply list_elem_of_In. exact Hin.
  - exact Hload.
  - contradiction.
Qed.

(** C3, for even [N]: the value [matmul_vec_4x4] stores for row [i] and
    column [j] of the chunk is the left-to-right fold
    [acc := fmadd (A[i][k]) (B[k][j]) acc], [k = 0, 1, ..., N-1], started
    from the value [x] that accumulator [i] holds in lane [j] on entry. *)
Theorem kernel_refines_ascending_fold (fuel : nat) (c a b : ptr)
    (ec ea eb N P : Z) (s0 : state) :
  offset a = 8 * ea -> offset b = 8 * eb -> offset c = 8 * ec ->
  0 <= ea -> 0 <= eb -> 0 <= ec ->
  Z.Even N -> 2 <= N -> 0 <= vl s0 <= P ->
  ea + 4 * N <= Z.of_nat (length (mem s0 (base a))) ->
  eb + (N - 1) * P + vl s0 <= Z.of_nat (length (mem s0 (base b))) ->
  ec + 3 * P + vl s0 <= Z.of_nat (length (mem s0 (base c))) ->
  (forall i, 0 <= i < 4 -> length (body s0 (accreg i)) = Z.to_nat (vl s0)) ->
  (Z.to_nat N <= fuel)%nat ->
  exists s',
    matmul_vec_4x4 fuel c a b N P s0 = Done tt s' /\
    forall i j x, 0 <= i < 4 -> 0 <= j < vl s0 ->
      body s0 (accreg i) !! Z.to_nat j = Some x ->
      mem s' (base c) !! Z.to_nat (ec + i * P + j)
      = Some (fold_left
                (fun acc k =>
                   fmadd (elt (mem s0 (base a)) (ea + i * N + Z.of_nat k))
                         (elt (mem s0 (base b)) (eb + Z.of_nat k * P + j))
                         acc)
                (seq 0 (Z.to_nat N)) x).
Proof.
  intros Ha Hb Hc Hea Heb Hec HNe HN Hv HlenA HlenB HlenC Hacc Hfuel.
  pose proof (matmul_vec_4x4_even fuel c a b ec ea eb N P s0
                Ha Hb Hc Hea Heb Hec HNe HN Hv HlenA HlenB HlenC Hacc Hfuel)
    as Hwp.
  apply wp_done in Hwp. destruct Hwp as ([] & s' & Hrun & Hpost).
  exists s'. split; [exact Hrun |].
  intros i j x Hi Hj Hx.
  rewrite (kpost_block _ _ _ _ _ _ _ _ _ _ Hpost) by assumption.
  unfold acc_after.
  apply (lookup_vchain (Aelt s0 (base a) ea N i) (Brow s0 (base b) eb P)
           (fun k => elt (mem s0 (base b)) (eb + Z.of_nat k * P + j))).
  - exact Hx.
  - intros k Hk. unfold Brow. rewrite lookup_row by nia.
    apply lookup_elt. nia.
Qed.

(** C4: whatever [M] and [N] are, every access that a returning call of
    [matmul] has issued is a load through [a] or belongs to a column chunk
    that starts at a multiple [p] of [VL0 = grant P] below [P] and is made
    with vector length exactly [MIN (P - p) VL0], so it touches the columns
    [p .. p + MIN (P - p) VL0 - 1] only, all below [P]; and for even [N]
    (and [M] a positive multiple of 4) [matmul] returns and every column of
    C, those of the last, partial chunk included, holds the product. *)
Theorem matmul_partial_chunk (VLMAX : Z) (fuel : nat) (c a b : ptr)
    (M N P : Z) (s0 : state) :
  rvv_grant VLMAX ->
  offset a = 0 -> offset b = 0 -> offset c = 0 ->
  base a <> base c -> base b <> base c -> 1 <= P ->
  (forall u s',
     matmul fuel c a b M N P s0 = Done u s' ->
     exists tr,
       trace s' = tr ++ trace s0 /\
       forall q len, In (EvLoad q len) tr \/ In (EvStore q len) tr ->
         base q = base a \/
         exists t r, 0 <= t /\ t * grant P < P /\
                     len = MIN (P - t * grant P) (grant P) /\
                     offset q = 8 * (r * P + t * grant P) /\
                     t * grant P + len <= P) /\
  ((exists q, 1 <= q /\ M = 4 * q) -> Z.Even N -> 2 <= N ->
   M * N <= Z.of_nat (length (mem s0 (base a))) ->
   N * P <= Z.of_nat (length (mem s0 (base b))) ->
   M * P <= Z.of_nat (length (mem s0 (base c))) ->
   (Z.to_nat (Z.max M (Z.max N P)) < fuel)%nat ->
   exists s',
     matmul fuel c a b M N P s0 = Done tt s' /\
     forall i j, 0 <= i < M -> 0 <= j < P ->
       mem s' (base c) !! Z.to_nat (i * P + j)
       = Some (dot (mem s0 (base a)) (mem s0 (base b)) N P i j
                   (elt (mem s0 (base c)) (i * P + j)))).
Proof.
  intros Hrvv Ha Hb Hc Hac Hbc HP. split.
  - intros u s' Hrun.
    apply (columns_matmul VLMAX fuel c a b M N P Hrvv HP Hb Hc) in Hrun.
    destruct Hrun as (tr & Htr & Hok).
    exists tr. split; [exact Htr |].
    intros q len Hin. rewrite Forall_forall in Hok.
    destruct Hin as [Hin | Hin]; apply list_elem_of_In, Hok in Hin;
      exact Hin.
  - intros HM HNe HN HlenA HlenB HlenC Hfuel.
    destruct (matmul_even_done VLMAX fuel c a b M N P s0)
      as (s' & Hrun & Hpost); try assumption.
    exists s'. split; [exact Hrun |].
    intros i j Hi Hj. eapply bpost_lookup; eassumption.
Qed.

(** C5: for even [N] and buffers of exactly [M*N], [N*P] and [M*P] doubles,
    [matmul] returns (no load or store faults), every access it has issued
    lies inside its buffer, and every load from A or B has a reduction index
    [k <= N - 1]. *)
Theorem matmul_even_N_in_bounds (VLMAX : Z) (fuel : nat) (c a b : ptr)
    (M N P : Z) (s0 : state) :
  rvv_grant VLMAX ->
  offset a = 0 -> offset b = 0 -> offset c = 0 ->
  base a <> base c -> base b <> base c ->
  (exists q, 1 <= q /\ M = 4 * q) -> Z.Even N -> 2 <= N -> 1 <= P ->
  Z.of_nat (length (mem s0 (base a))) = M * N ->
  Z.of_nat (length (mem s0 (base b))) = N * P ->
  Z.of_nat (length (mem s0 (base c))) = M * P ->
  (Z.to_nat (Z.max M (Z.max N P)) < fuel)%nat ->
  exists s' tr,
    matmul fuel c a b M N P s0 = Done tt s' /\
    trace s' = tr ++ trace s0 /\
    Forall (in_bounds (mem s0)) tr /\
    (forall q len, In (EvLoad q len) tr ->
       (base q = base a /\ len = 1 /\
        exists i k, 0 <= i < M /\ 0 <= k <= N - 1 /\
                    offset q = 8 * (i * N + k)) \/
       (base q = base b /\
        exists k p, 0 <= k <= N - 1 /\ 0 <= p /\ p + len <= P /\
                    offset q = 8 * (k * P + p)) \/
       base q = base c).
Proof.
  intros Hrvv Ha Hb Hc Hac Hbc HM HNe HN HP HlenA HlenB HlenC Hfuel.
  destruct (matmul_even_done VLMAX fuel c a b M N P s0) as (s' & Hrun & Hpost);
    try assumption; try lia.
  pose proof Hpost as [_ _ _ _ [tr [Htr Hok]]].
  destruct (grant_first P HP VLMAX Hrvv) as [HVL0 _].
  destruct HM as [q0 [Hq0 HM]].
  exists s', tr. split; [exact Hrun |]. split; [exact Htr |]. split.
  - eapply Forall_impl; [exact Hok |].
    intros ev Hev. eapply access_in_bounds; [| | | | | | | exact Hev]; lia.
  - rewrite Forall_forall in Hok.
    intros q len Hin. apply list_elem_of_In, Hok in Hin.
    destruct Hin as (t & Ht & HtP & Hev). cbn in Hev.
    destruct Hev as [(Hq & Hl & i & k & Hi & Hk & Ho)
                    | [(Hq & Hl & k & Hk & Ho) | (Hq & _)]].
    + left. repeat split; auto. exists i, k. repeat split; lia.
    + right. left. split; [exact Hq |]. exists k, (t * grant P).
      rewrite MIN_min in Hl. repeat split; try lia; nia.
    + right. right. exact Hq.
Qed.

(** C6, for even [N]: two calls of [matmul] in succession with the same A
    and B on the same C return, and leave in every [C[i][j]] the reduction
    applied twice to its first value: each call accumulates one product of
    row [i] of A and column [j] of B onto what it finds in C. *)
Theorem matmul_twice_accumulates_twice (VLMAX : Z) (fuel : nat) (c a b : ptr)
    (M N P : Z) (s0 : state) :
  rvv_grant VLMAX ->
  offset a = 0 -> offset b = 0 -> offset c = 0 ->
  base a <> base c -> base b <> base c ->
  (exists q, 1 <= q /\ M = 4 * q) -> Z.Even N -> 2 <= N -> 1 <= P ->
  M * N <= Z.of_nat (length (mem s0 (base a))) ->
  N * P <= Z.of_nat (length (mem s0 (base b))) ->
  M * P <= Z.of_nat (length (mem s0 (base c))) ->
  (Z.to_nat (Z.max M (Z.max N P)) < fuel)%nat ->
  exists s'',
    (matmul fuel c a b M N P ;; matmul fuel c a b M N P) s0 = Done tt s'' /\
    forall i j, 0 <= i < M -> 0 <= j < P ->
      mem s'' (base c) !! Z.to_nat (i * P + j)
      = Some (dot (mem s0 (base a)) (mem s0 (base b)) N P i j
                (dot (mem s0 (base a)) (mem s0 (base b)) N P i j
                     (elt (mem s0 (base c)) (i * P + j)))).
Proof.
  intros Hrvv Ha Hb Hc Hac Hbc HM HNe HN HP HlenA HlenB HlenC Hfuel.
  destruct (matmul_even_done VLMAX fuel c a b M N P s0) as (s1 & Hrun1 & Hpost1);
    try assumption.
  pose proof Hpost1 as [F1 L1 B1 _ _].
  destruct (matmul_even_done VLMAX fuel c a b M N P s1) as (s2 & Hrun2 & Hpost2);
    try assumption.
  { rewrite (F1 _ Hac). exact HlenA. }
  { rewrite (F1 _ Hbc). exact HlenB. }
  { rewrite L1. exact HlenC. }
  exists s2. split.
  - unfold bind. rewrite Hrun1. exact Hrun2.
  - intros i j Hi Hj.
    rewrite (bpost_lookup s1 s2 _ _ _ M N P _ i j Hpost2)
      by (try rewrite L1; assumption).
    rewrite (F1 _ Hac), (F1 _ Hbc).
    rewrite B1 by (unfold rect; lia). reflexivity.
Qed.

(** C7, for even [N] and operands on which a zero factor contributes
    nothing: when every element of A is zero and [fmadd fzero y z = z] for
    the elements [y] of B and [z] of C, or every element of B is zero and
    [fmadd x fzero z = z] for the elements [x] of A and [z] of C, [matmul]
    returns and every element of C is what it was before the call. *)
Theorem matmul_zero_operand_keeps_C (VLMAX : Z) (fuel : nat) (c a b : ptr)
    (M N P : Z) (s0 : state) :
  rvv_grant VLMAX ->
  offset a = 0 -> offset b = 0 -> offset c = 0 ->
  base a <> base c -> base b <> base c ->
  (exists q, 1 <= q /\ M = 4 * q) -> Z.Even N -> 2 <= N -> 1 <= P ->
  M * N <= Z.of_nat (length (mem s0 (base a))) ->
  N * P <= Z.of_nat (length (mem s0 (base b))) ->
  M * P <= Z.of_nat (length (mem s0 (base c))) ->
  (Z.to_nat (Z.max M (Z.max N P)) < fuel)%nat ->
  ((forall x, 0 <= x < M * N -> elt (mem s0 (base a)) x = fzero) /\
   (forall y z, 0 <= y < N * P -> 0 <= z < M * P ->
      fmadd fzero (elt (mem s0 (base b)) y) (elt (mem s0 (base c)) z)
      = elt (mem s0 (base c)) z)) \/
  ((forall y, 0 <= y < N * P -> elt (mem s0 (base b)) y = fzero) /\
   (forall x z, 0 <= x < M * N -> 0 <= z < M * P ->
      fmadd (elt (mem s0 (base a)) x) fzero (elt (mem s0 (base c)) z)
      = elt (mem s0 (base c)) z)) ->
  exists s',
    matmul fuel c a b M N P s0 = Done tt s' /\
    forall i j, 0 <= i < M -> 0 <= j < P ->
      mem s' (base c) !! Z.to_nat (i * P + j)
      = mem s0 (base c) !! Z.to_nat (i * P + j).
Proof.
  intros Hrvv Ha Hb Hc Hac Hbc HM HNe HN HP HlenA HlenB HlenC Hfuel Hz.
  destruct (matmul_even_done VLMAX fuel c a b M N P s0) as (s' & Hrun & Hpost);
    try assumption.
  exists s'. split; [exact Hrun |].
  intros i j Hi Hj.
  rewrite (bpost_lookup s0 s' _ _ _ M N P _ i j Hpost) by assumption.
  rewrite (lookup_elt (mem s0 (base c))) by nia.
  f_equal. destruct Hz as [[HzA Hlaw] | [HzB Hlaw]].
  - apply dot_zero_left.
    + intros k Hk. apply HzA. nia.
    + intros k Hk. apply Hlaw; nia.
  - apply dot_zero_right.
    + intros k Hk. apply HzB. nia.
    + intros k Hk. apply Hlaw; nia.
Qed.

(** C8: [matmul_vec_4x4_slice_init c P] returns, and then the accumulators
    [v0], [v4], [v8], [v12] hold the [vl] doubles found at [c], [c + P],
    [c + 2P], [c + 3P]: the four rows of the C block.  Memory is as before. *)
Theorem slice_init_loads_rows (c : ptr) (ec P : Z) (s0 : state) :
  offset c = 8 * ec -> 0 <= ec -> 0 <= P -> 0 <= vl s0 ->
  ec + 3 * P + vl s0 <= Z.of_nat (length (mem s0 (base c))) ->
  exists s',
    matmul_vec_4x4_slice_init c P s0 = Done tt s' /\
    body s' V0 = row (mem s0 (base c)) ec (vl s0) /\
    body s' V4 = row (mem s0 (base c)) (ec + P) (vl s0) /\
    body s' V8 = row (mem s0 (base c)) (ec + 2 * P) (vl s0) /\
    body s' V12 = row (mem s0 (base c)) (ec + 3 * P) (vl s0) /\
    mem s' = mem s0 /\ vl s' = vl s0.
Proof.
  intros Hc Hec HP Hv Hlen.
  pose proof (slice_init_spec c ec P s0 Hc Hec HP Hv Hlen) as Hwp.
  apply wp_done in Hwp. destruct Hwp as ([] & s' & Hrun & [Hvl Hmem Hacc _]).
  exists s'. split; [exact Hrun |].
  pose proof (Hacc 0 ltac:(lia)) as H0. pose proof (Hacc 1 ltac:(lia)) as H1.
  pose proof (Hacc 2 ltac:(lia)) as H2. pose proof (Hacc 3 ltac:(lia)) as H3.
  change (accreg 0) with V0 in H0. change (accreg 1) with V4 in H1.
  change (accreg 2) with V8 in H2. change (accreg 3) with V12 in H3.
  rewrite H0, H1, H2, H3.
  repeat split; try assumption; f_equal; lia.
Qed.

(** C9: whenever a call of [matmul] returns, the buffers behind [a] and [b]
    hold what they held before the call, and every memory object has the
    size it had before: only the contents of C can have changed. *)
Theorem matmul_mutates_only_C (fuel : nat) (c a b : ptr) (M N P : Z)
    (s s' : state) (u : unit) :
  matmul fuel c a b M N P s = Done u s' ->
  base a <> base c -> base b <> base c ->
  mem s' (base a) = mem s (base a) /\
  mem s' (base b) = mem s (base b) /\
  forall r, length (mem s' r) = length (mem s r).
Proof.
  intros Hrun Hac Hbc.
  destruct (frames_matmul fuel c a b M N P s u s' Hrun) as [F L].
  repeat split; auto.
Qed.

(** C10: when the unit grants at least one element to every request of at
    least one, [matmul] terminates for all [M, N, P >= 1]: with fuel above
    [max M N P] no loop runs out of it, whatever the buffers hold. *)
Theorem matmul_terminates (fuel : nat) (c a b : ptr) (M N P : Z) (s : state) :
  (forall avl, 1 <= avl -> 1 <= grant avl) ->
  1 <= M -> 1 <= N -> 1 <= P ->
  (Z.to_nat (Z.max M (Z.max N P)) < fuel)%nat ->
  matmul fuel c a b M N P s <> OutOfFuel.
Proof.
  intros Hgrant HM HN HP Hfuel.
  unfold matmul, bind, vsetvli. cbv zeta.
  apply fueled_col_loop; [apply Hgrant, HP | lia..].
Qed.

End Claims.

(** ** The inner kernel, for odd [N] *)

Section OddReduction.
Context {VU : VectorUnit}.
Variables (s0 : state) (a_ : ptr) (ea : Z) (rb : region) (eb N P : Z).
Hypothesis Ha : offset a_ = 8 * ea.
Hypothesis Hea : 0 <= ea.
Hypothesis Heb : 0 <= eb.
Hypothesis HN : 1 <= N.
Hypothesis HP : 0 <= P.
Hypothesis Hvl : 0 <= vl s0.
Hypothesis HlenA : ea + 4 * N + 2 <= Z.of_nat (length (mem s0 (base a_))).
Hypothesis HlenB :
  eb + (N + 1) * P + vl s0 <= Z.of_nat (length (mem s0 rb)).

Local Notation "'pipe'" := (pinv s0 (base a_) ea rb eb N P).
Local Notation "'lda'" := (Z.shiftl N 3).
Local Notation "'ldb'" := (Z.shiftl P 3).

(** One half of the loop body, for any step up to [N]. *)
Lemma pipe_half (vb vn : vreg) (n : nat) (s : state) (t0 t1 t2 t3 : f64)
    (b : ptr) {X} (K : f64 -> f64 -> f64 -> f64 -> prog X)
    (Q : X -> state -> Prop) :
  (vb = V16 /\ vn = V20) \/ (vb = V20 /\ vn = V16) ->
  pipe vb vn n s t0 t1 t2 t3 ->
  Z.of_nat n <= N ->
  base b = rb -> offset b = 8 * (eb + (Z.of_nat n + 1) * P) ->
  (forall s' t0' t1' t2' t3',
      pipe vn vb (S n) s' t0' t1' t2' t3' -> wp (K t0' t1' t2' t3') s' Q) ->
  wp (vle64 vn b ;;
      let a := pidx a_ (Z.of_nat n + 1) in
      vfmacc_vf V0 t0 vb ;;
      t0 <- fld a ;; let a := padd a lda in
      vfmacc_vf V4 t1 vb ;;
      t1 <- fld a ;; let a := padd a lda in
      vfmacc_vf V8 t2 vb ;;
      t2 <- fld a ;; let a := padd a lda in
      vfmacc_vf V12 t3 vb ;;
      t3 <- fld a ;;
      K t0 t1 t2 t3) s Q.
Proof.
  intros Hreg [Hv Hm Hb Ho H0 H4 H8 H12 -> -> -> ->] Hn Hbb Hbo HK.
  assert (HB : eb + (Z.of_nat n + 1) * P + vl s0
               <= Z.of_nat (length (mem s0 rb))) by nia.
  assert (Hrow : length (row (mem s0 rb) (eb + (Z.of_nat n + 1) * P) (vl s0))
                 = Z.to_nat (vl s0))
    by (apply length_row; [nia | lia | exact HB]).
  unfold body in Hb, H0, H4, H8, H12.
  rewrite Hv in Hb, H0, H4, H8, H12.
  cbv zeta.
  destruct Hreg as [[-> ->] | [-> ->]].
  all: apply wp_bind;
    apply wp_vle64 with (e := eb + (Z.of_nat n + 1) * P);
    [assumption | nia | lia | rewrite Hv, Hm, Hbb; exact HB | simpl_state].
  all: apply wp_bind, wp_vfmacc_vf; simpl_state.
  all: apply wp_bind; apply wp_fld with (e := ea + 0 * N + (Z.of_nat n + 1));
    [simpl_state; rewrite ?shiftl_3; lia | simpl_state; rewrite Hm; lia
    | simpl_state].
  all: apply wp_bind, wp_vfmacc_vf; simpl_state.
  all: apply wp_bind; apply wp_fld with (e := ea + 1 * N + (Z.of_nat n + 1));
    [simpl_state; rewrite ?shiftl_3; lia | simpl_state; rewrite Hm; lia
    | simpl_state].
  all: apply wp_bind, wp_vfmacc_vf; simpl_state.
  all: apply wp_bind; apply wp_fld with (e := ea + 2 * N + (Z.of_nat n + 1));
    [simpl_state; rewrite ?shiftl_3; lia | simpl_state; rewrite Hm; lia
    | simpl_state].
  all: apply wp_bind, wp_vfmacc_vf; simpl_state.
  all: apply wp_bind; apply wp_fld with (e := ea + 3 * N + (Z.of_nat n + 1));
    [simpl_state; rewrite ?shiftl_3; lia | simpl_state; rewrite Hm; lia
    | simpl_state].
  all: apply HK.
  all: split; simpl_state; rewrite ?Hm, ?Hbb, ?Hv.
  all: try reflexivity.
  all: try (rewrite body_load by exact Hrow; unfold Brow; do 2 f_equal; lia).
  all: try (intros _; cbn [Nat.sub]; rewrite Nat.sub_0_r; exact Hb).
  all: try (unfold acc_after; rewrite vchain_S, body_fmacc, Hb;
            first [rewrite H0 | rewrite H4 | rewrite H8 | rewrite H12];
            reflexivity).
  all: unfold Aelt; f_equal; lia.
Qed.

(** For odd [N] the loop is left through its condition, after the pass
    that started at [n = N - 1]: [N + 1] steps have been accumulated, [v16]
    holds row [N + 1] of B and [v20] row [N]. *)
Lemma reduction_loop_odd (fuel : nat) :
  forall (n : nat) (s : state) (t0 t1 t2 t3 : f64) (b : ptr),
    Z.Odd N -> Z.Even (Z.of_nat n) -> Z.of_nat n < N ->
    pipe V16 V20 n s t0 t1 t2 t3 ->
    base b = rb -> offset b = 8 * (eb + (Z.of_nat n + 1) * P) ->
    (Z.to_nat (N - Z.of_nat n) < fuel)%nat ->
    wp (reduction_loop fuel N lda ldb a_ b (Z.of_nat n) t0 t1 t2 t3) s
       (fun ts s' =>
          let '(t0', t1', t2', t3') := ts in
          pipe V16 V20 (Z.to_nat (N + 1)) s' t0' t1' t2' t3').
Proof.
  induction fuel as [|fuel IH];
    intros n s t0 t1 t2 t3 b HNo Hne Hn Hinv Hbb Hbo Hf.
  - lia.
  - cbn [reduction_loop].
    destruct (Z.ltb_spec (Z.of_nat n) N) as [_|]; [| lia].
    cbv zeta.
    apply (pipe_half V16 V20 n s t0 t1 t2 t3 b
             (fun t0 t1 t2 t3 =>
                if Z.of_nat n + 1 =? N - 1 then ret (t0, t1, t2, t3)
                else _)); [auto | assumption | lia | assumption.. |].
    intros s1 u0 u1 u2 u3 Hinv1.
    destruct (Z.eqb_spec (Z.of_nat n + 1) (N - 1)) as [Hbreak | _];
      [destruct HNo as [h Hh], Hne as [h' Hh']; lia |].
    change (Z.of_nat n + 1) with (Z.succ (Z.of_nat n)).
    rewrite <- Nat2Z.inj_succ.
    apply (pipe_half V20 V16 (S n) s1 u0 u1 u2 u3 (padd b ldb)
             (fun t0 t1 t2 t3 =>
                reduction_loop fuel N lda ldb a_ (padd (padd b ldb) ldb)
                               (Z.of_nat (S n) + 1) t0 t1 t2 t3));
      [auto | assumption | lia | exact Hbb
      | cbn [offset padd]; rewrite shiftl_3; lia |].
    intros s2 w0 w1 w2 w3 Hinv2.
    change (Z.of_nat (S n) + 1) with (Z.succ (Z.of_nat (S n))).
    rewrite <- Nat2Z.inj_succ.
    destruct (Z.lt_ge_cases (Z.of_nat (S (S n))) N) as [Hmore | Hlast].
    + apply IH; [assumption | | lia | assumption | exact Hbb | | lia].
      * destruct Hne as [h' Hh']. exists (h' + 1). lia.
      * cbn [offset padd]. rewrite shiftl_3. lia.
    + destruct fuel as [|fuel]; [lia |]. cbn [reduction_loop].
      destruct (Z.ltb_spec (Z.of_nat (S (S n))) N) as [? | _]; [lia |].
      apply wp_ret.
      replace (Z.to_nat (N + 1)) with (S (S n))
        by (destruct HNo as [h Hh], Hne as [h' Hh']; lia).
      exact Hinv2.
Qed.

End OddReduction.

Section OddKernel.
Context {VU : VectorUnit}.

Lemma matmul_vec_4x4_odd (fuel : nat) (c a b : ptr) (ec ea eb N P : Z)
    (s0 : state) :
  offset a = 8 * ea -> offset b = 8 * eb -> offset c = 8 * ec ->
  0 <= ea -> 0 <= eb -> 0 <= ec ->
  Z.Odd N -> 1 <= N -> 0 <= vl s0 <= P ->
  ea + 4 * N + 2 <= Z.of_nat (length (mem s0 (base a))) ->
  eb + (N + 1) * P + vl s0 <= Z.of_nat (length (mem s0 (base b))) ->
  ec + 3 * P + vl s0 <= Z.of_nat (length (mem s0 (base c))) ->
  (forall i, 0 <= i < 4 -> length (body s0 (accreg i)) = Z.to_nat (vl s0)) ->
  (Z.to_nat N < fuel)%nat ->
  wp (matmul_vec_4x4 fuel c a b N P) s0
     (fun _ s' =>
        forall i j, 0 <= i < 4 -> 0 <= j < vl s0 ->
          mem s' (base c) !! Z.to_nat (ec + i * P + j)
          = acc_overrun s0 (base a) ea (base b) eb N P (accreg i) i
              !! Z.to_nat j).
Proof.
  intros Ha Hb Hc Hea Heb Hec HNo HN Hv HlenA HlenB HlenC Hacc Hfuel.
  unfold matmul_vec_4x4. cbv zeta.
  assert (HB0 : eb + vl s0 <= Z.of_nat (length (mem s0 (base b)))) by nia.
  assert (Hrow0 : length (row (mem s0 (base b)) eb (vl s0)) = Z.to_nat (vl s0))
    by (apply length_row; lia).
  apply wp_bind.
  apply wp_vle64 with (e := eb); [assumption | lia | lia | exact HB0 |].
  simpl_state.
  apply wp_bind.
  apply wp_fld with (e := ea + 0 * N + 0);
    [simpl_state; rewrite ?shiftl_3; lia | simpl_state; lia | simpl_state].
  apply wp_bind.
  apply wp_fld with (e := ea + 1 * N + 0);
    [simpl_state; rewrite ?shiftl_3; lia | simpl_state; lia | simpl_state].
  apply wp_bind.
  apply wp_fld with (e := ea + 2 * N + 0);
    [simpl_state; rewrite ?shiftl_3; lia | simpl_state; lia | simpl_state].
  apply wp_bind.
  apply wp_fld with (e := ea + 3 * N + 0);
    [simpl_state; rewrite ?shiftl_3; lia | simpl_state; lia | simpl_state].
  apply wp_bind.
  eapply wp_mono.
  { apply (reduction_loop_odd s0 a ea (base b) eb N P) with (n := 0%nat);
      try assumption; try lia.
    - exists 0. reflexivity.
    - split; simpl_state; try reflexivity.
      + rewrite body_load by exact Hrow0. unfold Brow. do 2 f_equal. lia.
      + intros H. lia.
    - reflexivity.
    - simpl_state. rewrite shiftl_3. lia. }
  intros [[[t0 t1] t2] t3] s1 [Hv1 Hm1 Hb1 Ho1 H0 H4 H8 H12 -> -> -> ->].
  specialize (Ho1 ltac:(lia)).
  replace (Z.to_nat (N + 1) - 1)%nat with (Z.to_nat N) in Ho1 by lia.
  assert (E : forall vd i,
             body s1 vd
             = acc_after s0 (base a) ea (base b) eb N P vd i (Z.to_nat (N + 1)) ->
             take (Z.to_nat (vl s0))
                  (fmacc (vrf s1 vd)
                         (Aelt s0 (base a) ea N i (Z.to_nat (N + 1)))
                         (take (Z.to_nat (vl s0)) (vrf s1 V20)))
             = acc_overrun s0 (base a) ea (base b) eb N P vd i).
  { intros vd i H. rewrite body_fmacc. unfold body in H, Ho1.
    rewrite Hv1 in H, Ho1. rewrite H, Ho1. reflexivity. }
  assert (LF : forall i, 0 <= i < 4 ->
             length (acc_overrun s0 (base a) ea (base b) eb N P (accreg i) i)
             = Z.to_nat (vl s0)).
  { intros i Hi. unfold acc_overrun, acc_after.
    rewrite length_fmacc, length_vchain. apply Hacc, Hi. }
  pose proof (LF 0 ltac:(lia)) as L0. pose proof (LF 1 ltac:(lia)) as L1.
  pose proof (LF 2 ltac:(lia)) as L2. pose proof (LF 3 ltac:(lia)) as L3.
  change (accreg 0) with V0 in L0. change (accreg 1) with V4 in L1.
  change (accreg 2) with V8 in L2. change (accreg 3) with V12 in L3.
  destruct (four_rows (mem s0 (base c)) _ _ _ _ ec P (vl s0)
              Hec Hv L0 L1 L2 L3 HlenC) as [HL [HB HR]].
  cbv zeta in HL, HB, HR.
  assert (LB1 : length (store_row (mem s0 (base c)) (ec + 0 * P)
                          (acc_overrun s0 (base a) ea (base b) eb N P V0 0))
                = length (mem s0 (base c)))
    by (apply length_store_row; rewrite ?L0; lia).
  assert (LB2 : length (store_row
                          (store_row (mem s0 (base c)) (ec + 0 * P)
                             (acc_overrun s0 (base a) ea (base b) eb N P V0 0))
                          (ec + 1 * P)
                          (acc_overrun s0 (base a) ea (base b) eb N P V4 1))
                = length (mem s0 (base c)))
    by (rewrite length_store_row; rewrite ?LB1, ?L1; lia).
  assert (LB3 : length (store_row
                          (store_row
                             (store_row (mem s0 (base c)) (ec + 0 * P)
                                (acc_overrun s0 (base a) ea (base b) eb N P
                                             V0 0))
                             (ec + 1 * P)
                             (acc_overrun s0 (base a) ea (base b) eb N P V4 1))
                          (ec + 2 * P)
                          (acc_overrun s0 (base a) ea (base b) eb N P V8 2))
                = length (mem s0 (base c)))
    by (rewrite length_store_row; rewrite ?LB2, ?L2; lia).
  apply wp_bind, wp_vfmacc_vf; simpl_state; rewrite ?Hv1, ?Hm1.
  apply wp_bind. apply wp_vse64 with (e := ec + 0 * P);
    simpl_state; rewrite ?Hv1, ?Hm1, ?(E V0 0 H0); [lia | lia | lia | exact L0 | lia |].
  apply wp_bind, wp_vfmacc_vf; simpl_state.
  apply wp_bind. apply wp_vse64 with (e := ec + 1 * P);
    simpl_state; rewrite ?set_region_same, ?(E V4 1 H4), ?shiftl_3;
    [lia | lia | lia | exact L1 | rewrite ?LB3, ?LB2, ?LB1; lia |].
  apply wp_bind, wp_vfmacc_vf; simpl_state.
  apply wp_bind. apply wp_vse64 with (e := ec + 2 * P);
    simpl_state; rewrite ?set_region_same, ?(E V8 2 H8), ?shiftl_3;
    [lia | lia | lia | exact L2 | rewrite ?LB3, ?LB2, ?LB1; lia |].
  apply wp_bind, wp_vfmacc_vf; simpl_state.
  apply wp_vse64 with (e := ec + 3 * P);
    simpl_state; rewrite ?set_region_same, ?(E V12 3 H12), ?shiftl_3;
    [lia | lia | lia | exact L3 | rewrite ?LB3, ?LB2, ?LB1; lia |].
  simpl_state; rewrite ?set_region_same.
  intros i j Hi Hj. destruct (HB j Hj) as (B0 & B1 & B2 & B3).
  destruct (accreg_cases i Hi) as [-> | [-> | [-> | ->]]]; assumption.
Qed.

End OddKernel.

(** ** Edge behaviour of [matmul] *)

Section Edges.
Context {VU : VectorUnit}.

Lemma bind_not_done {A B} (c : prog A) (k : A -> prog B) s :
  (forall a s1, c s = Done a s1 -> forall b s', k a s1 <> Done b s') ->
  forall b s', bind c k s <> Done b s'.
Proof.
  intros H b s' Hrun.
  destruct (bind_inv _ _ _ _ _ Hrun) as (a & s1 & Hc & Hk).
  exact (H a s1 Hc b s' Hk).
Qed.

Lemma col_loop_no_rows (kfuel : nat) (c a b : ptr) (M N P bsp : Z)
    (fuel : nat) :
  M <= 0 -> 1 <= bsp -> (0 < kfuel)%nat ->
  forall p s, (Z.to_nat (P - p) < fuel)%nat ->
    exists s', col_loop fuel kfuel c a b M N P 4 bsp p s = Done tt s' /\
               mem s' = mem s /\ vrf s' = vrf s /\ trace s' = trace s.
Proof.
  intros HM Hbsp Hk. induction fuel as [|fuel IH]; intros p s Hf; [lia |].
  cbn [col_loop].
  destruct (Z.ltb_spec p P) as [Hlt | Hge].
  - cbv zeta. unfold bind at 1. unfold vsetvli. cbv zeta.
    destruct kfuel as [|kfuel]; [lia |].
    unfold bind at 1. cbn [row_loop].
    destruct (Z.ltb_spec 0 M) as [HM' | _]; [lia |].
    unfold ret at 1.
    destruct (IH (p + bsp)
                (mkState (grant (MIN (P - p) bsp)) (vrf s) (mem s) (trace s))
                ltac:(lia)) as (s' & Hrun & Hm & Hr & Ht).
    exists s'. split; [exact Hrun |]. cbn [mem vrf trace] in Hm, Hr, Ht.
    auto.
  - exists s. repeat split; reflexivity.
Qed.

(** X1.  With no rows or no columns to compute ([M <= 0] or [P <= 0])
    [matmul] returns at once: no access is issued, and memory and the
    vector registers are what they were. *)
Theorem matmul_empty_dimension (fuel : nat) (c a b : ptr) (M N P : Z)
    (s : state) :
  M <= 0 \/ P <= 0 ->
  (forall avl, 1 <= avl -> 1 <= grant avl) ->
  (Z.to_nat P < fuel)%nat ->
  exists s', matmul fuel c a b M N P s = Done tt s' /\
             mem s' = mem s /\ vrf s' = vrf s /\ trace s' = trace s.
Proof.
  intros Hdim Hgrant Hf.
  unfold matmul. cbv zeta. unfold bind at 1. unfold vsetvli. cbv zeta.
  destruct (Z.le_gt_cases P 0) as [HP | HP].
  - destruct fuel as [|fuel]; [lia |]. cbn [col_loop].
    destruct (Z.ltb_spec 0 P) as [HP' | _]; [lia |].
    eexists. split; [reflexivity |]. repeat split; reflexivity.
  - destruct Hdim as [HM | HP']; [| lia].
    destruct (col_loop_no_rows fuel c a b M N P (grant P) fuel HM
                ltac:(apply Hgrant; lia) ltac:(lia) 0
                (mkState (grant P) (vrf s) (mem s) (trace s))
                ltac:(rewrite Z.sub_0_r; exact Hf))
      as (s' & Hrun & Hm & Hr & Ht).
    exists s'. split; [exact Hrun |]. cbn [mem vrf trace] in Hm, Hr, Ht.
    auto.
Qed.

Lemma vle64_idle vd p s :
  vl s <= 0 ->
  vle64 vd p s
  = Done tt (mkState (vl s)
               (set_vreg (vrf s) vd ([] ++ drop (Z.to_nat (vl s)) (vrf s vd)))
               (mem s) (EvLoad p (vl s) :: trace s)).
Proof.
  intros Hz. unfold vle64.
  destruct (Z.leb_spec (vl s) 0) as [_ | ?]; [reflexivity | lia].
Qed.

(** With [vl = 0] the four loads of [matmul_vec_4x4_slice_init] access
    nothing, and the call returns. *)
Lemma slice_init_idle (c : ptr) (P : Z) (s : state) :
  vl s <= 0 -> exists s', matmul_vec_4x4_slice_init c P s = Done tt s'.
Proof.
  intros Hz. unfold matmul_vec_4x4_slice_init. cbv zeta.
  rewrite (bind_done _ _ _ _ _ (vle64_idle V0 c s Hz)).
  erewrite bind_done by (apply vle64_idle; exact Hz).
  erewrite bind_done by (apply vle64_idle; exact Hz).
  rewrite vle64_idle by exact Hz. eexists. reflexivity.
Qed.

(** X2.  [matmul_vec_4x4_slice_init] with a vector length of at least one
    returns exactly when the last of the four rows it loads lies inside the
    object, and faults exactly when it does not; with [vl = 0] it accesses
    nothing and returns, wherever [c] points. *)
Theorem slice_init_returns_iff_in_bounds (c : ptr) (ec P : Z) (s : state) :
  offset c = 8 * ec -> 0 <= ec -> 0 <= P -> 0 <= vl s ->
  ((exists s', matmul_vec_4x4_slice_init c P s = Done tt s') <->
   vl s = 0 \/ ec + 3 * P + vl s <= Z.of_nat (length (mem s (base c)))) /\
  (matmul_vec_4x4_slice_init c P s = Fault <->
   1 <= vl s /\ Z.of_nat (length (mem s (base c))) < ec + 3 * P + vl s).
Proof.
  intros Hc Hec HP Hv.
  destruct (Z.eq_dec (vl s) 0) as [Hz | Hnz].
  - destruct (slice_init_idle c P s ltac:(lia)) as [s' Hrun].
    split; split; intros H.
    + left. exact Hz.
    + exists s'. exact Hrun.
    + rewrite Hrun in H. discriminate.
    + lia.
  - destruct (Z.le_gt_cases (ec + 3 * P + vl s)
                            (Z.of_nat (length (mem s (base c)))))
      as [Hle | Hgt].
    + pose proof (slice_init_spec c ec P s Hc Hec HP Hv Hle) as Hwp.
      apply wp_done in Hwp. destruct Hwp as ([] & s' & Hrun & _).
      split; split; intros H.
      * right. exact Hle.
      * exists s'. exact Hrun.
      * rewrite Hrun in H. discriminate.
      * lia.
    + pose proof (slice_init_fault c ec P s Hc Hec HP ltac:(lia) Hgt)
        as Hrun.
      split; split; intros H.
      * destruct H as [s' H]. rewrite Hrun in H. discriminate.
      * lia.
      * split; [lia | exact Hgt].
      * exact Hrun.
Qed.

(** The row loop cannot finish when [M] is not a multiple of 4 and the
    object of C has no more than [M * P] elements: its last row group
    reaches past row [M - 1]. *)
Lemma row_loop_ragged (kfuel : nat) (c_ a b_ : ptr) (ep M N P : Z)
    (fuel : nat) :
  offset c_ = 8 * ep -> 0 <= ep -> 0 <= P -> M mod 4 <> 0 ->
  forall m s u s',
    0 <= m < M -> m mod 4 = 0 -> 1 <= vl s ->
    Z.of_nat (length (mem s (base c_))) <= M * P ->
    row_loop fuel kfuel c_ a b_ M N P 4 m s <> Done u s'.
Proof.
  intros Hc Hep HP HM4.
  induction fuel as [|fuel IH]; intros m s u s' Hm Hm4 Hv Hlen;
    [discriminate |].
  cbn [row_loop].
  destruct (Z.ltb_spec m M) as [_ | ?]; [| lia]. cbv zeta.
  destruct (Z.le_gt_cases (m + 4) M) as [Hin | Hout].
  - assert (Hm' : m + 4 < M)
      by (destruct (Z.eq_dec (m + 4) M) as [E|]; [| lia];
          exfalso; apply HM4; rewrite <- E;
          rewrite <- Zplus_mod_idemp_l, Hm4; reflexivity).
    apply bind_not_done. intros [] s1 H1.
    apply bind_not_done. intros [] s2 H2.
    pose proof (loads_only_slice_init _ _ _ _ _ H1) as (Hm1 & Hv1 & _).
    pose proof (same_vl_matmul_vec_4x4 _ _ _ _ _ _ _ _ _ H2) as Hv2.
    pose proof (frames_matmul_vec_4x4 _ _ _ _ _ _ _ _ _ H2) as [_ Hl2].
    intros u' s''. apply IH.
    + lia.
    + rewrite <- Zplus_mod_idemp_l, Hm4. reflexivity.
    + unfold same_vl in Hv2. lia.
    + rewrite Hl2, Hm1. exact Hlen.
  - intros Hrun. apply bind_inv in Hrun as ([] & s1 & H1 & _).
    rewrite (slice_init_fault (pidx c_ (m * P)) (ep + m * P) P s) in H1;
      [discriminate | cbn [offset pidx]; lia | nia | lia | lia |].
    cbn [base pidx]. nia.
Qed.

(** X3.  [matmul] handles rows in groups of four and has no clean-up for
    a last group of fewer rows: when [M] is not a multiple of 4 and C holds
    no more than [M * P] elements, the call faults. *)
Theorem matmul_ragged_M_faults (fuel : nat) (c a b : ptr) (M N P : Z)
    (s : state) :
  1 <= M -> M mod 4 <> 0 -> 1 <= P ->
  (forall avl, 1 <= avl -> 1 <= grant avl) ->
  offset c = 0 ->
  Z.of_nat (length (mem s (base c))) <= M * P ->
  (Z.to_nat (Z.max M (Z.max N P)) < fuel)%nat ->
  matmul fuel c a b M N P s = Fault.
Proof.
  intros HM HM4 HP Hgrant Hc Hlen Hf.
  assert (Hbsp : 1 <= grant P) by (apply Hgrant; exact HP).
  apply not_done_fault.
  - intros u s'. unfold matmul. cbv zeta.
    apply bind_not_done. intros bsp s1 [= <- <-].
    destruct fuel as [|fuel]; [discriminate |]. cbn [col_loop].
    destruct (Z.ltb_spec 0 P) as [_ | ?]; [| lia]. cbv zeta.
    apply bind_not_done. intros v s2 [= _ <-].
    apply bind_not_done. intros [] s3 H3. exfalso.
    revert H3. apply (row_loop_ragged _ _ _ _ 0 M N P);
      cbn [offset base pidx vl mem]; try lia.
    + reflexivity.
    + apply Hgrant. rewrite MIN_min. lia.
  - unfold matmul, bind, vsetvli. cbv zeta.
    apply fueled_col_loop; lia.
Qed.

(** X4.  [matmul_vec_4x4] prefetches row 0 of B before it looks at [N]:
    with an empty B (the B of a product with [N = 0]) a call with at least
    one row and one column faults, whatever [N] is. *)
Theorem matmul_empty_B_faults (fuel : nat) (c a b : ptr) (M N P : Z)
    (s : state) :
  1 <= M -> 1 <= P ->
  (forall avl, 1 <= avl -> 1 <= grant avl) ->
  length (mem s (base b)) = 0%nat ->
  (0 < fuel)%nat ->
  matmul fuel c a b M N P s = Fault.
Proof.
  intros HM HP Hgrant Hlen Hf.
  assert (Hbsp : 1 <= grant P) by (apply Hgrant; exact HP).
  destruct fuel as [|fuel]; [lia |].
  unfold matmul. cbv zeta. unfold bind at 1. unfold vsetvli. cbv zeta.
  cbn [col_loop]. destruct (Z.ltb_spec 0 P) as [_ | ?]; [| lia]. cbv zeta.
  unfold bind at 1. cbv zeta.
  apply bind_fault. cbn [row_loop].
  destruct (Z.ltb_spec 0 M) as [_ | ?]; [| lia]. cbv zeta.
  match goal with
  | |- bind ?i _ ?s1 = _ => destruct (i s1) as [[] s2 | |] eqn:Hinit
  end.
  - rewrite (bind_done _ _ _ _ _ Hinit).
    pose proof (loads_only_slice_init _ _ _ _ _ Hinit) as (Hm2 & Hv2 & _).
    cbn [mem vl] in Hm2, Hv2.
    apply bind_fault. unfold matmul_vec_4x4. cbv zeta.
    apply bind_fault, vle64_empty.
    + cbn [base pidx]. rewrite Hm2. exact Hlen.
    + rewrite Hv2. apply Hgrant. rewrite Z.sub_0_r, MIN_min. lia.
  - apply bind_fault. exact Hinit.
  - exfalso. exact (fueled_slice_init _ _ _ Hinit).
Qed.

(** The column loop leaves the vector length of its last chunk. *)
Lemma col_loop_vl (kfuel : nat) (c a b : ptr) (M N P bs bsp : Z)
    (fuel : nat) :
  1 <= bsp ->
  forall t s u s', 0 <= t -> t * bsp < P ->
    col_loop fuel kfuel c a b M N P bs bsp (t * bsp) s = Done u s' ->
    exists t', 0 <= t' /\ t' * bsp < P <= (t' + 1) * bsp /\
               vl s' = grant (MIN (P - t' * bsp) bsp).
Proof.
  intros Hbsp. induction fuel as [|fuel IH]; intros t s u s' Ht HtP Hrun;
    [discriminate |].
  cbn [col_loop] in Hrun.
  destruct (Z.ltb_spec (t * bsp) P) as [_ | ?]; [| lia]. cbv zeta in Hrun.
  apply bind_inv in Hrun as (v & s1 & H1 & Hrun). injection H1 as _ <-.
  apply bind_inv in Hrun as ([] & s2 & H2 & Hrun).
  apply same_vl_row_loop in H2. unfold same_vl in H2. cbn [vl] in H2.
  destruct (Z.lt_ge_cases ((t + 1) * bsp) P) as [Hmore | Hlast].
  - replace (t * bsp + bsp) with ((t + 1) * bsp) in Hrun by lia.
    apply (IH (t + 1) s2 u s'); [lia | exact Hmore | exact Hrun].
  - destruct fuel as [|fuel]; [discriminate |]. cbn [col_loop] in Hrun.
    destruct (Z.ltb_spec (t * bsp + bsp) P) as [? | _]; [lia |].
    injection Hrun as _ <-.
    exists t. repeat split; lia.
Qed.

(** X5.  [matmul] does not restore the vector length: when it returns
    from a call with [P >= 1], [vl] is the length granted for the last
    column chunk, the [MIN (P - p) block_size_p] columns from the last
    multiple [p] of [block_size_p] below [P]. *)
Theorem matmul_leaves_last_chunk_vl (fuel : nat) (c a b : ptr) (M N P : Z)
    (s : state) (u : unit) (s' : state) :
  1 <= P -> 1 <= grant P ->
  matmul fuel c a b M N P s = Done u s' ->
  exists t, 0 <= t /\ t * grant P < P <= (t + 1) * grant P /\
            vl s' = grant (MIN (P - t * grant P) (grant P)).
Proof.
  intros HP Hg Hrun. unfold matmul in Hrun. cbv zeta in Hrun.
  apply bind_inv in Hrun as (v & s1 & H1 & Hrun). injection H1 as <- <-.
  eapply (col_loop_vl fuel c a b M N P 4 (grant P) fuel Hg 0);
    [lia | lia | exact Hrun].
Qed.

(** X6.  For even [N], [matmul] writes nothing but the [M * P] elements
    of the product: whatever the buffer of C holds from element [M * P] on
    is left as it was. *)
Theorem matmul_even_keeps_rest_of_C (VLMAX : Z) (fuel : nat) (c a b : ptr)
    (M N P : Z) (s0 : state) :
  rvv_grant VLMAX ->
  offset a = 0 -> offset b = 0 -> offset c = 0 ->
  base a <> base c -> base b <> base c ->
  (exists q, 1 <= q /\ M = 4 * q) -> Z.Even N -> 2 <= N -> 1 <= P ->
  M * N <= Z.of_nat (length (mem s0 (base a))) ->
  N * P <= Z.of_nat (length (mem s0 (base b))) ->
  M * P <= Z.of_nat (length (mem s0 (base c))) ->
  (Z.to_nat (Z.max M (Z.max N P)) < fuel)%nat ->
  exists s',
    matmul fuel c a b M N P s0 = Done tt s' /\
    length (mem s' (base c)) = length (mem s0 (base c)) /\
    forall x, (Z.to_nat (M * P) <= x)%nat ->
              mem s' (base c) !! x = mem s0 (base c) !! x.
Proof.
  intros Hrvv Ha Hb Hc Hac Hbc HM HNe HN HP HlenA HlenB HlenC Hfuel.
  destruct (matmul_even_done VLMAX fuel c a b M N P s0)
    as (s' & Hrun & [F L B R T]); try assumption.
  exists s'. split; [exact Hrun |]. split; [exact L |].
  intros x Hx. destruct HM as (q & Hq & ->).
  destruct (Nat.lt_ge_cases x (length (mem s0 (base c)))) as [Hin | Hout].
  - pose proof (R (Z.of_nat x / P) (Z.of_nat x mod P)
                  ltac:(apply Z.div_pos; lia)
                  ltac:(apply Z.mod_pos_bound; lia)) as E.
    assert (Hsplit : Z.of_nat x / P * P + Z.of_nat x mod P = Z.of_nat x)
      by (pose proof (Z.div_mod (Z.of_nat x) P ltac:(lia)); lia).
    rewrite Hsplit in E.
    assert (Hrow : 4 * q <= Z.of_nat x / P)
      by (apply Z.div_le_lower_bound; lia).
    specialize (E ltac:(unfold rect; lia)).
    unfold elt in E. rewrite Nat2Z.id in E.
    destruct (lookup_lt_is_Some_2 (mem s0 (base c)) x Hin) as [y0 E0].
    destruct (lookup_lt_is_Some_2 (mem s' (base c)) x
                ltac:(rewrite L; exact Hin)) as [y1 E1].
    rewrite E0, E1 in E |- *. cbn in E. rewrite E. reflexivity.
  - rewrite !lookup_ge_None_2; [reflexivity | exact Hout | rewrite L; exact Hout].
Qed.

Lemma vfmacc_vf_inv vd f vs2 s u s' :
  vfmacc_vf vd f vs2 s = Done u s' -> trace s' = trace s /\ vl s' = vl s.
Proof. intros [= _ <-]. split; reflexivity. Qed.

(** X7.  Whenever [matmul_vec_4x4] returns, whatever [N] is, its accesses
    are loads followed by exactly four stores, of [vl] elements each, to
    the four rows of the C block: every load comes before the first
    store. *)
Theorem kernel_stores_after_loads (fuel : nat) (c a b : ptr) (N P : Z)
    (s : state) (u : unit) (s' : state) :
  matmul_vec_4x4 fuel c a b N P s = Done u s' ->
  exists tr,
    trace s'
    = EvStore (padd (padd (padd c (8 * P)) (8 * P)) (8 * P)) (vl s)
      :: EvStore (padd (padd c (8 * P)) (8 * P)) (vl s)
      :: EvStore (padd c (8 * P)) (vl s)
      :: EvStore c (vl s) :: tr ++ trace s /\
    Forall is_load tr.
Proof.
  unfold matmul_vec_4x4. cbv zeta. rewrite !shiftl_3. intros Hrun.
  apply bind_inv in Hrun as ([] & sa & Ha & Hrun).
  apply loads_only_vle64 in Ha.
  apply bind_inv in Hrun as (t0 & sb & Hb & Hrun).
  apply loads_only_fld in Hb.
  apply bind_inv in Hrun as (t1 & sc & Hc & Hrun).
  apply loads_only_fld in Hc.
  apply bind_inv in Hrun as (t2 & sd & Hd & Hrun).
  apply loads_only_fld in Hd.
  apply bind_inv in Hrun as (t3 & se & He & Hrun).
  apply loads_only_fld in He.
  apply bind_inv in Hrun as ([[[u0 u1] u2] u3] & s1 & Hl & Hrun').
  apply (preserves_reduction_loop loads_only loads_only_refl
           loads_only_trans loads_only_vle64 loads_only_fld
           loads_only_vfmacc_vf) in Hl.
  pose proof (loads_only_trans _ _ _ Ha
               (loads_only_trans _ _ _ Hb
                  (loads_only_trans _ _ _ Hc
                     (loads_only_trans _ _ _ Hd
                        (loads_only_trans _ _ _ He Hl)))))
    as (_ & Hv1 & tr & Htr & Hok).
  apply bind_inv in Hrun' as ([] & s2 & H2 & Hrun').
  apply vfmacc_vf_inv in H2 as [T2 V2].
  apply bind_inv in Hrun' as ([] & s3 & H3 & Hrun').
  apply vse64_inv in H3 as [T3 V3].
  apply bind_inv in Hrun' as ([] & s4 & H4 & Hrun').
  apply vfmacc_vf_inv in H4 as [T4 V4'].
  apply bind_inv in Hrun' as ([] & s5 & H5 & Hrun').
  apply vse64_inv in H5 as [T5 V5].
  apply bind_inv in Hrun' as ([] & s6 & H6 & Hrun').
  apply vfmacc_vf_inv in H6 as [T6 V6].
  apply bind_inv in Hrun' as ([] & s7 & H7 & Hrun').
  apply vse64_inv in H7 as [T7 V7].
  apply bind_inv in Hrun' as ([] & s8 & H8 & Hrun').
  apply vfmacc_vf_inv in H8 as [T8 V8'].
  apply vse64_inv in Hrun' as [T9 V9].
  exists tr. split; [| exact Hok].
  rewrite T9, T8, T7, T6, T5, T4, T3, T2, Htr.
  rewrite V8', V7, V6, V5, V4', V3, V2, Hv1. reflexivity.
Qed.

(** *** Odd [N] *)

Ltac load_step Hrun Hacc :=
  let H := fresh "H" in
  apply bind_inv in Hrun as (? & ? & H & Hrun);
  first [ apply loads_only_vle64 in H
        | apply loads_only_fld in H
        | apply loads_only_vfmacc_vf in H ];
  apply (loads_only_trans _ _ _ Hacc) in H; clear Hacc; rename H into Hacc.

(** On odd [N] the [break] test never succeeds, since it is made at odd
    [n] only; the pass that starts at [n = N - 1] loads row [N] of B, which
    an object of [N] rows does not have. *)
Lemma reduction_loop_odd_no_return (N P eb : Z) (a_ : ptr) (fuel : nat) :
  Z.Odd N -> 0 <= eb -> 0 <= P ->
  forall n b s t0 t1 t2 t3 ts s',
    Z.Even n -> 0 <= n < N ->
    offset b = 8 * (eb + (n + 1) * P) ->
    1 <= vl s ->
    Z.of_nat (length (mem s (base b))) < eb + N * P + vl s ->
    reduction_loop fuel N (Z.shiftl N 3) (Z.shiftl P 3) a_ b n t0 t1 t2 t3 s
    <> Done ts s'.
Proof.
  intros HNo Heb HP.
  induction fuel as [|fuel IH];
    intros n b s t0 t1 t2 t3 ts s' Hne Hn Hb Hv Hlen; [discriminate |].
  cbn [reduction_loop].
  destruct (Z.ltb_spec n N) as [_ | ?]; [| lia]. cbv zeta.
  intros Hrun.
  apply bind_inv in Hrun as ([] & s1 & H1 & Hrun).
  destruct (Z.eq_dec n (N - 1)) as [Hlast | Hmore].
  - apply (vle64_inv _ _ _ _ _ (eb + (n + 1) * P)) in H1;
      [| exact Hb | nia | exact Hv].
    destruct H1 as [H1 _]. subst n.
    replace (N - 1 + 1) with N in H1 by lia. lia.
  - assert (Hn2 : n + 2 < N)
      by (destruct HNo as [h ->], Hne as [h' ->]; lia).
    apply loads_only_vle64 in H1.
    do 8 load_step Hrun H1.
    destruct (Z.eqb_spec (n + 1) (N - 1)) as [? | _]; [lia |].
    do 9 load_step Hrun H1.
    destruct H1 as (Hm & Hvl & _).
    revert Hrun. apply IH.
    + destruct Hne as [h' ->]. exists (h' + 1). lia.
    + lia.
    + cbn [offset padd]. rewrite shiftl_3. lia.
    + lia.
    + cbn [base padd]. rewrite Hm, Hvl. exact Hlen.
Qed.

Lemma matmul_vec_4x4_odd_no_return (fuel : nat) (c a b : ptr) (eb N P : Z)
    (s : state) (u : unit) (s' : state) :
  Z.Odd N -> 1 <= N -> offset b = 8 * eb -> 0 <= eb -> 0 <= P ->
  1 <= vl s ->
  Z.of_nat (length (mem s (base b))) < eb + N * P + vl s ->
  matmul_vec_4x4 fuel c a b N P s <> Done u s'.
Proof.
  intros HNo HN Hb Heb HP Hv Hlen Hrun.
  unfold matmul_vec_4x4 in Hrun. cbv zeta in Hrun.
  pose proof (loads_only_refl s) as Hacc.
  do 5 load_step Hrun Hacc.
  apply bind_inv in Hrun as (ts & s1 & Hloop & _).
  destruct Hacc as (Hm & Hvl & _).
  revert Hloop. apply (reduction_loop_odd_no_return N P eb); try assumption.
  - exists 0. reflexivity.
  - lia.
  - cbn [offset padd]. rewrite shiftl_3. lia.
  - lia.
  - cbn [base padd]. rewrite Hm, Hvl. exact Hlen.
Qed.

(** X8.  The reduction loop of [matmul_vec_4x4] is unrolled twice and
    leaves through its [break] only when [N] is even.  For odd [N] it goes
    on to load row [N] of B: with a B of no more than [N * P] elements, the
    call faults. *)
Theorem matmul_odd_N_faults (fuel : nat) (c a b : ptr) (M N P : Z)
    (s : state) :
  Z.Odd N -> 1 <= N -> 1 <= M -> 1 <= P ->
  (forall avl, 1 <= avl -> 1 <= grant avl) ->
  offset b = 0 ->
  Z.of_nat (length (mem s (base b))) <= N * P ->
  (Z.to_nat (Z.max M (Z.max N P)) < fuel)%nat ->
  matmul fuel c a b M N P s = Fault.
Proof.
  intros HNo HN HM HP Hgrant Hb Hlen Hf.
  assert (Hbsp : 1 <= grant P) by (apply Hgrant; exact HP).
  apply not_done_fault.
  - intros u s'. unfold matmul. cbv zeta.
    apply bind_not_done. intros bsp s1 [= <- <-].
    destruct fuel as [|fuel]; [discriminate |]. cbn [col_loop].
    destruct (Z.ltb_spec 0 P) as [_ | ?]; [| lia]. cbv zeta.
    apply bind_not_done. intros v s2 [= _ <-].
    apply bind_not_done. intros [] s3 H3. exfalso. revert H3.
    cbn [row_loop].
    destruct (Z.ltb_spec 0 M) as [_ | ?]; [| lia]. cbv zeta.
    apply bind_not_done. intros [] s4 H4.
    apply loads_only_slice_init in H4. destruct H4 as (Hm4 & Hv4 & _).
    cbn [mem vl] in Hm4, Hv4.
    assert (Hv : 1 <= grant (MIN (P - 0) (grant P)))
      by (apply Hgrant; rewrite MIN_min; lia).
    apply bind_not_done. intros [] s5 H5. exfalso. revert H5.
    apply (matmul_vec_4x4_odd_no_return _ _ _ _ 0); try assumption.
    + cbn [offset pidx]. lia.
    + lia.
    + lia.
    + lia.
    + cbn [base pidx]. rewrite Hm4, Hv4. lia.
  - unfold matmul, bind, vsetvli. cbv zeta.
    apply fueled_col_loop; lia.
Qed.

(** X9.  What [matmul_vec_4x4] computes for odd [N] when the buffers are
    long enough for it not to fault: the loop makes the [N + 1] steps
    [k = 0 .. N], one step more than the reduction has, and the write-back
    adds the product of the element [N + 1] places after [A[i][0]] and
    element [j] of row [N] of B.  Element [j] of row [i] of the C block
    receives two products more than the reduction of length [N]. *)
Theorem matmul_vec_4x4_odd_N_overruns (fuel : nat) (c a b : ptr)
    (ec ea eb N P : Z) (s0 : state) :
  offset a = 8 * ea -> offset b = 8 * eb -> offset c = 8 * ec ->
  0 <= ea -> 0 <= eb -> 0 <= ec ->
  Z.Odd N -> 1 <= N -> 0 <= vl s0 <= P ->
  ea + 4 * N + 2 <= Z.of_nat (length (mem s0 (base a))) ->
  eb + (N + 1) * P + vl s0 <= Z.of_nat (length (mem s0 (base b))) ->
  ec + 3 * P + vl s0 <= Z.of_nat (length (mem s0 (base c))) ->
  (forall i, 0 <= i < 4 -> length (body s0 (accreg i)) = Z.to_nat (vl s0)) ->
  (Z.to_nat N < fuel)%nat ->
  exists s',
    matmul_vec_4x4 fuel c a b N P s0 = Done tt s' /\
    forall i j x, 0 <= i < 4 -> 0 <= j < vl s0 ->
      body s0 (accreg i) !! Z.to_nat j = Some x ->
      mem s' (base c) !! Z.to_nat (ec + i * P + j)
      = Some (fmadd (elt (mem s0 (base a)) (ea + i * N + (N + 1)))
                    (elt (mem s0 (base b)) (eb + N * P + j))
                    (fma_chain
                       (fun k => elt (mem s0 (base a))
                                     (ea + i * N + Z.of_nat k))
                       (fun k => elt (mem s0 (base b))
                                     (eb + Z.of_nat k * P + j))
                       (Z.to_nat (N + 1)) x)).
Proof.
  intros Ha Hb Hc Hea Heb Hec HNo HN Hv HlenA HlenB HlenC Hacc Hfuel.
  pose proof (matmul_vec_4x4_odd fuel c a b ec ea eb N P s0 Ha Hb Hc Hea Heb
                Hec HNo HN Hv HlenA HlenB HlenC Hacc Hfuel) as Hwp.
  apply wp_done in Hwp. destruct Hwp as ([] & s' & Hrun & Hpost).
  exists s'. split; [exact Hrun |].
  intros i j x Hi Hj Hx. rewrite (Hpost i j Hi Hj).
  unfold acc_overrun, acc_after.
  assert (HB : forall k, 0 <= k <= N ->
            Brow s0 (base b) eb P (Z.to_nat k) !! Z.to_nat j
            = Some (elt (mem s0 (base b)) (eb + k * P + j))).
  { intros k Hk. unfold Brow. rewrite lookup_row by nia.
    rewrite Z2Nat.id by lia.
    apply lookup_elt. nia. }
  unfold Aelt at 2. rewrite Z2Nat.id by lia.
  apply lookup_fmacc; [| apply HB; lia].
  apply lookup_vchain with
    (b := fun k => elt (mem s0 (base b)) (eb + Z.of_nat k * P + j)).
  - exact Hx.
  - intros k Hk. rewrite <- (Nat2Z.id k). rewrite HB by lia.
    rewrite Nat2Z.id. reflexivity.
Qed.

(** *** A unit that grants nothing, and an empty reduction *)

Lemma col_loop_stuck (kfuel : nat) (c a b : ptr) (M N P bs : Z) (fuel : nat) :
  1 <= P ->
  forall s u s', col_loop fuel kfuel c a b M N P bs 0 0 s <> Done u s'.
Proof.
  intros HP. induction fuel as [|fuel IH]; intros s u s'; [discriminate |].
  cbn [col_loop].
  destruct (Z.ltb_spec 0 P) as [_ | ?]; [| lia]. cbv zeta.
  apply bind_not_done. intros v s1 _.
  apply bind_not_done. intros [] s2 _.
  intros u' s''. apply IH.
Qed.

(** X10.  The column loop advances by the length the unit granted for
    [P]: on a unit that grants no element, a call with [P >= 1] never
    returns, however much fuel it is given. *)
Theorem matmul_zero_grant_never_returns (fuel : nat) (c a b : ptr)
    (M N P : Z) (s : state) (u : unit) (s' : state) :
  1 <= P -> grant P = 0 ->
  matmul fuel c a b M N P s <> Done u s'.
Proof.
  intros HP Hg. unfold matmul. cbv zeta.
  apply bind_not_done. intros bsp s1 [= <- _]. rewrite Hg.
  intros u' s''. apply col_loop_stuck. exact HP.
Qed.

(** The write-back of [matmul_vec_4x4]: each accumulator takes one more
    step, with the scalar it is given and register [v20], and is stored to
    its row of the C block. *)
Lemma write_back_spec (c : ptr) (ec P : Z) (s : state) (t0 t1 t2 t3 : f64)
    (F0 F1 F2 F3 : list f64) :
  offset c = 8 * ec -> 0 <= ec -> 0 <= vl s <= P ->
  ec + 3 * P + vl s <= Z.of_nat (length (mem s (base c))) ->
  length F0 = Z.to_nat (vl s) -> length F1 = Z.to_nat (vl s) ->
  length F2 = Z.to_nat (vl s) -> length F3 = Z.to_nat (vl s) ->
  fmacc (body s V0) t0 (body s V20) = F0 ->
  fmacc (body s V4) t1 (body s V20) = F1 ->
  fmacc (body s V8) t2 (body s V20) = F2 ->
  fmacc (body s V12) t3 (body s V20) = F3 ->
  wp (vfmacc_vf V0 t0 V20 ;;
      vse64 V0 c ;; let c := padd c (Z.shiftl P 3) in
      vfmacc_vf V4 t1 V20 ;;
      vse64 V4 c ;; let c := padd c (Z.shiftl P 3) in
      vfmacc_vf V8 t2 V20 ;;
      vse64 V8 c ;; let c := padd c (Z.shiftl P 3) in
      vfmacc_vf V12 t3 V20 ;;
      vse64 V12 c) s
     (fun _ s' =>
        forall j, 0 <= j < vl s ->
          mem s' (base c) !! Z.to_nat (ec + 0 * P + j) = F0 !! Z.to_nat j /\
          mem s' (base c) !! Z.to_nat (ec + 1 * P + j) = F1 !! Z.to_nat j /\
          mem s' (base c) !! Z.to_nat (ec + 2 * P + j) = F2 !! Z.to_nat j /\
          mem s' (base c) !! Z.to_nat (ec + 3 * P + j) = F3 !! Z.to_nat j).
Proof.
  intros Hc Hec Hv HlenC L0 L1 L2 L3 E0 E1 E2 E3.
  unfold body in E0, E1, E2, E3. rewrite <- body_fmacc in E0, E1, E2, E3.
  destruct (four_rows (mem s (base c)) F0 F1 F2 F3 ec P (vl s)
              Hec Hv L0 L1 L2 L3 HlenC) as [HL [HB HR]].
  cbv zeta in HL, HB, HR.
  assert (LB1 : length (store_row (mem s (base c)) (ec + 0 * P) F0)
                = length (mem s (base c)))
    by (apply length_store_row; rewrite ?L0; lia).
  assert (LB2 : length (store_row
                          (store_row (mem s (base c)) (ec + 0 * P) F0)
                          (ec + 1 * P) F1)
                = length (mem s (base c)))
    by (rewrite length_store_row; rewrite ?LB1, ?L1; lia).
  assert (LB3 : length (store_row
                          (store_row
                             (store_row (mem s (base c)) (ec + 0 * P) F0)
                             (ec + 1 * P) F1)
                          (ec + 2 * P) F2)
                = length (mem s (base c)))
    by (rewrite length_store_row; rewrite ?LB2, ?L2; lia).
  cbv zeta.
  apply wp_bind, wp_vfmacc_vf; simpl_state.
  apply wp_bind. apply wp_vse64 with (e := ec + 0 * P);
    simpl_state; rewrite ?E0; [lia | lia | lia | exact L0 | lia |].
  apply wp_bind, wp_vfmacc_vf; simpl_state.
  apply wp_bind. apply wp_vse64 with (e := ec + 1 * P);
    simpl_state; rewrite ?set_region_same, ?E1, ?shiftl_3;
    [lia | lia | lia | exact L1 | rewrite ?LB3, ?LB2, ?LB1; lia |].
  apply wp_bind, wp_vfmacc_vf; simpl_state.
  apply wp_bind. apply wp_vse64 with (e := ec + 2 * P);
    simpl_state; rewrite ?set_region_same, ?E2, ?shiftl_3;
    [lia | lia | lia | exact L2 | rewrite ?LB3, ?LB2, ?LB1; lia |].
  apply wp_bind, wp_vfmacc_vf; simpl_state.
  apply wp_vse64 with (e := ec + 3 * P);
    simpl_state; rewrite ?set_region_same, ?E3, ?shiftl_3;
    [lia | lia | lia | exact L3 | rewrite ?LB3, ?LB2, ?LB1; lia |].
  simpl_state; rewrite ?set_region_same.
  exact HB.
Qed.

(** X11.  With nothing to reduce ([N <= 0]) [matmul_vec_4x4] does not
    leave the C block as it is: the loop is not entered, but the prologue
    has loaded [A[i][0]] and the write-back accumulates its product with
    register [v20], which the call has never loaded.  Lane [j] of row [i]
    receives [A[i][0] * v20[j]], with [v20] as the caller left it. *)
Theorem matmul_vec_4x4_empty_reduction_adds_v20 (fuel : nat) (c a b : ptr)
    (ec ea eb N P : Z) (s0 : state) :
  offset a = 8 * ea -> offset b = 8 * eb -> offset c = 8 * ec ->
  0 <= ea + 3 * N -> 0 <= eb -> 0 <= ec ->
  N <= 0 -> 0 <= vl s0 <= P ->
  ea < Z.of_nat (length (mem s0 (base a))) ->
  eb + vl s0 <= Z.of_nat (length (mem s0 (base b))) ->
  ec + 3 * P + vl s0 <= Z.of_nat (length (mem s0 (base c))) ->
  (forall i, 0 <= i < 4 -> length (body s0 (accreg i)) = Z.to_nat (vl s0)) ->
  (0 < fuel)%nat ->
  exists s',
    matmul_vec_4x4 fuel c a b N P s0 = Done tt s' /\
    forall i j x y, 0 <= i < 4 -> 0 <= j < vl s0 ->
      body s0 (accreg i) !! Z.to_nat j = Some x ->
      body s0 V20 !! Z.to_nat j = Some y ->
      mem s' (base c) !! Z.to_nat (ec + i * P + j)
      = Some (fmadd (elt (mem s0 (base a)) (ea + i * N)) y x).
Proof.
  intros Ha Hb Hc Hea Heb Hec HN Hv HlenA HlenB HlenC Hacc Hfuel.
  assert (Hwp : wp (matmul_vec_4x4 fuel c a b N P) s0
            (fun _ s' =>
               forall j, 0 <= j < vl s0 ->
                 mem s' (base c) !! Z.to_nat (ec + 0 * P + j)
                 = fmacc (body s0 V0) (elt (mem s0 (base a)) (ea + 0 * N))
                         (body s0 V20) !! Z.to_nat j /\
                 mem s' (base c) !! Z.to_nat (ec + 1 * P + j)
                 = fmacc (body s0 V4) (elt (mem s0 (base a)) (ea + 1 * N))
                         (body s0 V20) !! Z.to_nat j /\
                 mem s' (base c) !! Z.to_nat (ec + 2 * P + j)
                 = fmacc (body s0 V8) (elt (mem s0 (base a)) (ea + 2 * N))
                         (body s0 V20) !! Z.to_nat j /\
                 mem s' (base c) !! Z.to_nat (ec + 3 * P + j)
                 = fmacc (body s0 V12) (elt (mem s0 (base a)) (ea + 3 * N))
                         (body s0 V20) !! Z.to_nat j)).
  { unfold matmul_vec_4x4. cbv zeta.
    apply wp_bind.
    apply wp_vle64 with (e := eb); [assumption | lia | lia | exact HlenB |].
    simpl_state.
    apply wp_bind.
    apply wp_fld with (e := ea + 0 * N);
      [simpl_state; rewrite ?shiftl_3; lia | simpl_state; lia | simpl_state].
    apply wp_bind.
    apply wp_fld with (e := ea + 1 * N);
      [simpl_state; rewrite ?shiftl_3; lia | simpl_state; lia | simpl_state].
    apply wp_bind.
    apply wp_fld with (e := ea + 2 * N);
      [simpl_state; rewrite ?shiftl_3; lia | simpl_state; lia | simpl_state].
    apply wp_bind.
    apply wp_fld with (e := ea + 3 * N);
      [simpl_state; rewrite ?shiftl_3; lia | simpl_state; lia | simpl_state].
    apply wp_bind.
    destruct fuel as [|fuel]; [lia |]. cbn [reduction_loop].
    destruct (Z.ltb_spec 0 N) as [? | _]; [lia |].
    apply wp_ret.
    pose proof (Hacc 0 ltac:(lia)) as L0. pose proof (Hacc 1 ltac:(lia)) as L1.
    pose proof (Hacc 2 ltac:(lia)) as L2. pose proof (Hacc 3 ltac:(lia)) as L3.
    change (accreg 0) with V0 in L0. change (accreg 1) with V4 in L1.
    change (accreg 2) with V8 in L2. change (accreg 3) with V12 in L3.
    eapply wp_mono.
    { apply (write_back_spec c ec P _ _ _ _ _
               (fmacc (body s0 V0) (elt (mem s0 (base a)) (ea + 0 * N))
                      (body s0 V20))
               (fmacc (body s0 V4) (elt (mem s0 (base a)) (ea + 1 * N))
                      (body s0 V20))
               (fmacc (body s0 V8) (elt (mem s0 (base a)) (ea + 2 * N))
                      (body s0 V20))
               (fmacc (body s0 V12) (elt (mem s0 (base a)) (ea + 3 * N))
                      (body s0 V20)));
        simpl_state; rewrite ?length_fmacc; try assumption; try reflexivity. }
    intros u s' Hpost. exact Hpost. }
  apply wp_done in Hwp. destruct Hwp as ([] & s' & Hrun & Hpost).
  exists s'. split; [exact Hrun |].
  intros i j x y Hi Hj Hx Hy.
  destruct (Hpost j Hj) as (B0 & B1 & B2 & B3).
  destruct (accreg_cases i Hi) as [-> | [-> | [-> | ->]]];
    [rewrite B0 | rewrite B1 | rewrite B2 | rewrite B3];
    apply lookup_fmacc; assumption.
Qed.

(** *** The row count is rounded up *)

Lemma row_loop_rounds_M_up (kfuel : nat) (c_ a b_ : ptr) (M N P : Z)
    (fuel : nat) :
  forall m s, m mod 4 = 0 ->
    row_loop fuel kfuel c_ a b_ M N P 4 m s
    = row_loop fuel kfuel c_ a b_ (4 * ((M + 3) / 4)) N P 4 m s.
Proof.
  induction fuel as [|fuel IH]; intros m s Hm; [reflexivity |].
  cbn [row_loop].
  assert (Htest : (m <? M) = (m <? 4 * ((M + 3) / 4))).
  { destruct (Z.ltb_spec m M), (Z.ltb_spec m (4 * ((M + 3) / 4)));
      try reflexivity; exfalso; Z.div_mod_to_equations; lia. }
  rewrite <- Htest. destruct (m <? M); [| reflexivity]. cbv zeta.
  unfold bind.
  destruct (matmul_vec_4x4_slice_init _ _ s) as [[] s1 | |];
    try reflexivity.
  destruct (matmul_vec_4x4 _ _ _ _ _ _ s1) as [[] s2 | |]; try reflexivity.
  apply IH. rewrite <- Zplus_mod_idemp_l, Hm. reflexivity.
Qed.

Lemma col_loop_rounds_M_up (kfuel : nat) (c a b : ptr) (M N P bsp : Z)
    (fuel : nat) :
  forall p s,
    col_loop fuel kfuel c a b M N P 4 bsp p s
    = col_loop fuel kfuel c a b (4 * ((M + 3) / 4)) N P 4 bsp p s.
Proof.
  induction fuel as [|fuel IH]; intros p s; [reflexivity |].
  cbn [col_loop]. destruct (p <? P); [| reflexivity]. cbv zeta.
  unfold bind at 1 3. unfold vsetvli. cbv zeta.
  unfold bind. rewrite <- row_loop_rounds_M_up by reflexivity.
  destruct (row_loop _ _ _ _ _ M _ _ _ _ _) as [[] s1 | |]; try reflexivity.
  apply IH.
Qed.

(** X12.  [matmul] looks at [M] only in the test of its row loop, which
    advances by four: a call with [M] rows is the call with [M] rounded up
    to the next multiple of 4, whatever the state.  With an [M] that is not
    a multiple of 4 it works on, and stores, the rows up to that
    multiple. *)
Theorem matmul_rounds_M_up (fuel : nat) (c a b : ptr) (M N P : Z)
    (s : state) :
  matmul fuel c a b M N P s = matmul fuel c a b (4 * ((M + 3) / 4)) N P s.
Proof.
  unfold matmul. cbv zeta. unfold bind, vsetvli. cbv zeta.
  apply col_loop_rounds_M_up.
Qed.

(** X13.  For even [N] and an [M >= 1] that need not be a multiple of 4,
    on buffers long enough for the rows up to the next multiple [M'] of 4:
    [matmul] returns, and it has accumulated into all [M'] rows of C, the
    rows [M .. M' - 1] behind the matrix included. *)
Theorem matmul_ragged_M_updates_whole_group (VLMAX : Z) (fuel : nat)
    (c a b : ptr) (M N P : Z) (s0 : state) :
  rvv_grant VLMAX ->
  offset a = 0 -> offset b = 0 -> offset c = 0 ->
  base a <> base c -> base b <> base c ->
  1 <= M -> Z.Even N -> 2 <= N -> 1 <= P ->
  4 * ((M + 3) / 4) * N <= Z.of_nat (length (mem s0 (base a))) ->
  N * P <= Z.of_nat (length (mem s0 (base b))) ->
  4 * ((M + 3) / 4) * P <= Z.of_nat (length (mem s0 (base c))) ->
  (Z.to_nat (Z.max (M + 3) (Z.max N P)) < fuel)%nat ->
  exists s',
    matmul fuel c a b M N P s0 = Done tt s' /\
    forall i j, 0 <= i < 4 * ((M + 3) / 4) -> 0 <= j < P ->
      mem s' (base c) !! Z.to_nat (i * P + j)
      = Some (dot (mem s0 (base a)) (mem s0 (base b)) N P i j
                  (elt (mem s0 (base c)) (i * P + j))).
Proof.
  intros Hrvv Ha Hb Hc Hac Hbc HM HNe HN HP HlenA HlenB HlenC Hfuel.
  assert (Hq : 1 <= (M + 3) / 4) by (Z.div_mod_to_equations; lia).
  assert (Hle : 4 * ((M + 3) / 4) <= M + 3)
    by (Z.div_mod_to_equations; lia).
  destruct (matmul_even_done VLMAX fuel c a b (4 * ((M + 3) / 4)) N P s0)
    as (s' & Hrun & Hpost); try assumption.
  - exists ((M + 3) / 4). split; [exact Hq | reflexivity].
  - lia.
  - exists s'. split.
    + rewrite <- Hrun. unfold matmul. cbv zeta. unfold bind, vsetvli.
      cbv zeta. apply col_loop_rounds_M_up.
    + intros i j Hi Hj.
      apply (bpost_lookup s0 s' _ _ _ (4 * ((M + 3) / 4)) N P _ i j Hpost);
        assumption.
Qed.

End Edges.

(** ** Concrete runs: odd [N] *)

#[local] Existing Instance hw2.

(** The kernel prefetches the reduction step [n + 1] before it tests
    [n == N - 1], and tests only after an odd number of steps.  For odd [N]
    the test never holds: the loop ends through [n < N] after [N + 1] steps,
    and the code after the loop adds one more.  The steps [N] and [N + 1]
    read past row [N - 1] of B and past column [N - 1] of A. *)

(** C1 fails for [N = 1] ([M = 4], [P = 1]): on buffers of exactly 4, 1 and
    4 doubles the call reads outside B; on buffers with further doubles
    behind the matrices it returns, and C is not [C + A*B]. *)
Lemma matmul_N1_not_product :
  matmul 8 pc pa pb 4 1 1 (start 0 [1; 2; 3; 4] [5] [0; 0; 0; 0])
  = Fault /\
  final_C (matmul 8 pc pa pb 4 1 1
             (start 0 [1; 2; 3; 4; 7; 7] [5; 1; 1] [0; 0; 0; 0]))
  = Some [10; 17; 26; 34] /\
  reference [1; 2; 3; 4; 7; 7] [5; 1; 1] [0; 0; 0; 0] 4 1 1
  = [5; 10; 15; 20].
Proof. repeat split; vm_compute; reflexivity. Qed.

(** C2 fails for [N = 1] ([P = 1], one lane): after the only valid step the
    kernel loads the rows 1 and 2 of B (byte offsets 8 and 16) and, for the
    last row of the group, the elements 1 and 2 of a row of A that has one
    element (byte offsets 32 and 40). *)
Lemma kernel_N1_loads_past_N :
  (matmul_vec_4x4_slice_init pc 1 ;; matmul_vec_4x4 8 pc pa pb 1 1)
    (start 1 [1; 2; 3; 4] [5] [0; 0; 0; 0]) = Fault /\
  exists tr,
    accesses ((matmul_vec_4x4_slice_init pc 1 ;;
               matmul_vec_4x4 8 pc pa pb 1 1)
                (start 1 [1; 2; 3; 4; 7; 7] [5; 1; 1] [0; 0; 0; 0])) = Some tr /\
    In (EvLoad (mkPtr RB 8) 1) tr /\ In (EvLoad (mkPtr RB 16) 1) tr /\
    In (EvLoad (mkPtr RA 32) 1) tr /\ In (EvLoad (mkPtr RA 40) 1) tr.
Proof.
  split; [vm_compute; reflexivity |].
  eexists. split; [vm_compute; reflexivity |].
  cbn. repeat split; tauto.
Qed.

(** C3 fails for [N = 3] ([P = 1], one lane): the kernel stores
    [9321; 15654; 21987; 3320], the ascending folds over [k = 0, 1, 2] are
    [321; 654; 987; 1320]; on buffers of exactly 12, 3 and 4 doubles the
    kernel reads outside B. *)
Lemma kernel_N3_not_the_fold :
  (matmul_vec_4x4_slice_init pc 1 ;; matmul_vec_4x4 8 pc pa pb 3 1)
    (start 1 [1; 2; 3; 4; 5; 6; 7; 8; 9; 10; 11; 12] [1; 10; 100]
             [0; 0; 0; 0]) = Fault /\
  final_C ((matmul_vec_4x4_slice_init pc 1 ;;
            matmul_vec_4x4 8 pc pa pb 3 1)
             (start 1 [1; 2; 3; 4; 5; 6; 7; 8; 9; 10; 11; 12; 1; 1]
                      [1; 10; 100; 1000; 10000] [0; 0; 0; 0]))
  = Some [9321; 15654; 21987; 3320] /\
  map (fun i : Z =>
         fold_left (fun acc k =>
                      fmadd
                        (elt
                             [1; 2; 3; 4; 5; 6; 7; 8; 9; 10; 11; 12; 1; 1]
                             (i * 3 + Z.of_nat k))
                        (elt [1; 10; 100; 1000; 10000]
                             (Z.of_nat k * 1 + 0))
                        acc)
                   (seq 0 3) 0)
      [0; 1; 2; 3]
  = [321; 654; 987; 1320].
Proof. repeat split; vm_compute; reflexivity. Qed.

(** C4 fails for [N = 1] with [P = 5] on a unit of four lanes ([VL0 = 4],
    [P = VL0 + 1]): the column of the partial chunk, column 4, ends as
    [10005; 20007; 30011; 40014] where the product is
    [10000; 20000; 30000; 40000]; on buffers of exactly 4, 5 and 20 doubles
    the call reads outside B. *)
Lemma matmul_N1_partial_chunk_wrong :
  matmul (VU := hw4) 8 pc pa pb 4 1 5 ex_exact5 = Fault /\
  final_C (matmul (VU := hw4) 8 pc pa pb 4 1 5 ex_padded5)
  = Some [1; 10; 100; 1000; 10005; 2; 20; 200; 2000; 20007;
          3; 30; 300; 3000; 30011; 4; 40; 400; 4000; 40014] /\
  reference (VU := hw4) exA1_pad exB1_pad exC5 4 1 5
  = [1; 10; 100; 1000; 10000; 2; 20; 200; 2000; 20000;
     3; 30; 300; 3000; 30000; 4; 40; 400; 4000; 40000].
Proof. repeat split; vm_compute; reflexivity. Qed.

(** C6 fails for [N = 1]: two calls on buffers of exactly 4, 1 and 4 doubles
    read outside B; on longer buffers they return and leave
    [120; 134; 152; 168] where [C + 2 * (A * B)] is [110; 120; 130; 140]. *)
Lemma matmul_N1_twice_not_twice_product :
  (matmul 8 pc pa pb 4 1 1 ;; matmul 8 pc pa pb 4 1 1)
    (start 0 [1; 2; 3; 4] [5] [100; 100; 100; 100]) = Fault /\
  final_C ((matmul 8 pc pa pb 4 1 1 ;; matmul 8 pc pa pb 4 1 1)
             (start 0 [1; 2; 3; 4; 7; 7] [5; 1; 1] [100; 100; 100; 100]))
  = Some [120; 134; 152; 168] /\
  reference [1; 2; 3; 4; 7; 7] [5; 1; 1]
            (reference [1; 2; 3; 4; 7; 7] [5; 1; 1] [100; 100; 100; 100] 4 1 1)
            4 1 1
  = [110; 120; 130; 140].
Proof. repeat split; vm_compute; reflexivity. Qed.

(** C7 fails for [N = 1]: with A the zero matrix of 4 rows and 1 column the
    call reads outside B when the buffers hold exactly 4, 1 and 4 doubles,
    and on longer buffers it returns with [9; 9; 16; 23] in a C that held
    [9; 9; 9; 9]; with B the zero matrix, likewise, [14; 16; 20; 23]. *)
Lemma matmul_N1_zero_operand_changes_C :
  matmul 8 pc pa pb 4 1 1 (start 0 [0; 0; 0; 0] [5] [9; 9; 9; 9]) = Fault /\
  final_C (matmul 8 pc pa pb 4 1 1
             (start 0 [0; 0; 0; 0; 7; 7] [5; 1; 1] [9; 9; 9; 9]))
  = Some [9; 9; 16; 23] /\
  matmul 8 pc pa pb 4 1 1 (start 0 [1; 2; 3; 4] [0] [9; 9; 9; 9]) = Fault /\
  final_C (matmul 8 pc pa pb 4 1 1
             (start 0 [1; 2; 3; 4; 7; 7] [0; 1; 1] [9; 9; 9; 9]))
  = Some [14; 16; 20; 23].
Proof. repeat split; vm_compute; reflexivity. Qed.

(** ** Concrete runs: even [N] *)

(** A run on the sample matrices: C becomes [C + A * B], through a full
    chunk of two columns and a partial chunk of one. *)
Example matmul_sample_run :
  final_C (matmul 8 pc pa pb 4 2 3 ex_start)
  = Some [2002; 20012; 200103; 4007; 40035; 400306;
          6012; 60058; 600509; 8017; 80081; 800712] /\
  reference (VU := hw2) exA exB exC 4 2 3
  = [2002; 20012; 200103; 4007; 40035; 400306;
     6012; 60058; 600509; 8017; 80081; 800712].
Proof. split; vm_compute; reflexivity. Qed.

(** Why C7 needs operands on which a zero factor contributes nothing: with
    [N = 2], A all zeros and an infinity in B, every element of C becomes
    NaN. *)
Lemma matmul_zero_times_infinity :
  final_C (matmul (VU := special_unit 2) 8 pc pa pb 4 2 1
             (start (VU := special_unit 2) 0
                [XFin 0; XFin 0; XFin 0; XFin 0; XFin 0; XFin 0; XFin 0; XFin 0]
                [XInf false; XFin 1]
                [XFin 5; XFin 6; XFin 7; XFin 8]))
  = Some [XNaN; XNaN; XNaN; XNaN].
Proof. vm_compute. reflexivity. Qed.

Lemma matmul_accumulates_product_witness :
  exists s',
    matmul 8 pc pa pb 4 2 3 ex_start = Done tt s' /\
    forall i j, 0 <= i < 4 -> 0 <= j < 3 ->
      mem s' RC !! Z.to_nat (i * 3 + j)
      = Some (dot (VU := hw2) exA exB 2 3 i j (elt (VU := hw2) exC (i * 3 + j))).
Proof.
  apply (matmul_accumulates_product (VU := hw2) 2 8 pc pa pb 4 2 3 ex_start).
  - split; cbn; intros; lia.
  - reflexivity.
  - reflexivity.
  - reflexivity.
  - discriminate.
  - discriminate.
  - exists 1. lia.
  - exists 1. reflexivity.
  - lia.
  - lia.
  - cbn. lia.
  - cbn. lia.
  - cbn. lia.
  - cbn. lia.
Defined.

Lemma kernel_loads_below_N_witness :
  exists s' tr,
    matmul_vec_4x4 8 pc pa pb 2 3 ex_primed = Done tt s' /\
    trace s' = tr ++ trace ex_primed /\
    forall q len, In (EvLoad q len) tr ->
      (base q = RA /\ len = 1 /\
       exists i k, 0 <= i < 4 /\ 0 <= k < 2 /\
                   offset q = 8 * (0 + i * 2 + k)) \/
      (base q = RB /\ len = 2 /\
       exists k, 0 <= k < 2 /\ offset q = 8 * (0 + k * 3)).
Proof.
  apply (kernel_loads_below_N (VU := hw2) 8 pc pa pb 0 0 0 2 3 ex_primed).
  - reflexivity.
  - reflexivity.
  - reflexivity.
  - lia.
  - lia.
  - lia.
  - exists 1. reflexivity.
  - lia.
  - cbn. lia.
  - cbn. lia.
  - cbn. lia.
  - cbn. lia.
  - intros i Hi. reflexivity.
  - lia.
Defined.

Lemma kernel_refines_ascending_fold_witness :
  exists s',
    matmul_vec_4x4 8 pc pa pb 2 3 ex_primed = Done tt s' /\
    forall i j x, 0 <= i < 4 -> 0 <= j < 2 ->
      body ex_primed (accreg i) !! Z.to_nat j = Some x ->
      mem s' RC !! Z.to_nat (0 + i * 3 + j)
      = Some (fold_left
                (fun acc k =>
                   fmadd (VectorUnit := hw2)
                         (elt (VU := hw2) exA (0 + i * 2 + Z.of_nat k))
                         (elt (VU := hw2) exB (0 + Z.of_nat k * 3 + j))
                         acc)
                (seq 0 (Z.to_nat 2)) x).
Proof.
  apply (kernel_refines_ascending_fold (VU := hw2) 8 pc pa pb 0 0 0 2 3
           ex_primed).
  - reflexivity.
  - reflexivity.
  - reflexivity.
  - lia.
  - lia.
  - lia.
  - exists 1. reflexivity.
  - lia.
  - cbn. lia.
  - cbn. lia.
  - cbn. lia.
  - cbn. lia.
  - intros i Hi. reflexivity.
  - lia.
Defined.

Lemma matmul_partial_chunk_witness :
  exists s' tr,
    matmul (VU := hw4) 8 pc pa pb 4 2 5 ex_start5 = Done tt s' /\
    trace s' = tr ++ trace ex_start5 /\
    (forall q len, In (EvLoad q len) tr \/ In (EvStore q len) tr ->
       base q = RA \/
       exists t r, 0 <= t /\ t * 4 < 5 /\
                   len = MIN (5 - t * 4) 4 /\
                   offset q = 8 * (r * 5 + t * 4) /\
                   t * 4 + len <= 5) /\
    (forall i j, 0 <= i < 4 -> 0 <= j < 5 ->
       mem s' RC !! Z.to_nat (i * 5 + j)
       = Some (dot (VU := hw4) exA exB5 2 5 i j
                   (elt (VU := hw4) exC5 (i * 5 + j)))).
Proof.
  destruct (matmul_partial_chunk (VU := hw4) 4 8 pc pa pb 4 2 5 ex_start5)
    as [Hacc Hval].
  - split; cbn; intros; lia.
  - reflexivity.
  - reflexivity.
  - reflexivity.
  - discriminate.
  - discriminate.
  - lia.
  - destruct Hval as (s' & Hrun & Hprod).
    + exists 1. lia.
    + exists 1. reflexivity.
    + lia.
    + cbn. lia.
    + cbn. lia.
    + cbn. lia.
    + cbn. lia.
    + destruct (Hacc tt s' Hrun) as (tr & Htr & Hcols).
      exists s', tr. split; [exact Hrun |]. split; [exact Htr |].
      split; [exact Hcols | exact Hprod].
Defined.

Lemma matmul_even_N_in_bounds_witness :
  exists s' tr,
    matmul 8 pc pa pb 4 2 3 ex_start = Done tt s' /\
    trace s' = tr ++ trace ex_start /\
    Forall (in_bounds (mem ex_start)) tr /\
    (forall q len, In (EvLoad q len) tr ->
       (base q = RA /\ len = 1 /\
        exists i k, 0 <= i < 4 /\ 0 <= k <= 2 - 1 /\
                    offset q = 8 * (i * 2 + k)) \/
       (base q = RB /\
        exists k p, 0 <= k <= 2 - 1 /\ 0 <= p /\ p + len <= 3 /\
                    offset q = 8 * (k * 3 + p)) \/
       base q = RC).
Proof.
  apply (matmul_even_N_in_bounds (VU := hw2) 2 8 pc pa pb 4 2 3 ex_start).
  - split; cbn; intros; lia.
  - reflexivity.
  - reflexivity.
  - reflexivity.
  - discriminate.
  - discriminate.
  - exists 1. lia.
  - exists 1. reflexivity.
  - lia.
  - lia.
  - reflexivity.
  - reflexivity.
  - reflexivity.
  - cbn. lia.
Defined.

Lemma matmul_twice_accumulates_twice_witness :
  exists s'',
    (matmul 8 pc pa pb 4 2 3 ;; matmul 8 pc pa pb 4 2 3) ex_start
    = Done tt s'' /\
    forall i j, 0 <= i < 4 -> 0 <= j < 3 ->
      mem s'' RC !! Z.to_nat (i * 3 + j)
      = Some (dot (VU := hw2) exA exB 2 3 i j
                (dot (VU := hw2) exA exB 2 3 i j
                     (elt (VU := hw2) exC (i * 3 + j)))).
Proof.
  apply (matmul_twice_accumulates_twice (VU := hw2) 2 8 pc pa pb 4 2 3
           ex_start).
  - split; cbn; intros; lia.
  - reflexivity.
  - reflexivity.
  - reflexivity.
  - discriminate.
  - discriminate.
  - exists 1. lia.
  - exists 1. reflexivity.
  - lia.
  - lia.
  - cbn. lia.
  - cbn. lia.
  - cbn. lia.
  - cbn. lia.
Defined.

Lemma matmul_zero_operand_keeps_C_witness :
  exists s',
    matmul 8 pc pa pb 4 2 3 ex_start0 = Done tt s' /\
    forall i j, 0 <= i < 4 -> 0 <= j < 3 ->
      mem s' RC !! Z.to_nat (i * 3 + j) = exC !! Z.to_nat (i * 3 + j).
Proof.
  apply (matmul_zero_operand_keeps_C (VU := hw2) 2 8 pc pa pb 4 2 3 ex_start0).
  - split; cbn; intros; lia.
  - reflexivity.
  - reflexivity.
  - reflexivity.
  - discriminate.
  - discriminate.
  - exists 1. lia.
  - exists 1. reflexivity.
  - lia.
  - lia.
  - cbn. lia.
  - cbn. lia.
  - cbn. lia.
  - cbn. lia.
  - left. split.
    + intros x Hx.
      assert (Hc : x = 0 \/ x = 1 \/ x = 2 \/ x = 3 \/ x = 4 \/ x = 5
                   \/ x = 6 \/ x = 7) by lia.
      destruct Hc as [-> | [-> | [-> | [-> | [-> | [-> | [-> | ->]]]]]]];
        reflexivity.
    + intros y z Hy Hz. cbn. lia.
Defined.

Lemma slice_init_loads_rows_witness :
  exists s',
    matmul_vec_4x4_slice_init pc 3 ex_primed = Done tt s' /\
    body s' V0 = [1; 2] /\ body s' V4 = [4; 5] /\
    body s' V8 = [7; 8] /\ body s' V12 = [10; 11] /\
    mem s' = mem ex_primed /\ vl s' = 2.
Proof.
  apply (slice_init_loads_rows (VU := hw2) pc 0 3 ex_primed).
  - reflexivity.
  - lia.
  - lia.
  - cbn. lia.
  - cbn. lia.
Defined.

Lemma matmul_mutates_only_C_witness :
  exists s',
    matmul 8 pc pa pb 4 2 3 ex_start = Done tt s' /\
    mem s' RA = exA /\ mem s' RB = exB /\
    forall r, length (mem s' r) = length (mem ex_start r).
Proof.
  eexists. split; [vm_compute; reflexivity |].
  eapply (matmul_mutates_only_C (VU := hw2) 8 pc pa pb 4 2 3 ex_start _ tt).
  - vm_compute. reflexivity.
  - discriminate.
  - discriminate.
Defined.

Lemma matmul_terminates_witness :
  matmul 8 pc pa pb 4 3 3 ex_start <> OutOfFuel.
Proof.
  apply (matmul_terminates (VU := hw2) 8 pc pa pb 4 3 3 ex_start).
  - intros avl Havl. cbn. lia.
  - lia.
  - lia.
  - lia.
  - cbn. lia.
Defined.

(** ** Concrete runs: outside the contract *)

Lemma matmul_empty_dimension_witness :
  exists s',
    matmul 8 pc pa pb 0 2 3 ex_start = Done tt s' /\
    mem s' = mem ex_start /\ vrf s' = vrf ex_start /\
    trace s' = trace ex_start.
Proof.
  apply (matmul_empty_dimension (VU := hw2) 8 pc pa pb 0 2 3 ex_start).
  - left. lia.
  - intros avl Havl. cbn. lia.
  - lia.
Defined.

Lemma slice_init_returns_iff_in_bounds_witness :
  ((exists s', matmul_vec_4x4_slice_init pc 3 ex_primed = Done tt s') <->
   vl ex_primed = 0 \/
   0 + 3 * 3 + vl ex_primed <= Z.of_nat (length (mem ex_primed (base pc)))) /\
  (matmul_vec_4x4_slice_init pc 3 ex_primed = Fault <->
   1 <= vl ex_primed /\
   Z.of_nat (length (mem ex_primed (base pc))) < 0 + 3 * 3 + vl ex_primed).
Proof.
  apply (slice_init_returns_iff_in_bounds (VU := hw2) pc 0 3 ex_primed).
  - reflexivity.
  - lia.
  - lia.
  - cbn. lia.
Defined.

Lemma matmul_ragged_M_faults_witness :
  matmul 8 pc pa pb 3 2 3 ex_ragged = Fault.
Proof.
  apply (matmul_ragged_M_faults (VU := hw2) 8 pc pa pb 3 2 3).
  - lia.
  - vm_compute. discriminate.
  - lia.
  - intros avl Havl. cbn. lia.
  - reflexivity.
  - cbn. lia.
  - lia.
Defined.

Lemma matmul_empty_B_faults_witness :
  matmul 8 pc pa pb 4 0 3 ex_empty = Fault.
Proof.
  apply (matmul_empty_B_faults (VU := hw2) 8 pc pa pb 4 0 3).
  - lia.
  - lia.
  - intros avl Havl. cbn. lia.
  - reflexivity.
  - lia.
Defined.

Lemma matmul_leaves_last_chunk_vl_witness :
  exists s',
    matmul 8 pc pa pb 4 2 3 ex_start = Done tt s' /\
    exists t, 0 <= t /\
              t * grant 3 < 3 <= (t + 1) * grant 3 /\
              vl s' = grant (MIN (3 - t * grant 3) (grant 3)).
Proof.
  eexists. split; [vm_compute; reflexivity |].
  eapply (matmul_leaves_last_chunk_vl (VU := hw2) 8 pc pa pb 4 2 3 ex_start
            tt).
  - lia.
  - cbn. lia.
  - vm_compute. reflexivity.
Defined.

Lemma matmul_even_keeps_rest_of_C_witness :
  exists s',
    matmul 8 pc pa pb 4 2 3 ex_padded = Done tt s' /\
    length (mem s' (base pc)) = length (mem ex_padded (base pc)) /\
    forall x, (Z.to_nat (4 * 3) <= x)%nat ->
              mem s' (base pc) !! x = mem ex_padded (base pc) !! x.
Proof.
  apply (matmul_even_keeps_rest_of_C (VU := hw2) 2 8 pc pa pb 4 2 3).
  - split; cbn; intros; lia.
  - reflexivity.
  - reflexivity.
  - reflexivity.
  - discriminate.
  - discriminate.
  - exists 1. lia.
  - exists 1. reflexivity.
  - lia.
  - lia.
  - cbn. lia.
  - cbn. lia.
  - cbn. lia.
  - cbn. lia.
Defined.

Lemma kernel_stores_after_loads_witness :
  exists s',
    matmul_vec_4x4 8 pc pa pb 2 3 ex_primed = Done tt s' /\
    exists tr,
      trace s'
      = EvStore (padd (padd (padd pc (8 * 3)) (8 * 3)) (8 * 3)) (vl ex_primed)
        :: EvStore (padd (padd pc (8 * 3)) (8 * 3)) (vl ex_primed)
        :: EvStore (padd pc (8 * 3)) (vl ex_primed)
        :: EvStore pc (vl ex_primed) :: tr ++ trace ex_primed /\
      Forall is_load tr.
Proof.
  eexists. split; [vm_compute; reflexivity |].
  eapply (kernel_stores_after_loads (VU := hw2) 8 pc pa pb 2 3 ex_primed tt).
  vm_compute. reflexivity.
Defined.

Lemma matmul_odd_N_faults_witness :
  matmul 8 pc pa pb 4 3 3 ex_odd = Fault.
Proof.
  apply (matmul_odd_N_faults (VU := hw2) 8 pc pa pb 4 3 3).
  - exists 1. reflexivity.
  - lia.
  - lia.
  - lia.
  - intros avl Havl. cbn. lia.
  - reflexivity.
  - cbn. lia.
  - lia.
Defined.

Lemma matmul_vec_4x4_odd_N_overruns_witness :
  exists s',
    matmul_vec_4x4 8 pc pa pb 1 1 ex_primed1 = Done tt s' /\
    forall i j x, 0 <= i < 4 -> 0 <= j < 1 ->
      body ex_primed1 (accreg i) !! Z.to_nat j = Some x ->
      mem s' RC !! Z.to_nat (0 + i * 1 + j)
      = Some (fmadd (VectorUnit := hw2)
                (elt (VU := hw2) exA1 (0 + i * 1 + (1 + 1)))
                (elt (VU := hw2) exB1 (0 + 1 * 1 + j))
                (fma_chain (VU := hw2)
                   (fun k => elt (VU := hw2) exA1 (0 + i * 1 + Z.of_nat k))
                   (fun k => elt (VU := hw2) exB1 (0 + Z.of_nat k * 1 + j))
                   (Z.to_nat (1 + 1)) x)).
Proof.
  apply (matmul_vec_4x4_odd_N_overruns (VU := hw2) 8 pc pa pb 0 0 0 1 1
           ex_primed1).
  - reflexivity.
  - reflexivity.
  - reflexivity.
  - lia.
  - lia.
  - lia.
  - exists 0. reflexivity.
  - lia.
  - cbn. lia.
  - cbn. lia.
  - cbn. lia.
  - cbn. lia.
  - intros i Hi. reflexivity.
  - lia.
Defined.

Lemma matmul_zero_grant_never_returns_witness :
  matmul (VU := exact_unit 0) 8 pc pa pb 4 2 3 ex_stuck <> Done tt ex_stuck.
Proof.
  apply (matmul_zero_grant_never_returns (VU := exact_unit 0) 8 pc pa pb
           4 2 3).
  - lia.
  - reflexivity.
Defined.

Lemma matmul_vec_4x4_empty_reduction_adds_v20_witness :
  exists s',
    matmul_vec_4x4 8 pc pa pb 0 3 ex_stale = Done tt s' /\
    forall i j x y, 0 <= i < 4 -> 0 <= j < 2 ->
      body ex_stale (accreg i) !! Z.to_nat j = Some x ->
      body ex_stale V20 !! Z.to_nat j = Some y ->
      mem s' RC !! Z.to_nat (0 + i * 3 + j)
      = Some (fmadd (VectorUnit := hw2)
                    (elt (VU := hw2) exA (0 + i * 0)) y x).
Proof.
  apply (matmul_vec_4x4_empty_reduction_adds_v20 (VU := hw2) 8 pc pa pb
           0 0 0 0 3 ex_stale).
  - reflexivity.
  - reflexivity.
  - reflexivity.
  - lia.
  - lia.
  - lia.
  - lia.
  - cbn. lia.
  - cbn. lia.
  - cbn. lia.
  - cbn. lia.
  - intros i Hi. reflexivity.
  - lia.
Defined.

Lemma matmul_ragged_M_updates_whole_group_witness :
  exists s',
    matmul 8 pc pa pb 3 2 3 ex_start = Done tt s' /\
    forall i j, 0 <= i < 4 * ((3 + 3) / 4) -> 0 <= j < 3 ->
      mem s' RC !! Z.to_nat (i * 3 + j)
      = Some (dot (VU := hw2) exA exB 2 3 i j (elt (VU := hw2) exC (i * 3 + j))).
Proof.
  apply (matmul_ragged_M_updates_whole_group (VU := hw2) 2 8 pc pa pb 3 2 3
           ex_start).
  - split; cbn; intros; lia.
  - reflexivity.
  - reflexivity.
  - reflexivity.
  - discriminate.
  - discriminate.
  - lia.
  - exists 1. reflexivity.
  - lia.
  - lia.
  - vm_compute. discriminate.
  - vm_compute. discriminate.
  - vm_compute. discriminate.
  - vm_compute. lia.
Defined.
